(** * Huanlian: the per-frame face pipeline

    A shallow embedding of the temporal-stabilisation and compositing
    pipeline of the application, and of what starts and restarts it:

    - [computeFaceBox]      (utils/face.ts)
    - [buildFaceSnapshot]   (components/CameraProcessor.tsx)
    - [renderLoop]          (components/CameraProcessor.tsx)
    - [drawComposition]     (components/CameraProcessor.tsx)
    - [handleVisible]       (components/CameraProcessor.tsx)
    - [useFrame]            (components/AvatarOverlay.tsx, AvatarModel)
    - [CameraSync], [dpr]   (components/AvatarOverlay.tsx)
    - [initialize], [getDelegateOrder], [createWithDelegates]
                            (services/MediaPipeService.ts)
    - [restartStream]       (hooks/useCamera.ts)
    - settings, [fallbackToCpu], start-up switches, [createWindow] and the
      IPC handlers          (electron/main.ts)

    JavaScript numbers are IEEE doubles.  The code is written once over an
    interface [Number] of the operations the source uses, and is read at
    three instances: exact rationals [Q] (executable, used for the algebra of
    the face box and of the hold window), rationals extended with NaN and the
    two infinities [xnum] (used where non-finite values matter), and the
    reals [R] (used for the exponential smoothing).  Rounding is not
    modelled. *)

From Stdlib Require Import QArith Qminmax Qround Qreals.
From Stdlib Require Import Reals Psatz Lia ZArith List Bool.
From stdpp Require Import base option list strings gmap.

Import ListNotations.

(** ** The number interface *)

Class Number (num : Type) := {
  lit : Q -> num;                       (* a numeric literal *)
  add : num -> num -> num;
  sub : num -> num -> num;
  neg : num -> num;                     (* unary minus *)
  mul : num -> num -> num;
  div : num -> num -> num;
  ltb : num -> num -> bool;             (* a < b *)
  eqb : num -> num -> bool;             (* a === b *)
  truthy : num -> bool;                 (* neither 0 nor NaN *)
  isFinite : num -> bool;               (* Number.isFinite *)
  Math_max : num -> num -> num;
  Math_min : num -> num -> num;
  Math_round : num -> num;
}.

Declare Scope js_scope.
Delimit Scope js_scope with js.
Infix "+" := add : js_scope.
Infix "-" := sub : js_scope.
Infix "*" := mul : js_scope.
Infix "/" := div : js_scope.
Infix "<?" := ltb : js_scope.
Notation "a >? b" := (ltb b a) : js_scope.

(** ** Data model (types/face.ts) *)

Section Types.
Context {num : Type}.

Record FaceBox := mkFaceBox {
  fb_x : num;
  fb_y : num;
  fb_width : num;
  fb_height : num;
}.

Record FrameSize := mkFrameSize {
  fs_width : num;
  fs_height : num;
}.

Record Landmark := mkLandmark {
  lm_x : num;
  lm_y : num;
  lm_z : option num;
}.

Record Blendshape := mkBlendshape {
  bs_name : string;
  bs_score : num;
}.

Record FaceSnapshot := mkFaceSnapshot {
  landmarks : list Landmark;
  matrix : option (list num);
  blendshapes : option (list Blendshape);
  timestamp : num;
}.
End Types.

Arguments FaceBox : clear implicits.
Arguments FrameSize : clear implicits.
Arguments Landmark : clear implicits.
Arguments Blendshape : clear implicits.
Arguments FaceSnapshot : clear implicits.

(** ** utils/face.ts *)

Section Face.
Context {num : Type} `{Number num}.
Local Open Scope js_scope.

(** The four running extremes of the scan. *)
Record Extents := mkExtents {
  minX : num;
  minY : num;
  maxX : num;
  maxY : num;
}.

(** One iteration of [for (const pt of landmarks)]. *)
Definition scanPoint (e : Extents) (pt : Landmark num) : Extents :=
  let minX := if lm_x pt <? minX e then lm_x pt else minX e in
  let minY := if lm_y pt <? minY e then lm_y pt else minY e in
  let maxX := if lm_x pt >? maxX e then lm_x pt else maxX e in
  let maxY := if lm_y pt >? maxY e then lm_y pt else maxY e in
  mkExtents minX minY maxX maxY.

(** The update of one running minimum, of one running maximum. *)
Definition stepMin (m x : num) : num := if x <? m then x else m.
Definition stepMax (m x : num) : num := if x >? m then x else m.

Definition initExtents : Extents :=
  mkExtents (lit 1) (lit 1) (lit 0) (lit 0).

Definition scanLandmarks (landmarks : list (Landmark num)) : Extents :=
  fold_left scanPoint landmarks initExtents.

(** [baseX], [baseY], [width], [height]: the box before padding. *)
Definition baseBox (landmarks : list (Landmark num))
    (frameWidth frameHeight : num) (mirrorX : bool) : FaceBox num :=
  let e := scanLandmarks landmarks in
  let boxMinX := if mirrorX then lit 1 - maxX e else minX e in
  let boxMaxX := if mirrorX then lit 1 - minX e else maxX e in
  let baseX := boxMinX * frameWidth in
  let baseY := minY e * frameHeight in
  let width := (boxMaxX - boxMinX) * frameWidth in
  let height := (maxY e - minY e) * frameHeight in
  mkFaceBox baseX baseY width height.

(** The padding step: the [return] of [computeFaceBox]. *)
Definition padBox (base : FaceBox num) (padX padY yShift : num) : FaceBox num :=
  let padXSize := fb_width base * padX in
  let padYSize := fb_height base * padY in
  mkFaceBox (fb_x base - padXSize * lit 0.5)
            (fb_y base - padYSize * yShift)
            (fb_width base + padXSize)
            (fb_height base + padYSize).

Definition computeFaceBox (landmarks : list (Landmark num))
    (frameWidth frameHeight padX padY yShift : num) (mirrorX : bool)
    : FaceBox num :=
  padBox (baseBox landmarks frameWidth frameHeight mirrorX) padX padY yShift.
End Face.

(** ** components/CameraProcessor.tsx: the detector's result and
       [buildFaceSnapshot] *)

Section Snapshot.
Context {num : Type}.

(** A landmark as the detector returns it. *)
Record NormalizedLandmark := mkNormalizedLandmark {
  nl_x : num;
  nl_y : num;
  nl_z : num;
}.

Record Category := mkCategory {
  categoryName : string;
  cat_score : num;
}.

Record Classifications := mkClassifications {
  categories : option (list Category);
}.

(** The shapes [facialTransformationMatrixes[0]] is tested for: a flat
    array, an object with a [data] property, anything else. *)
Inductive RawMatrix :=
| RawArray (elements : list num)
| RawWrapper (data : option (list num))
| RawOther.

Record FaceLandmarkerResult := mkFaceLandmarkerResult {
  faceLandmarks : option (list (list NormalizedLandmark));
  faceBlendshapes : option (list Classifications);
  facialTransformationMatrixes : option (list RawMatrix);
}.

Definition rawDataOf (rawMatrix : option RawMatrix) : option (list num) :=
  match rawMatrix with
  | Some (RawArray a) => Some a
  | Some (RawWrapper d) => d
  | Some RawOther => None
  | None => None
  end.

(** [result.facialTransformationMatrixes?.[0]] *)
Definition firstRawMatrix (result : FaceLandmarkerResult)
    : option RawMatrix :=
  match facialTransformationMatrixes result with
  | Some ms => head ms
  | None => None
  end.

(** [result.faceBlendshapes?.[0]?.categories] *)
Definition firstCategories (result : FaceLandmarkerResult)
    : option (list Category) :=
  match faceBlendshapes result with
  | Some (c0 :: _) => categories c0
  | _ => None
  end.

Definition buildFaceSnapshot (result : FaceLandmarkerResult) (timestamp : num)
    : option (FaceSnapshot num) :=
  match faceLandmarks result with
  | None => None
  | Some [] => None
  | Some (face0 :: _) =>
      let landmarks :=
        map (fun landmark =>
               mkLandmark (nl_x landmark) (nl_y landmark) (Some (nl_z landmark)))
            face0 in
      let rawMatrix := firstRawMatrix result in
      let rawData := rawDataOf rawMatrix in
      let matrix :=
        match rawData with
        | Some d => if (16 <=? length d)%nat then Some (take 16 d) else None
        | None => None
        end in
      let blendshapes :=
        option_map
          (map (fun category =>
                  mkBlendshape (categoryName category) (cat_score category)))
          (firstCategories result) in
      Some (mkFaceSnapshot landmarks matrix blendshapes timestamp)
  end.
End Snapshot.

Arguments NormalizedLandmark : clear implicits.
Arguments Category : clear implicits.
Arguments Classifications : clear implicits.
Arguments RawMatrix : clear implicits.
Arguments FaceLandmarkerResult : clear implicits.

(** ** components/CameraProcessor.tsx: [renderLoop] *)

Section RenderLoop.
Context {num : Type} `{Number num}.
Local Open Scope js_scope.

(** The feature flags the effect closes over. *)
Record Flags := mkFlags {
  enableFaceSwap : bool;
  enable3DAvatar : bool;
  enableBackgroundReplace : bool;
}.

(** The refs the loop reads and writes, with the canvas size. *)
Record LoopState := mkLoopState {
  faceSnapshotRef : option (FaceSnapshot num);
  lastFaceResultTimeRef : num;
  lastVideoTimeRef : num;
  frameSizeRef : FrameSize num;
  canvasSize : FrameSize num;
}.

(** What one animation frame observes.  [ready] is the outer guard
    (video and canvas mounted, [readyState >= 2], initialisation over
    without error, 2D context obtained); [detectFace] is what the
    detection service returns for this frame. *)
Record Tick := mkTick {
  ready : bool;
  videoWidth : num;
  videoHeight : num;
  currentTime : num;
  now : num;
  detectFace : option (FaceLandmarkerResult num);
}.

(** How [drawComposition] is reached at the end of a processed frame. *)
Inductive DrawRequest :=
| ViaSegmenter (activeSnapshot : option (FaceSnapshot num))
| Direct (activeSnapshot : option (FaceSnapshot num)).

Definition faceHoldMs : num := lit 600.

Definition initialLoopState : LoopState :=
  mkLoopState None (lit 0) (lit (-1)) (mkFrameSize (lit 0) (lit 0))
              (mkFrameSize (lit 0) (lit 0)).

(** Lines 359-369: the hold policy, on the snapshot built for the frame. *)
Definition holdStep (fl : Flags) (startTimeMs : num)
    (snapshot : option (FaceSnapshot num))
    (cur : option (FaceSnapshot num)) (lastTime : num)
    : option (FaceSnapshot num) * num :=
  match snapshot with
  | Some s => (Some s, startTimeMs)
  | None =>
      if bool_decide (is_Some cur)
         && negb (enable3DAvatar fl)
         && (startTimeMs - lastTime >? faceHoldMs)
      then (None, lastTime)
      else (cur, lastTime)
  end.

(** Lines 355-359: the snapshot a processed frame yields, if any. *)
Definition frameSnapshot (fl : Flags) (t : Tick) : option (FaceSnapshot num) :=
  let startTimeMs := now t in
  let faceResult :=
    if enableFaceSwap fl || enable3DAvatar fl then detectFace t else None in
  match faceResult with
  | Some r => buildFaceSnapshot r startTimeMs
  | None => None
  end.

Definition renderLoop (fl : Flags) (st : LoopState) (t : Tick)
    : LoopState * option DrawRequest :=
  if ready t then
    let resize :=
      (lit 0 <? videoWidth t) && (lit 0 <? videoHeight t)
      && (negb (eqb (fs_width (canvasSize st)) (videoWidth t))
          || negb (eqb (fs_height (canvasSize st)) (videoHeight t))) in
    let canvas :=
      if resize then mkFrameSize (videoWidth t) (videoHeight t)
      else canvasSize st in
    if negb (eqb (currentTime t) (lastVideoTimeRef st)) then
      let startTimeMs := now t in
      let snapshot := frameSnapshot fl t in
      let '(cur, lastTime) :=
        holdStep fl startTimeMs snapshot
                 (faceSnapshotRef st) (lastFaceResultTimeRef st) in
      let activeSnapshot := cur in
      (mkLoopState cur lastTime (currentTime t) canvas canvas,
       Some (if enableBackgroundReplace fl
             then ViaSegmenter activeSnapshot
             else Direct activeSnapshot))
    else
      (mkLoopState (faceSnapshotRef st) (lastFaceResultTimeRef st)
                   (lastVideoTimeRef st) canvas canvas,
       None)
  else (st, None).

(** The loop over a run of animation frames. *)
Definition runLoop (fl : Flags) (st : LoopState) (ts : list Tick) : LoopState :=
  fold_left (fun s t => fst (renderLoop fl s t)) ts st.

(** Every tick of the run is a processed frame: the outer guard holds and
    the video time has advanced since the previous one. *)
Fixpoint allProcessed (lastVideoTime : num) (ts : list Tick) : bool :=
  match ts with
  | [] => true
  | t :: rest =>
      ready t && negb (eqb (currentTime t) lastVideoTime)
      && allProcessed (currentTime t) rest
  end.
End RenderLoop.

Arguments LoopState : clear implicits.
Arguments Tick : clear implicits.
Arguments DrawRequest : clear implicits.

(** ** components/CameraProcessor.tsx: [drawComposition]

    A 2D context is modelled by the sequence of calls made on it; what is
    on a canvas is a function of that sequence. *)

Section Compositor.
Context {num : Type} `{Number num}.
Local Open Scope js_scope.

(** What [drawImage] can be handed. *)
Inductive ImageSource :=
| SrcVideo
| SrcImage (handle : nat)
| SrcMaskCanvas
| SrcPersonCanvas.

Inductive CtxOp :=
| Save
| Restore
| ClearRect (x y w h : num)
| Scale (sx sy : num)
| Translate (tx ty : num)
| SetFilter (f : string)
| SetGlobalCompositeOperation (op : string)
| DrawImage (src : ImageSource) (x y w h : num)
| PutImageData (data : list num) (w h : nat) (x y : num)
| SetFillStyle (c : string)
| BeginPath
| Arc (x y r a0 a1 : num)
| Fill.

(** An offscreen canvas: its size and the calls made on its context. *)
Record Offscreen := mkOffscreen {
  oc_width : num;
  oc_height : num;
  oc_ops : list CtxOp;
}.

Record Mask := mkMask {
  mask_width : nat;
  mask_height : nat;
  getAsFloat32Array : list num;
  getAsUint8Array : list num;
}.

Record ImageSegmenterResult := mkImageSegmenterResult {
  confidenceMasks : option (list Mask);
  categoryMask : option Mask;
}.

(** The state and props the callback closes over, and whether a 2D
    context can be obtained for each offscreen canvas. *)
Record CompositorProps := mkCompositorProps {
  cp_enableBackgroundReplace : bool;
  cp_enableFaceSwap : bool;
  mirrorCamera : bool;
  backgroundImage : option nat;
  faceOverlayImage : option nat;
  maskCtxAvailable : bool;
  personCtxAvailable : bool;
}.

Record CompositorState := mkCompositorState {
  ctx_ops : list CtxOp;
  maskCanvasRef : option Offscreen;
  personCanvasRef : option Offscreen;
  faceBoxRef : option (FaceBox num);
  closedSegmentations : nat;
}.

Definition ensureCanvas (ref : option Offscreen) (width height : num) : Offscreen :=
  let c := match ref with
           | Some c => c
           | None => mkOffscreen (lit 300) (lit 150) []
           end in
  if negb (eqb (oc_width c) width) || negb (eqb (oc_height c) height)
  then mkOffscreen width height []
  else c.

Definition ofNat (n : nat) : num := lit (inject_Z (Z.of_nat n)).

(** The mask the background branch selects, and whether it is a
    confidence mask; [None] when the branch condition is false. *)
Definition selectMask (segmentation : option ImageSegmenterResult)
    : option (Mask * bool) :=
  match segmentation with
  | None => None
  | Some sg =>
      match confidenceMasks sg with
      | Some (m :: _) => Some (m, true)
      | _ =>
          match categoryMask sg with
          | Some m => Some (m, false)
          | None => None
          end
      end
  end.

Definition maskAlpha (isConfidenceMask : bool) (value : num) : num :=
  if isConfidenceMask
  then Math_round (Math_min (lit 1) (Math_max (lit 0) value) * lit 255)
  else if value >? lit 0 then lit 255 else lit 0.

(** The pixel loop: four writes per mask value into the image data. *)
Fixpoint fillMask (isConfidenceMask : bool) (maskData : list num) (i : nat)
    (data : list num) : list num :=
  match maskData with
  | [] => data
  | value :: rest =>
      let idx := (i * 4)%nat in
      let data := <[idx := lit 255]> data in
      let data := <[(idx + 1)%nat := lit 255]> data in
      let data := <[(idx + 2)%nat := lit 255]> data in
      let data := <[(idx + 3)%nat := maskAlpha isConfidenceMask value]> data in
      fillMask isConfidenceMask rest (S i) data
  end.

Definition drawLandmark (cw ch : num) (landmark : Landmark num) : list CtxOp :=
  [BeginPath;
   Arc (lm_x landmark * cw) (lm_y landmark * ch) (lit 1.5) (lit 0)
       (lit 2 * lit 3.141592653589793);
   Fill].

Definition drawComposition (pr : CompositorProps) (st : CompositorState)
    (canvas : FrameSize num)
    (segmentation : option ImageSegmenterResult)
    (snapshot : option (FaceSnapshot num)) : CompositorState :=
  let cw := fs_width canvas in
  let ch := fs_height canvas in
  let video := DrawImage SrcVideo (lit 0) (lit 0) cw ch in
  let opening :=
    [Save; ClearRect (lit 0) (lit 0) cw ch]
    ++ (if mirrorCamera pr
        then [Scale (lit (-1)) (lit 1); Translate (neg cw) (lit 0)]
        else []) in
  (* --- Background Layer --- *)
  let '(background, maskRef, personRef, closed) :=
    match (if cp_enableBackgroundReplace pr then selectMask segmentation else None) with
    | Some (mask, isConfidenceMask) =>
        let maskCanvas :=
          ensureCanvas (maskCanvasRef st)
                       (ofNat (mask_width mask)) (ofNat (mask_height mask)) in
        let personCanvas := ensureCanvas (personCanvasRef st) cw ch in
        if maskCtxAvailable pr && personCtxAvailable pr then
          let maskData :=
            if isConfidenceMask then getAsFloat32Array mask
            else getAsUint8Array mask in
          let blank :=
            replicate (mask_width mask * mask_height mask * 4) (lit 0) in
          let data := fillMask isConfidenceMask maskData 0 blank in
          let maskCanvas' :=
            mkOffscreen (oc_width maskCanvas) (oc_height maskCanvas)
              (oc_ops maskCanvas
               ++ [PutImageData data (mask_width mask) (mask_height mask)
                                (lit 0) (lit 0)]) in
          let backdrop :=
            match backgroundImage pr with
            | Some img => [DrawImage (SrcImage img) (lit 0) (lit 0) cw ch]
            | None => [Save; SetFilter "blur(12px)"; video; Restore]
            end in
          let personCanvas' :=
            mkOffscreen (oc_width personCanvas) (oc_height personCanvas)
              (oc_ops personCanvas
               ++ [ClearRect (lit 0) (lit 0)
                             (oc_width personCanvas) (oc_height personCanvas);
                   DrawImage SrcVideo (lit 0) (lit 0)
                             (oc_width personCanvas) (oc_height personCanvas);
                   SetGlobalCompositeOperation "destination-in";
                   DrawImage SrcMaskCanvas (lit 0) (lit 0)
                             (oc_width personCanvas) (oc_height personCanvas);
                   SetGlobalCompositeOperation "source-over"]) in
          (backdrop ++ [DrawImage SrcPersonCanvas (lit 0) (lit 0) cw ch],
           Some maskCanvas', Some personCanvas',
           S (closedSegmentations st))
        else
          ([video], Some maskCanvas, Some personCanvas,
           S (closedSegmentations st))
    | None =>
        ([video], maskCanvasRef st, personCanvasRef st, closedSegmentations st)
    end in
  (* --- Face Layer --- *)
  let faceBox :=
    match snapshot with
    | Some s =>
        if (0 <? length (landmarks s))%nat
        then Some (computeFaceBox (landmarks s) cw ch
                                  (lit 0.2) (lit 0.4) (lit 0.3) (mirrorCamera pr))
        else None
    | None => None
    end in
  let face :=
    match faceBox with
    | Some fb =>
        if cp_enableFaceSwap pr then
          match faceOverlayImage pr, snapshot with
          | Some img, _ =>
              [DrawImage (SrcImage img) (fb_x fb) (fb_y fb)
                         (fb_width fb) (fb_height fb)]
          | None, Some s =>
              SetFillStyle "rgba(0, 255, 0, 0.5)"
              :: flat_map (drawLandmark cw ch) (landmarks s)
          | None, None => []
          end
        else []
    | None => []
    end in
  mkCompositorState
    (ctx_ops st ++ opening ++ background ++ face ++ [Restore])
    maskRef personRef faceBox closed.

(** The calls of one frame around a body: save and clear, the mirror
    transform when set, the body, restore. *)
Definition framed (mirror : bool) (canvas : FrameSize num) (body : list CtxOp)
    : list CtxOp :=
  let cw := fs_width canvas in
  let ch := fs_height canvas in
  [Save; ClearRect (lit 0) (lit 0) cw ch]
  ++ (if mirror
      then [Scale (lit (-1)) (lit 1); Translate (neg cw) (lit 0)]
      else [])
  ++ body ++ [Restore].

(** A single direct draw of the video frame onto the canvas. *)
Definition directDraw (mirror : bool) (canvas : FrameSize num) : list CtxOp :=
  framed mirror canvas
    [DrawImage SrcVideo (lit 0) (lit 0) (fs_width canvas) (fs_height canvas)].

(** The calls the face layer makes: an overlay image, or the landmark
    markers. *)
Definition isOverlayOp (op : CtxOp) : bool :=
  match op with
  | DrawImage (SrcImage _) _ _ _ _ => true
  | SetFillStyle _ | BeginPath | Arc _ _ _ _ _ | Fill => true
  | _ => false
  end.
End Compositor.

Arguments CtxOp : clear implicits.
Arguments Offscreen : clear implicits.
Arguments Mask : clear implicits.
Arguments ImageSegmenterResult : clear implicits.
Arguments CompositorState : clear implicits.

(** ** components/AvatarOverlay.tsx: the [useFrame] callback of
       [AvatarModel] *)

Section Three.
Context {num : Type}.

Record Vector3 := mkVector3 {
  v_x : num;
  v_y : num;
  v_z : num;
}.

Record Quaternion := mkQuaternion {
  q_x : num;
  q_y : num;
  q_z : num;
  q_w : num;
}.
End Three.

Arguments Vector3 : clear implicits.
Arguments Quaternion : clear implicits.

(** The functions of the runtime and of the 3D library the callback calls
    and whose code is outside the repository.  A 4x4 matrix is its array of
    16 elements. *)
Class Runtime (num : Type) := {
  Math_exp : num -> num;
  Matrix4_extractRotation : list num -> list num;
  Matrix4_multiply : list num -> list num -> list num;   (* a.multiply(b) *)
  Matrix4_makeScale : num -> num -> num -> list num;
  Quaternion_setFromRotationMatrix : list num -> Quaternion num;
  Quaternion_slerp : Quaternion num -> Quaternion num -> num -> Quaternion num;
}.

Section Avatar.
Context {num : Type} `{Number num} `{Runtime num}.
Local Open Scope js_scope.

(** Modelled from the spec: the library's linear interpolation ("simple
    linear interpolation ... toward the latest target value"), of which the
    source of [THREE.MathUtils.lerp] and [Vector3.lerp] is not in the
    repository. *)
Definition lerp (x y t : num) : num := x + (y - x) * t.

(** Modelled from the spec: [THREE.MathUtils.damp], the "exponential
    approach toward target scale" with rate factor [1 - e^(-k dt)]. *)
Definition damp (x y lambda dt : num) : num :=
  lerp x y (lit 1 - Math_exp (neg lambda * dt)).

Definition Vector3_lerp (a v : Vector3 num) (alpha : num) : Vector3 num :=
  mkVector3 (lerp (v_x a) (v_x v) alpha)
            (lerp (v_y a) (v_y v) alpha)
            (lerp (v_z a) (v_z v) alpha).

Record Group := mkGroup {
  visible : bool;
  position : Vector3 num;
  scale : num;                       (* set by [setScalar] *)
  quaternion : Quaternion num;
}.

Record Mesh := mkMesh {
  morphTargetDictionary : option (gmap string nat);
  morphTargetInfluences : option (gmap nat num);
}.

(** The refs of the component. *)
Record AvatarState := mkAvatarState {
  groupRef : option Group;
  morphTargetMeshRef : option Mesh;
  targetQuatRef : Quaternion num;
  smoothQuatRef : Quaternion num;
  hasRotationRef : bool;
  blendshapeStateRef : gmap string num;
  lastFaceBoxRef : option (FaceBox num);
  lastFaceBoxTimeRef : num;
  smoothPositionRef : Vector3 num;
  smoothScaleRef : num;
  hasPositionRef : bool;
}.

(** Props, the renderer's canvas size, and what one render tick reads. *)
Record AvatarInput := mkAvatarInput {
  headScale : num;
  mirror : bool;
  enabled : bool;
  size : FrameSize num;
  delta : num;
  av_now : num;
  frame : FrameSize num;               (* frameSizeRef.current *)
  av_snapshot : option (FaceSnapshot num);  (* snapshotRef.current *)
}.

Definition rotationSmoothing : num := lit 12.
Definition positionSmoothing : num := lit 12.
Definition scaleSmoothing : num := lit 10.
Definition blendshapeSmoothing : num := lit 0.25.
Definition eyeLookSmoothing : num := lit 0.15.
Definition eyeLookScale : num := lit 0.4.
Definition faceBoxHoldMs : num := lit 1500.
Definition avatarPadX : num := lit 0.28.
Definition avatarPadY : num := lit 0.55.
Definition avatarShiftY : num := lit 0.45.
Definition avatarOffsetY : num := lit 0.08.

Definition hide (g : option Group) : option Group :=
  match g with
  | Some g => Some (mkGroup false (position g) (scale g) (quaternion g))
  | None => None
  end.

Definition withGroup (st : AvatarState) (g : option Group) : AvatarState :=
  mkAvatarState g (morphTargetMeshRef st) (targetQuatRef st)
    (smoothQuatRef st) (hasRotationRef st) (blendshapeStateRef st)
    (lastFaceBoxRef st) (lastFaceBoxTimeRef st) (smoothPositionRef st)
    (smoothScaleRef st) (hasPositionRef st).

(** Lines 147-158: the box of this frame, if the snapshot gives one. *)
Definition latestFaceBoxOf (inp : AvatarInput) : option (FaceBox num) :=
  match av_snapshot inp with
  | Some snapshot =>
      if (0 <? length (landmarks snapshot))%nat
         && truthy (fs_width (frame inp)) && truthy (fs_height (frame inp))
      then Some (computeFaceBox (landmarks snapshot)
                   (fs_width (frame inp)) (fs_height (frame inp))
                   avatarPadX avatarPadY avatarShiftY (mirror inp))
      else None
  | None => None
  end.

(** Lines 163-167: this frame's box, or the last known one while held. *)
Definition heldFaceBox (latestFaceBox : option (FaceBox num))
    (lastFaceBox : option (FaceBox num)) (lastFaceBoxTime now : num)
    : option (FaceBox num) :=
  match latestFaceBox with
  | Some b => Some b
  | None =>
      match lastFaceBox with
      | Some b => if now - lastFaceBoxTime <? faceBoxHoldMs then Some b else None
      | None => None
      end
  end.

(** Lines 195-206. *)
Definition hasValidMatrixOf (matrixData : option (list num)) : bool :=
  match matrixData with
  | Some md => (16 <=? length md)%nat && forallb isFinite (take 16 md)
  | None => false
  end.

(** Lines 208-218: the target orientation of a valid matrix. *)
Definition targetQuatOf (matrixData : list num) (mirror : bool) : Quaternion num :=
  let mpMatrix := take 16 matrixData in
  let rotationMatrix := Matrix4_extractRotation mpMatrix in
  let rotationMatrix :=
    if mirror then
      let mirrorMatrix := Matrix4_makeScale (lit (-1)) (lit 1) (lit 1) in
      Matrix4_multiply (Matrix4_multiply mirrorMatrix rotationMatrix) mirrorMatrix
    else rotationMatrix in
  Quaternion_setFromRotationMatrix rotationMatrix.

(** Lines 239-248: the body of [shapes.forEach], on the blendshape state
    and the influences of the mesh. *)
Definition applyShape (dict : option (gmap string nat))
    (acc : gmap string num * option (gmap nat num)) (shape : Blendshape num)
    : gmap string num * option (gmap nat num) :=
  let '(state, influences) := acc in
  match (match dict with Some d => d !! bs_name shape | None => None end),
        influences with
  | Some index, Some infl =>
      let isEyeLook := String.prefix "eyeLook" (bs_name shape) in
      let smooth := if isEyeLook then eyeLookSmoothing else blendshapeSmoothing in
      let target :=
        if isEyeLook then bs_score shape * eyeLookScale else bs_score shape in
      let prev := default (lit 0) (state !! bs_name shape) in
      let next := lerp prev target smooth in
      (<[bs_name shape := next]> state,
       Some (<[index := Math_min (lit 1) (Math_max (lit 0) next)]> infl))
  | _, _ => acc
  end.

Definition applyBlendshapes (dict : option (gmap string nat))
    (shapes : list (Blendshape num))
    (acc : gmap string num * option (gmap nat num))
    : gmap string num * option (gmap nat num) :=
  fold_left (applyShape dict) shapes acc.

(** Lines 173-182: the target position and scale for the box in use. *)
Definition targetPlacement (inp : AvatarInput) (faceBox : FaceBox num)
    : Vector3 num * num :=
  let frame := frame inp in
  let scaleX := fs_width (size inp) / fs_width frame in
  let scaleY := fs_height (size inp) / fs_height frame in
  let boxCenterX := (fb_x faceBox + fb_width faceBox * lit 0.5) * scaleX in
  let boxCenterY := (fb_y faceBox + fb_height faceBox * lit 0.5) * scaleY in
  let posX := boxCenterX - fs_width (size inp) * lit 0.5 in
  let posY := fs_height (size inp) * lit 0.5 - boxCenterY
              + fb_height faceBox * scaleY * avatarOffsetY in
  let boxScale :=
    Math_max (fb_width faceBox * scaleX) (fb_height faceBox * scaleY)
    * headScale inp in
  (mkVector3 posX posY (lit 0), boxScale).

(** Lines 183-191: the smoothed position and scale. *)
Definition smoothPlacement (st : AvatarState) (inp : AvatarInput)
    (faceBox : FaceBox num) : Vector3 num * num :=
  let '(targetPos, boxScale) := targetPlacement inp faceBox in
  if negb (hasPositionRef st) then (targetPos, boxScale)
  else
    let alpha := lit 1 - Math_exp (neg positionSmoothing * delta inp) in
    (Vector3_lerp (smoothPositionRef st) targetPos alpha,
     damp (smoothScaleRef st) boxScale scaleSmoothing (delta inp)).

(** Lines 195-228: the rotation refs and the quaternion of the group after
    the frame: target, smoothed, [hasRotationRef], group quaternion. *)
Definition smoothRotation (st : AvatarState) (inp : AvatarInput)
    (groupQuat : Quaternion num)
    : Quaternion num * Quaternion num * bool * Quaternion num :=
  let matrixData :=
    match av_snapshot inp with Some s => matrix s | None => None end in
  let hasValidMatrix := hasValidMatrixOf matrixData in
  match hasValidMatrix, matrixData with
  | true, Some md =>
      let targetQuat := targetQuatOf md (mirror inp) in
      let smoothQuat :=
        if negb (hasRotationRef st) then targetQuat
        else
          let alpha := lit 1 - Math_exp (neg rotationSmoothing * delta inp) in
          Quaternion_slerp (smoothQuatRef st) targetQuat alpha in
      (targetQuat, smoothQuat, true, smoothQuat)
  | _, _ =>
      (targetQuatRef st, smoothQuatRef st, hasRotationRef st, groupQuat)
  end.

(** Lines 230-250: the blendshape state and the mesh after the frame. *)
Definition smoothBlendshapes (st : AvatarState) (inp : AvatarInput)
    : gmap string num * option Mesh :=
  match (match av_snapshot inp with Some s => blendshapes s | None => None end),
        morphTargetMeshRef st with
  | Some (shape0 :: shapes'), Some mesh =>
      let '(state, influences) :=
        applyBlendshapes (morphTargetDictionary mesh) (shape0 :: shapes')
          (blendshapeStateRef st, morphTargetInfluences mesh) in
      (state, Some (mkMesh (morphTargetDictionary mesh) influences))
  | _, m => (blendshapeStateRef st, m)
  end.

Definition useFrame (st : AvatarState) (inp : AvatarInput) : AvatarState :=
  if negb (enabled inp) then withGroup st (hide (groupRef st))
  else
    let now := av_now inp in
    let frame := frame inp in
    let latestFaceBox := latestFaceBoxOf inp in
    let lastFaceBox :=
      match latestFaceBox with Some b => Some b | None => lastFaceBoxRef st end in
    let lastFaceBoxTime :=
      match latestFaceBox with Some _ => now | None => lastFaceBoxTimeRef st end in
    let faceBox := heldFaceBox latestFaceBox lastFaceBox lastFaceBoxTime now in
    match groupRef st, faceBox,
          truthy (fs_width frame) && truthy (fs_height frame) with
    | Some group, Some faceBox, true =>
        let placement := smoothPlacement st inp faceBox in
        let rotation := smoothRotation st inp (quaternion group) in
        let blend := smoothBlendshapes st inp in
        mkAvatarState
          (Some (mkGroup true (fst placement) (snd placement) (snd rotation)))
          (snd blend)
          (fst (fst (fst rotation))) (snd (fst (fst rotation)))
          (snd (fst rotation)) (fst blend)
          lastFaceBox lastFaceBoxTime (fst placement) (snd placement) true
    | g, _, _ =>
        mkAvatarState (hide g) (morphTargetMeshRef st) (targetQuatRef st)
          (smoothQuatRef st) (hasRotationRef st) (blendshapeStateRef st)
          lastFaceBox lastFaceBoxTime (smoothPositionRef st)
          (smoothScaleRef st) (hasPositionRef st)
    end.

(** The callback over a run of render ticks. *)
Definition runFrames (st : AvatarState) (inps : list AvatarInput) : AvatarState :=
  fold_left useFrame inps st.
End Avatar.

Arguments Group : clear implicits.
Arguments Mesh : clear implicits.
Arguments AvatarState : clear implicits.
Arguments AvatarInput : clear implicits.

(** ** components/CameraProcessor.tsx: the avatar reads the loop's refs *)

Section Wiring.
Context {num : Type} `{Number num}.

(** Lines 506-513: what a frame of the avatar reads.  The snapshot and the
    frame size are the refs of the render loop, [enabled] is the avatar flag,
    head scale and mirror are the settings; the size of the avatar canvas,
    the step and the time come from the renderer and the clock. *)
Definition avatarInputOf (fl : Flags) (st : LoopState num) (headScale : num)
    (mirrored : bool) (size : FrameSize num) (delta now : num)
    : AvatarInput num :=
  mkAvatarInput headScale mirrored (enable3DAvatar fl) size delta now
                (frameSizeRef st) (faceSnapshotRef st).
End Wiring.

(** ** components/CameraProcessor.tsx: the visibility handler *)

Section Visibility.
Context {num : Type} `{Number num}.

(** [handleVisible], on the refs of the loop: when the document is visible
    the last video time is reset (the video, if paused, is asked to play). *)
Definition handleVisible (visible : bool) (st : LoopState num) : LoopState num :=
  if visible
  then mkLoopState (faceSnapshotRef st) (lastFaceResultTimeRef st) (lit (-1))
                   (frameSizeRef st) (canvasSize st)
  else st.
End Visibility.

(** ** components/AvatarOverlay.tsx: [AvatarOverlay] *)

Section Overlay.
Context {num : Type} `{Number num}.

(** The device pixel ratio handed to the canvas. *)
Definition dpr (renderQuality : num) : num :=
  Math_min (lit 1.5) (Math_max (lit 0.8) renderQuality).

(** The frustum [CameraSync] gives the orthographic camera of the canvas. *)
Record OrthographicCamera := mkOrthographicCamera {
  cam_left : num;
  cam_right : num;
  cam_top : num;
  cam_bottom : num;
  cam_near : num;
  cam_far : num;
}.

Definition CameraSync (size : FrameSize num) : OrthographicCamera :=
  mkOrthographicCamera
    (neg (fs_width size) / lit 2)%js (fs_width size / lit 2)%js
    (fs_height size / lit 2)%js (neg (fs_height size) / lit 2)%js
    (neg (lit 1000)) (lit 1000).
End Overlay.

Arguments OrthographicCamera : clear implicits.

(** ** services/MediaPipeService.ts *)

Section MediaPipe.

Inductive Delegate := CPU | GPU.

(** What [window.localStorage.getItem("renderMode")] does: throw, or
    return a string or null. *)
Inductive StorageRead :=
| ReadThrows
| ReadValue (stored : option string).

(** What [getDelegateOrder] looks at in a window: the Electron version
    string of [window.process], if there is one, and the storage. *)
Record WindowEnv := mkWindowEnv {
  electronVersion : option string;
  localStorage : StorageRead;
}.

(** [window] is [None] where there is no window object. *)
Definition getDelegateOrder (window : option WindowEnv) : list Delegate :=
  let isElectron :=
    match window with
    | Some w =>
        match electronVersion w with
        | Some version => negb (String.eqb version "")
        | None => false
        end
    | None => false
    end in
  let renderMode : option string :=
    match window with
    | Some w =>
        match localStorage w with
        | ReadValue (Some stored) =>
            if String.eqb stored "cpu" || String.eqb stored "gpu"
            then Some stored else None
        | ReadValue None => None
        | ReadThrows => None
        end
    | None => None
    end in
  if isElectron then
    match renderMode with
    | Some mode => if String.eqb mode "gpu" then [GPU; CPU] else [CPU]
    | None => [CPU]
    end
  else [GPU; CPU].

Context {T E : Type}.

(** The loop of [createWithDelegates]: the value of the first delegate
    whose creation succeeds, or the last error thrown ([None] for
    [undefined], when there was no delegate to try); with it, the delegates
    a warning was logged for. *)
Fixpoint tryDelegates (createFn : Delegate -> T + E) (delegates : list Delegate)
    (lastError : option E) : (T + option E) * list Delegate :=
  match delegates with
  | [] => (inr lastError, [])
  | delegate :: rest =>
      match createFn delegate with
      | inl created => (inl created, [])
      | inr error =>
          let '(result, warned) := tryDelegates createFn rest (Some error) in
          (result, delegate :: warned)
      end
  end.

Definition createWithDelegates (createFn : Delegate -> T + E)
    (delegates : list Delegate) : (T + option E) * list Delegate :=
  tryDelegates createFn delegates None.
End MediaPipe.

Section MediaPipeInitialize.
Context {Vision FaceLandmarker ImageSegmenter E : Type}.

(** The fields of the service. *)
Record MediaPipeService := mkMediaPipeService {
  faceLandmarker : option FaceLandmarker;
  imageSegmenter : option ImageSegmenter;
  isInitializing : bool;
}.

(** [initialize], run to its end: the service after it, and [None] when
    the promise resolves, [Some error] when it rejects.  [forVisionTasks] is
    the outcome of resolving the fileset, the two [create] functions those of
    creating a task with a delegate. *)
Definition initialize (window : option WindowEnv)
    (forVisionTasks : Vision + E)
    (createFaceLandmarker : Vision -> Delegate -> FaceLandmarker + E)
    (createImageSegmenter : Vision -> Delegate -> ImageSegmenter + E)
    (this : MediaPipeService) : MediaPipeService * option (option E) :=
  match faceLandmarker this, imageSegmenter this with
  | Some _, Some _ => (this, None)
  | _, _ =>
      if isInitializing this then (this, None)
      else
        match forVisionTasks with
        | inr error =>
            (mkMediaPipeService (faceLandmarker this) (imageSegmenter this) false,
             Some (Some error))
        | inl vision =>
            let delegates := getDelegateOrder window in
            match fst (createWithDelegates (createFaceLandmarker vision) delegates) with
            | inr error =>
                (mkMediaPipeService (faceLandmarker this) (imageSegmenter this) false,
                 Some error)
            | inl landmarker =>
                match fst (createWithDelegates (createImageSegmenter vision)
                                               delegates) with
                | inr error =>
                    (mkMediaPipeService (Some landmarker) (imageSegmenter this) false,
                     Some error)
                | inl segmenter =>
                    (mkMediaPipeService (Some landmarker) (Some segmenter) false,
                     None)
                end
            end
        end
  end.

(** The service's [detectFace]: null without a face landmarker. *)
Definition service_detectFace {Result : Type} (this : MediaPipeService)
    (detectForVideo : FaceLandmarker -> Result) : option Result :=
  match faceLandmarker this with
  | None => None
  | Some landmarker => Some (detectForVideo landmarker)
  end.
End MediaPipeInitialize.

Arguments MediaPipeService : clear implicits.

(** ** electron/main.ts: settings, fallback, start-up switches *)

Section ElectronMain.

Inductive RenderMode := cpu | gpu.
Inductive GpuBackend := d3d11 | d3d9 | opengl | vulkan | desktop.

(** A value as a setting can come in, from the settings file or over IPC:
    a string, a boolean, or anything else (a missing property included). *)
Inductive JsValue :=
| JsString (s : string)
| JsBoolean (b : bool)
| JsOther.

Record MainSettings := mkMainSettings {
  renderMode : RenderMode;
  allowGpuFallback : bool;
  gpuBackend : GpuBackend;
  ignoreGpuBlocklist : bool;
  disableGpuSandbox : bool;
}.

(** The object parsed from [settings.json]. *)
Record SettingsFile := mkSettingsFile {
  file_renderMode : JsValue;
  file_allowGpuFallback : JsValue;
  file_gpuBackend : JsValue;
  file_ignoreGpuBlocklist : JsValue;
  file_disableGpuSandbox : JsValue;
}.

Definition defaultSettings : MainSettings :=
  mkMainSettings gpu true d3d11 false false.

Definition parseRenderMode (v : JsValue) : option RenderMode :=
  match v with
  | JsString s =>
      if String.eqb s "gpu" then Some gpu
      else if String.eqb s "cpu" then Some cpu
      else None
  | _ => None
  end.

Definition parseGpuBackend (v : JsValue) : option GpuBackend :=
  match v with
  | JsString s =>
      if String.eqb s "d3d11" then Some d3d11
      else if String.eqb s "d3d9" then Some d3d9
      else if String.eqb s "opengl" then Some opengl
      else if String.eqb s "vulkan" then Some vulkan
      else if String.eqb s "desktop" then Some desktop
      else None
  | _ => None
  end.

Definition parseBoolean (v : JsValue) : option bool :=
  match v with
  | JsBoolean b => Some b
  | _ => None
  end.

(** The start-up block that reads the settings; [file] is [None] when
    reading or parsing the file throws.  A property that is missing or of
    another type is [JsOther]. *)
Definition loadSettings (file : option SettingsFile) : MainSettings :=
  match file with
  | None => defaultSettings
  | Some parsed =>
      mkMainSettings
        (default (renderMode defaultSettings)
                 (parseRenderMode (file_renderMode parsed)))
        (default (allowGpuFallback defaultSettings)
                 (parseBoolean (file_allowGpuFallback parsed)))
        (default (gpuBackend defaultSettings)
                 (parseGpuBackend (file_gpuBackend parsed)))
        (default (ignoreGpuBlocklist defaultSettings)
                 (parseBoolean (file_ignoreGpuBlocklist parsed)))
        (default (disableGpuSandbox defaultSettings)
                 (parseBoolean (file_disableGpuSandbox parsed)))
  end.

Definition renderModeName (m : RenderMode) : string :=
  match m with cpu => "cpu" | gpu => "gpu" end.

Definition gpuBackendName (b : GpuBackend) : string :=
  match b with
  | d3d11 => "d3d11" | d3d9 => "d3d9" | opengl => "opengl"
  | vulkan => "vulkan" | desktop => "desktop"
  end.

(** [persistRenderMode]: the file after it; a failed write is logged and
    leaves the file as it was. *)
Definition persistRenderMode (s : MainSettings) (writeSucceeds : bool)
    (file : option SettingsFile) : option SettingsFile :=
  if writeSucceeds then
    Some (mkSettingsFile (JsString (renderModeName (renderMode s)))
                         (JsBoolean (allowGpuFallback s))
                         (JsString (gpuBackendName (gpuBackend s)))
                         (JsBoolean (ignoreGpuBlocklist s))
                         (JsBoolean (disableGpuSandbox s)))
  else file.

(** The state of the main process the handlers work on. *)
Record MainState := mkMainState {
  settings : MainSettings;
  settingsFile : option SettingsFile;
  relaunches : nat;
}.

Definition withSettings (st : MainState) (s : MainSettings) (writeSucceeds : bool)
    : MainState :=
  mkMainState s (persistRenderMode s writeSucceeds (settingsFile st)) (relaunches st).

(** The handlers of [app:set-render-mode], [app:set-gpu-fallback],
    [app:set-gpu-backend], [app:set-ignore-gpu-blocklist] and
    [app:set-disable-gpu-sandbox]: the state after, and the value returned
    to the renderer. *)
Definition setRenderMode (mode : JsValue) (writeSucceeds : bool) (st : MainState)
    : MainState * bool :=
  match parseRenderMode mode with
  | Some m =>
      let s := settings st in
      (withSettings st
         (mkMainSettings m (allowGpuFallback s) (gpuBackend s)
                         (ignoreGpuBlocklist s) (disableGpuSandbox s))
         writeSucceeds, true)
  | None => (st, false)
  end.

Definition setGpuFallback (enabled : JsValue) (writeSucceeds : bool) (st : MainState)
    : MainState * bool :=
  match parseBoolean enabled with
  | Some b =>
      let s := settings st in
      (withSettings st
         (mkMainSettings (renderMode s) b (gpuBackend s)
                         (ignoreGpuBlocklist s) (disableGpuSandbox s))
         writeSucceeds, true)
  | None => (st, false)
  end.

Definition setGpuBackend (backend : JsValue) (writeSucceeds : bool) (st : MainState)
    : MainState * bool :=
  match parseGpuBackend backend with
  | Some b =>
      let s := settings st in
      (withSettings st
         (mkMainSettings (renderMode s) (allowGpuFallback s) b
                         (ignoreGpuBlocklist s) (disableGpuSandbox s))
         writeSucceeds, true)
  | None => (st, false)
  end.

Definition setIgnoreGpuBlocklist (enabled : JsValue) (writeSucceeds : bool)
    (st : MainState) : MainState * bool :=
  match parseBoolean enabled with
  | Some b =>
      let s := settings st in
      (withSettings st
         (mkMainSettings (renderMode s) (allowGpuFallback s) (gpuBackend s)
                         b (disableGpuSandbox s))
         writeSucceeds, true)
  | None => (st, false)
  end.

Definition setDisableGpuSandbox (enabled : JsValue) (writeSucceeds : bool)
    (st : MainState) : MainState * bool :=
  match parseBoolean enabled with
  | Some b =>
      let s := settings st in
      (withSettings st
         (mkMainSettings (renderMode s) (allowGpuFallback s) (gpuBackend s)
                         (ignoreGpuBlocklist s) b)
         writeSucceeds, true)
  | None => (st, false)
  end.

(** [fallbackToCpu]: unless fallback is off or the mode is CPU already,
    switch to CPU, persist and relaunch. *)
Definition fallbackToCpu (writeSucceeds : bool) (st : MainState) : MainState :=
  let s := settings st in
  if negb (allowGpuFallback s) then st
  else
    match renderMode s with
    | cpu => st
    | gpu =>
        let s' := mkMainSettings cpu (allowGpuFallback s) (gpuBackend s)
                                 (ignoreGpuBlocklist s) (disableGpuSandbox s) in
        mkMainState s' (persistRenderMode s' writeSucceeds (settingsFile st))
                    (S (relaunches st))
    end.

(** A command-line switch, with its value if it has one. *)
Record Switch := mkSwitch {
  sw_name : string;
  sw_value : option string;
}.

(** The switches appended at start-up, in order, and whether hardware
    acceleration is disabled. *)
Definition startupSwitches (s : MainSettings) (diskCacheDir gpuCacheDir : string)
    : list Switch * bool :=
  let disabledFeatures :=
    ["CalculateNativeWinOcclusion"; "WebGPU"]
    ++ (match gpuBackend s with vulkan => [] | _ => ["Vulkan"] end) in
  let forceSoftwareRendering :=
    match renderMode s with gpu => false | cpu => true end in
  ([mkSwitch "force_high_performance_gpu" None;
    mkSwitch "disable-gpu-shader-disk-cache" None;
    mkSwitch "disk-cache-dir" (Some diskCacheDir);
    mkSwitch "gpu-disk-cache-dir" (Some gpuCacheDir)]
   ++ (if ignoreGpuBlocklist s then [mkSwitch "ignore-gpu-blocklist" None] else [])
   ++ (if disableGpuSandbox s then [mkSwitch "disable-gpu-sandbox" None] else [])
   ++ [mkSwitch "disable-features" (Some (String.concat "," disabledFeatures))]
   ++ (if forceSoftwareRendering then
         [mkSwitch "use-angle" (Some "swiftshader");
          mkSwitch "enable-unsafe-swiftshader" None]
       else
         match gpuBackend s with
         | desktop => [mkSwitch "use-gl" (Some "desktop")]
         | vulkan =>
             [mkSwitch "use-gl" (Some "angle");
              mkSwitch "use-angle" (Some "vulkan");
              mkSwitch "enable-features" (Some "Vulkan")]
         | backend =>
             let angleBackend :=
               match backend with
               | opengl => "gl"
               | other => gpuBackendName other
               end in
             [mkSwitch "use-gl" (Some "angle");
              mkSwitch "use-angle" (Some angleBackend)]
         end)
   ++ [mkSwitch "disable-renderer-backgrounding" None;
       mkSwitch "disable-backgrounding-occluded-windows" None;
       mkSwitch "disable-background-timer-throttling" None],
   forceSoftwareRendering).
End ElectronMain.

(** ** electron/main.ts: the window, the fallback timer and the events *)

Section MainEvents.

(** The main process between two callbacks: the settings and the file,
    [rendererReady], the handle in [gpuFallbackTimer], and the timers that
    are set and have neither fired nor been cleared.  Handles are numbered in
    the order [setTimeout] gives them out. *)
Record MainProcess := mkMainProcess {
  mainState : MainState;
  rendererReady : bool;
  gpuFallbackTimer : option nat;
  pendingTimers : list nat;
  timersCreated : nat;
}.

Definition clearTimeout (handle : nat) (pending : list nat) : list nat :=
  filter (fun t => negb (Nat.eqb t handle)) pending.

Definition withApp (p : MainProcess) (a : MainState) : MainProcess :=
  mkMainProcess a (rendererReady p) (gpuFallbackTimer p) (pendingTimers p)
                (timersCreated p).

(** [createWindow], as far as the fallback timer goes. *)
Definition createWindow (p : MainProcess) : MainProcess :=
  match renderMode (settings (mainState p)) with
  | gpu =>
      let pending :=
        match gpuFallbackTimer p with
        | Some handle => clearTimeout handle (pendingTimers p)
        | None => pendingTimers p
        end in
      let handle := timersCreated p in
      mkMainProcess (mainState p) false (Some handle) (pending ++ [handle]) (S handle)
  | cpu =>
      mkMainProcess (mainState p) false (gpuFallbackTimer p) (pendingTimers p)
                    (timersCreated p)
  end.

(** The body shared by [did-finish-load] and [app:renderer-ready]. *)
Definition markRendererReady (p : MainProcess) : MainProcess :=
  match gpuFallbackTimer p with
  | Some handle =>
      mkMainProcess (mainState p) true None (clearTimeout handle (pendingTimers p))
                    (timersCreated p)
  | None =>
      mkMainProcess (mainState p) true None (pendingTimers p) (timersCreated p)
  end.

Definition onDidFinishLoad (p : MainProcess) : MainProcess :=
  match renderMode (settings (mainState p)) with
  | gpu => markRendererReady p
  | cpu => p
  end.

Definition onRendererReady (p : MainProcess) : MainProcess :=
  markRendererReady p.

(** The callback of the fallback timer with handle [handle]; a timer that
    is not pending does not fire. *)
Definition onFallbackTimer (writeSucceeds : bool) (handle : nat) (p : MainProcess)
    : MainProcess :=
  if existsb (Nat.eqb handle) (pendingTimers p) then
    let p' := mkMainProcess (mainState p) (rendererReady p) (gpuFallbackTimer p)
                            (clearTimeout handle (pendingTimers p))
                            (timersCreated p) in
    if negb (rendererReady p') then withApp p' (fallbackToCpu writeSucceeds (mainState p'))
    else p'
  else p.

(** [did-fail-load] and [render-process-gone]. *)
Definition onRendererFailure (writeSucceeds : bool) (p : MainProcess)
    : MainProcess :=
  match renderMode (settings (mainState p)) with
  | gpu => withApp p (fallbackToCpu writeSucceeds (mainState p))
  | cpu => p
  end.

(** [child-process-gone]; [isGpuProcess] is [details.type === 'GPU']. *)
Definition onChildProcessGone (writeSucceeds : bool) (isGpuProcess : bool)
    (p : MainProcess) : MainProcess :=
  match renderMode (settings (mainState p)) with
  | gpu =>
      if isGpuProcess then withApp p (fallbackToCpu writeSucceeds (mainState p)) else p
  | cpu => p
  end.

(** [app:relaunch]. *)
Definition onRelaunch (p : MainProcess) : MainProcess :=
  withApp p (mkMainState (settings (mainState p)) (settingsFile (mainState p))
                         (S (relaunches (mainState p)))).
End MainEvents.

(** ** hooks/useCamera.ts: restarting the stream *)

Section UseCamera.

(** The refs and state of the hook.  A stream is known by a number; times
    are those of [Date.now()], in milliseconds. *)
Record CameraState := mkCameraState {
  streamRef : option nat;
  lastRestartAtRef : Z;
  cameraError : option string;
  stoppedStreams : list nat;
}.

Definition stopStream (st : CameraState) : CameraState :=
  match streamRef st with
  | Some stream =>
      mkCameraState None (lastRestartAtRef st) (cameraError st)
                    (stoppedStreams st ++ [stream])
  | None => st
  end.

(** [startStream], with the outcome of [getUserMedia]: a stream, or the
    message of the error. *)
Definition startStream (getUserMedia : nat + string) (st : CameraState)
    : CameraState :=
  match getUserMedia with
  | inl ms =>
      mkCameraState (Some ms) (lastRestartAtRef st) (cameraError st)
                    (stoppedStreams st)
  | inr message =>
      mkCameraState (streamRef st) (lastRestartAtRef st) (Some message)
                    (stoppedStreams st)
  end.

(** [restartStream] at time [now]: the state after, and whether the stream
    was restarted.  The throttle and the update of [lastRestartAtRef] run
    before the first [await]; stopping and starting are taken in one step. *)
Definition restartStream (now : Z) (getUserMedia : nat + string)
    (st : CameraState) : CameraState * bool :=
  if (now - lastRestartAtRef st <? 1500)%Z then (st, false)
  else
    let st1 := mkCameraState (streamRef st) now (cameraError st)
                             (stoppedStreams st) in
    (startStream getUserMedia (stopStream st1), true).

(** A run of restart requests: the state after them and the times at
    which the stream was restarted, latest first. *)
Fixpoint restartRequests (requests : list (Z * (nat + string)))
    (st : CameraState) (restarts : list Z) : CameraState * list Z :=
  match requests with
  | [] => (st, restarts)
  | (now, getUserMedia) :: rest =>
      let '(st', restarted) := restartStream now getUserMedia st in
      restartRequests rest st' (if restarted then now :: restarts else restarts)
  end.
End UseCamera.

(** ** Exact rationals *)

Definition Qltb (a b : Q) : bool :=
  (Qnum a * QDen b <? Qnum b * QDen a)%Z.

Definition Qround_half_up (a : Q) : Q := inject_Z (Qfloor (a + (1 # 2))%Q).

#[export] Instance Q_Number : Number Q := {
  lit q := q;
  add := Qplus;
  sub := Qminus;
  neg := Qopp;
  mul := Qmult;
  div := Qdiv;
  ltb := Qltb;
  eqb := Qeq_bool;
  truthy q := negb (Qeq_bool q 0);
  isFinite _ := true;
  Math_max a b := if Qltb a b then b else a;
  Math_min a b := if Qltb b a then b else a;
  Math_round := Qround_half_up;
}.

(** ** Rationals extended with NaN and the two infinities

    The special values of a double, with the arithmetic of the finite ones
    exact.  There is one zero. *)

Inductive xnum :=
| XFin (q : Q)
| XPosInf
| XNegInf
| XNaN.

Definition Qsign (q : Q) : comparison := (Qnum q ?= 0)%Z.

Definition xinf (positive : bool) : xnum :=
  if positive then XPosInf else XNegInf.

Definition xneg (a : xnum) : xnum :=
  match a with
  | XFin q => XFin (- q)
  | XPosInf => XNegInf
  | XNegInf => XPosInf
  | XNaN => XNaN
  end.

Definition xadd (a b : xnum) : xnum :=
  match a, b with
  | XNaN, _ | _, XNaN => XNaN
  | XPosInf, XNegInf | XNegInf, XPosInf => XNaN
  | XPosInf, _ | _, XPosInf => XPosInf
  | XNegInf, _ | _, XNegInf => XNegInf
  | XFin p, XFin q => XFin (p + q)
  end.

Definition xscale_inf (positive : bool) (q : Q) : xnum :=
  match Qsign q with
  | Eq => XNaN
  | Gt => xinf positive
  | Lt => xinf (negb positive)
  end.

Definition xmul (a b : xnum) : xnum :=
  match a, b with
  | XNaN, _ | _, XNaN => XNaN
  | XFin p, XFin q => XFin (p * q)
  | XPosInf, XFin q | XFin q, XPosInf => xscale_inf true q
  | XNegInf, XFin q | XFin q, XNegInf => xscale_inf false q
  | XPosInf, XPosInf | XNegInf, XNegInf => XPosInf
  | XPosInf, XNegInf | XNegInf, XPosInf => XNegInf
  end.

Definition xdiv (a b : xnum) : xnum :=
  match a, b with
  | XNaN, _ | _, XNaN => XNaN
  | XFin p, XFin q =>
      match Qsign q with
      | Eq => match Qsign p with
              | Eq => XNaN
              | Gt => XPosInf
              | Lt => XNegInf
              end
      | _ => XFin (p / q)
      end
  | XFin _, _ => XFin 0
  | XPosInf, XFin q =>
      match Qsign q with Lt => XNegInf | _ => XPosInf end
  | XNegInf, XFin q =>
      match Qsign q with Lt => XPosInf | _ => XNegInf end
  | _, _ => XNaN
  end.

Definition xltb (a b : xnum) : bool :=
  match a, b with
  | XNaN, _ | _, XNaN => false
  | XFin p, XFin q => Qltb p q
  | XNegInf, XNegInf => false
  | XNegInf, _ => true
  | _, XPosInf => match a with XPosInf => false | _ => true end
  | _, _ => false
  end.

Definition xeqb (a b : xnum) : bool :=
  match a, b with
  | XFin p, XFin q => Qeq_bool p q
  | XPosInf, XPosInf | XNegInf, XNegInf => true
  | _, _ => false
  end.

Definition xmax (a b : xnum) : xnum :=
  match a, b with
  | XNaN, _ | _, XNaN => XNaN
  | _, _ => if xltb a b then b else a
  end.

Definition xmin (a b : xnum) : xnum :=
  match a, b with
  | XNaN, _ | _, XNaN => XNaN
  | _, _ => if xltb b a then b else a
  end.

#[export] Instance xnum_Number : Number xnum := {
  lit := XFin;
  add := xadd;
  sub a b := xadd a (xneg b);
  neg := xneg;
  mul := xmul;
  div := xdiv;
  ltb := xltb;
  eqb := xeqb;
  truthy a := match a with
              | XFin q => negb (Qeq_bool q 0)
              | XNaN => false
              | _ => true
              end;
  isFinite a := match a with XFin _ => true | _ => false end;
  Math_max := xmax;
  Math_min := xmin;
  Math_round a := match a with XFin q => XFin (Qround_half_up q) | _ => a end;
}.

(** ** Reals *)

Definition Rltb (a b : R) : bool := if Rlt_dec a b then true else false.
Definition Reqb (a b : R) : bool := if Req_dec_T a b then true else false.

#[export] Instance R_Number : Number R := {
  lit := Q2R;
  add := Rplus;
  sub := Rminus;
  neg := Ropp;
  mul := Rmult;
  div := Rdiv;
  ltb := Rltb;
  eqb := Reqb;
  truthy a := negb (Reqb a 0%R);
  isFinite _ := true;
  Math_max := Rmax;
  Math_min := Rmin;
  Math_round a := IZR (Int_part (a + / 2)%R);
}.

(** ** Quaternions over the reals *)

(** The inner product of two quaternions as vectors of four reals. *)
Definition qdot (a b : Quaternion R) : R :=
  (q_x a * q_x b + q_y a * q_y b + q_z a * q_z b + q_w a * q_w b)%R.

Definition qneg (a : Quaternion R) : Quaternion R :=
  mkQuaternion (- q_x a)%R (- q_y a)%R (- q_z a)%R (- q_w a)%R.

(** The linear combination [ka a + kb b]. *)
Definition qcombine (ka : R) (a : Quaternion R) (kb : R) (b : Quaternion R)
    : Quaternion R :=
  mkQuaternion (ka * q_x a + kb * q_x b)%R (ka * q_y a + kb * q_y b)%R
               (ka * q_z a + kb * q_z b)%R (ka * q_w a + kb * q_w b)%R.

(** Modelled from the spec: [Quaternion.slerp], the "spherical
    interpolation of a unit rotation ... toward the target orientation", of
    which the source is not in the repository.  Over the reals: the point at
    fraction [t] of the shorter great arc from [a] to [b] (to [- b], the same
    rotation, when [b] is in the opposite hemisphere); [a] itself when the
    two coincide. *)
Definition slerp (a b : Quaternion R) (t : R) : Quaternion R :=
  let cosHalfTheta := qdot a b in
  let b' := if Rlt_dec cosHalfTheta 0 then qneg b else b in
  let c := Rabs cosHalfTheta in
  if Rle_dec 1 c then a
  else
    let halfTheta := acos c in
    qcombine (sin ((1 - t) * halfTheta) / sin halfTheta)%R a
             (sin (t * halfTheta) / sin halfTheta)%R b'.

(** ** Notions the statements use *)

(** A unit quaternion. *)
Definition qunit (a : Quaternion R) : Prop := qdot a a = 1%R.

(** The angle of the rotation that takes one orientation to the other. *)
Definition rotationAngle (a b : Quaternion R) : R :=
  (2 * acos (Rabs (qdot a b)))%R.

(** Euclidean distance of two positions. *)
Definition distance (a b : Vector3 R) : R :=
  sqrt ((v_x a - v_x b)² + (v_y a - v_y b)² + (v_z a - v_z b)²)%R.

(** A coordinate between two others. *)
Definition between (x a b : R) : Prop := (Rmin a b <= x <= Rmax a b)%R.

(** The render tick [inp] at another time. *)
Definition withNow {num : Type} (inp : AvatarInput num) (now : num)
    : AvatarInput num :=
  mkAvatarInput (headScale inp) (mirror inp) (enabled inp) (size inp)
    (delta inp) now (frame inp) (av_snapshot inp).

(** Consecutive render ticks with the same snapshot, frame and step. *)
Definition steadyFrames {num : Type} (inp : AvatarInput num) (nows : list num)
    : list (AvatarInput num) :=
  map (withNow inp) nows.

(** A frame count after which smoothing at rate [k] with step [dt] has
    brought a distance [d0] below [eps]. *)
Definition framesToReach (k dt d0 eps : R) : nat :=
  Z.to_nat (up (ln (d0 / eps) / (k * dt))%R).


(** The landmark set mirrored horizontally: [x -> 1 - x] on every point. *)
Definition mirrorLandmark (p : Landmark Q) : Landmark Q :=
  mkLandmark (1 - lm_x p)%Q (lm_y p) (lm_z p).

(** Minimum and maximum of a list of rationals (0 for the empty list). *)
Definition Qlist_min (l : list Q) : Q :=
  match l with
  | [] => 0%Q
  | x :: xs => fold_left Qmin xs x
  end.

Definition Qlist_max (l : list Q) : Q :=
  match l with
  | [] => 0%Q
  | x :: xs => fold_left Qmax xs x
  end.

(** The same render tick with another matrix in its snapshot. *)
Definition withMatrix {num : Type} (inp : AvatarInput num)
    (m : option (list num)) : AvatarInput num :=
  mkAvatarInput (headScale inp) (mirror inp) (enabled inp) (size inp)
    (delta inp) (av_now inp) (frame inp)
    (option_map
       (fun s => mkFaceSnapshot (landmarks s) m (blendshapes s) (timestamp s))
       (av_snapshot inp)).

(** A box computed from a non-empty landmark sequence with the padding
    profile of the avatar. *)
Definition avatarBoxOfLandmarks {num : Type} `{Number num} (b : FaceBox num) : Prop :=
  exists lms frameWidth frameHeight mirrorX,
    lms <> []
    /\ b = computeFaceBox lms frameWidth frameHeight
                           avatarPadX avatarPadY avatarShiftY mirrorX.

(** Sample data for the compositor: background replacement off, face swap
    on with an overlay image, a snapshot of two landmarks. *)
Definition overlayProps : CompositorProps :=
  mkCompositorProps false true false None (Some 7%nat) true true.

Definition emptyCompositor : CompositorState Q :=
  mkCompositorState [] None None None 0.

Definition twoPointSnapshot : FaceSnapshot Q :=
  mkFaceSnapshot
    [mkLandmark 0.25 0.5 None; mkLandmark 0.75 0.125 None]%Q None None 0%Q.

(** Sample data for the render loop: a detection with one face, the flags
    of the 2D and of the 3D path, and processed frames. *)
Definition sampleMatrix : list Q :=
  [1; 0; 0; 0;  0; 1; 0; 0;  0; 0; 1; 0;  0; 0; -40; 1]%Q.

Definition sampleResult : FaceLandmarkerResult Q :=
  mkFaceLandmarkerResult
    (Some [[mkNormalizedLandmark 0.25 0.5 0; mkNormalizedLandmark 0.75 0.125 0]%Q])
    (Some [mkClassifications
             (Some [mkCategory "jawOpen" 0.5; mkCategory "eyeLookInLeft" 0.5]%Q)])
    (Some [RawWrapper (Some sampleMatrix)]).

Definition sampleSnapshot : FaceSnapshot Q :=
  mkFaceSnapshot
    [mkLandmark 0.25 0.5 (Some 0); mkLandmark 0.75 0.125 (Some 0)]%Q
    (Some sampleMatrix)
    (Some [mkBlendshape "jawOpen" 0.5; mkBlendshape "eyeLookInLeft" 0.5]%Q)
    1000%Q.

Definition flags2D : Flags := mkFlags true false false.
Definition flags3D : Flags := mkFlags false true false.

Definition frameAt (videoTime now : Q) (detection : option (FaceLandmarkerResult Q))
    : Tick Q :=
  mkTick true 640%Q 480%Q videoTime now detection.

(** The loop state once the sample face has been seen in 3D-avatar mode. *)
Definition trackedState : LoopState Q :=
  fst (renderLoop flags3D initialLoopState (frameAt 1 1000 (Some sampleResult))).

(** A stand-in for the runtime, to run the frame on examples: the matrix
    functions return their argument, [slerp] jumps to the target. *)
Definition sampleRuntime {num : Type} `{Number num} : Runtime num := {|
  Math_exp := fun _ => lit 0.5;
  Matrix4_extractRotation := fun m => m;
  Matrix4_multiply := fun a _ => a;
  Matrix4_makeScale := fun x y z => [x; y; z];
  Quaternion_setFromRotationMatrix :=
    fun _ => mkQuaternion (lit 0) (lit 0) (lit 0) (lit 1);
  Quaternion_slerp := fun _ b _ => b;
|}.

(** Sample data for the avatar: a mounted group and mesh, nothing smoothed
    yet. *)
Definition sampleAvatarState {num : Type} `{Number num} : AvatarState num :=
  mkAvatarState
    (Some (mkGroup false (mkVector3 (lit 0) (lit 0) (lit 0)) (lit 1)
                   (mkQuaternion (lit 0) (lit 0) (lit 0) (lit 1))))
    (Some (mkMesh (Some {["jawOpen" := 0%nat; "eyeLookInLeft" := 1%nat]})
                  (Some ∅)))
    (mkQuaternion (lit 0) (lit 0) (lit 0) (lit 1))
    (mkQuaternion (lit 0) (lit 0) (lit 0) (lit 1))
    false ∅ None (lit 0)
    (mkVector3 (lit 0) (lit 0) (lit 0)) (lit 1) false.

Definition sampleAvatarInput : AvatarInput Q :=
  mkAvatarInput 1.15%Q true true (mkFrameSize 1280 720)%Q 0.016%Q 1000%Q
                (mkFrameSize 640 480)%Q (Some sampleSnapshot).

(** A snapshot whose matrix has a NaN among its first 16 components. *)
Definition nanSnapshot : FaceSnapshot xnum :=
  mkFaceSnapshot
    [mkLandmark (XFin 0.25) (XFin 0.5) None; mkLandmark (XFin 0.75) (XFin 0.125) None]
    (Some (XFin 1 :: XNaN :: replicate 14 (XFin 0)))
    None (XFin 1000).

Definition nanAvatarInput : AvatarInput xnum :=
  mkAvatarInput (XFin 1.15) true true (mkFrameSize (XFin 1280) (XFin 720))
                (XFin 0.016) (XFin 1000)
                (mkFrameSize (XFin 640) (XFin 480)) (Some nanSnapshot).

(** The runtime over the reals: the exponential and the spherical
    interpolation above; for the matrix functions, which the smoothing does
    not depend on, the stand-ins of [sampleRuntime]. *)
Definition realRuntime : Runtime R := {|
  Math_exp := exp;
  Matrix4_extractRotation := fun m => m;
  Matrix4_multiply := fun a _ => a;
  Matrix4_makeScale := fun x y z => [x; y; z];
  Quaternion_setFromRotationMatrix := fun _ => mkQuaternion 0%R 0%R 0%R 1%R;
  Quaternion_slerp := slerp;
|}.

Definition realSnapshot : FaceSnapshot R :=
  mkFaceSnapshot [mkLandmark (/ 4)%R (/ 2)%R None; mkLandmark (/ 2)%R (/ 4)%R None]
                 (Some (replicate 16 0%R)) None 1000%R.

Definition realAvatarInput : AvatarInput R :=
  mkAvatarInput 1%R false true (mkFrameSize 1280 720)%R (/ 64)%R 1000%R
                (mkFrameSize 640 480)%R (Some realSnapshot).

Definition realAvatarState : AvatarState R :=
  mkAvatarState
    (Some (mkGroup false (mkVector3 0 0 0)%R 1%R (mkQuaternion 0%R 0%R 0%R 1%R)))
    None
    (mkQuaternion 0%R 0%R 0%R 1%R) (mkQuaternion 0%R 0%R 0%R 1%R)
    false ∅ None 0%R
    (mkVector3 0 0 0)%R 1%R true.

(** A blendshape name denotes gaze direction. *)
Definition isGaze (name : string) : bool := String.prefix "eyeLook" name.

(** The smoothed weight of a blendshape, from its previous smoothed state
    if it has one: interpolation towards the score with factor 0.25, and for
    gaze towards 0.4 times the score with factor 0.15. *)
Definition smoothedWeight {num : Type} `{Number num}
    (prev : option num) (shape : Blendshape num) : num :=
  if isGaze (bs_name shape)
  then lerp (default (lit 0) prev) (mul (bs_score shape) (lit 0.4)) (lit 0.15)
  else lerp (default (lit 0) prev) (bs_score shape) (lit 0.25).

(** A value held to the unit interval. *)
Definition clamp01 {num : Type} `{Number num} (x : num) : num :=
  Math_min (lit 1) (Math_max (lit 0) x).

(** The depth of the context's state stack after a sequence of calls made
    at depth [d]; [None] if a [Restore] finds the stack empty. *)
Fixpoint stackDepth {num : Type} (d : nat) (ops : list (CtxOp num)) : option nat :=
  match ops with
  | [] => Some d
  | Save :: rest => stackDepth (S d) rest
  | Restore :: rest =>
      match d with
      | O => None
      | S d' => stackDepth d' rest
      end
  | _ :: rest => stackDepth d rest
  end.

(** The same props with background replacement switched off. *)
Definition withoutBackgroundReplace (pr : CompositorProps) : CompositorProps :=
  mkCompositorProps false (cp_enableFaceSwap pr) (mirrorCamera pr)
    (backgroundImage pr) (faceOverlayImage pr)
    (maskCtxAvailable pr) (personCtxAvailable pr).

(** The same detection result with other faces after the first. *)
Definition withOtherFaces {num : Type} (result : FaceLandmarkerResult num)
    (others : list (list (NormalizedLandmark num))) : FaceLandmarkerResult num :=
  mkFaceLandmarkerResult
    (match faceLandmarks result with
     | Some (face0 :: _) => Some (face0 :: others)
     | other => other
     end)
    (faceBlendshapes result) (facialTransformationMatrixes result).

(** A rational to a natural power. *)
Fixpoint Qpow (q : Q) (n : nat) : Q :=
  match n with
  | O => 1%Q
  | S k => (q * Qpow q k)%Q
  end.

(** Whether [getDelegateOrder] runs inside Electron, and the render mode
    the window's storage holds. *)
Definition inElectron (window : option WindowEnv) : bool :=
  match window with
  | Some (mkWindowEnv (Some version) _) => negb (String.eqb version "")
  | _ => false
  end.

Definition storedRenderMode (window : option WindowEnv) : option string :=
  match window with
  | Some (mkWindowEnv _ (ReadValue stored)) => stored
  | _ => None
  end.

(** The error a failed creation threw. *)
Definition thrownBy {T E : Type} (createFn : Delegate -> T + E) (d : Delegate)
    : option E :=
  match createFn d with
  | inr e => Some e
  | inl _ => None
  end.

(** The five [app:set-*] requests of the main process. *)
Inductive SetRequest :=
| SetRenderMode (value : JsValue)
| SetGpuFallback (value : JsValue)
| SetGpuBackend (value : JsValue)
| SetIgnoreGpuBlocklist (value : JsValue)
| SetDisableGpuSandbox (value : JsValue).

Definition handleSet (r : SetRequest) (writeSucceeds : bool) (st : MainState)
    : MainState * bool :=
  match r with
  | SetRenderMode v => setRenderMode v writeSucceeds st
  | SetGpuFallback v => setGpuFallback v writeSucceeds st
  | SetGpuBackend v => setGpuBackend v writeSucceeds st
  | SetIgnoreGpuBlocklist v => setIgnoreGpuBlocklist v writeSucceeds st
  | SetDisableGpuSandbox v => setDisableGpuSandbox v writeSucceeds st
  end.

(** Times, latest first, each at least [gap] after the one before it, the
    earliest at least [gap] after [start]. *)
Fixpoint spaced (gap start : Z) (times : list Z) : Prop :=
  match times with
  | [] => True
  | t :: earlier =>
      (gap <= t - hd start earlier)%Z /\ spaced gap start earlier
  end.

(** What the main process reacts to; [writeSucceeds] says whether a write
    of the settings file made while handling the event succeeds. *)
Inductive MainEvent :=
| WindowCreated
| DidFinishLoad
| RendererReady
| FallbackTimer (handle : nat)
| DidFailLoad
| RenderProcessGone
| ChildProcessGone (isGpuProcess : bool)
| Relaunch
| SetMessage (r : SetRequest).

(** One event; nothing runs in a process that has relaunched and exited. *)
Definition handleEvent (writeSucceeds : bool) (p : MainProcess) (e : MainEvent)
    : MainProcess :=
  match relaunches (mainState p) with
  | S _ => p
  | O =>
      match e with
      | WindowCreated => createWindow p
      | DidFinishLoad => onDidFinishLoad p
      | RendererReady => onRendererReady p
      | FallbackTimer handle => onFallbackTimer writeSucceeds handle p
      | DidFailLoad => onRendererFailure writeSucceeds p
      | RenderProcessGone => onRendererFailure writeSucceeds p
      | ChildProcessGone isGpuProcess =>
          onChildProcessGone writeSucceeds isGpuProcess p
      | Relaunch => onRelaunch p
      | SetMessage r => withApp p (fst (handleSet r writeSucceeds (mainState p)))
      end
  end.

Definition handleEvents (p : MainProcess) (events : list (MainEvent * bool))
    : MainProcess :=
  fold_left (fun q '(e, writeSucceeds) => handleEvent writeSucceeds q e) events p.

(** The main process once the settings are loaded, before any window. *)
Definition startMainProcess (file : option SettingsFile) : MainProcess :=
  mkMainProcess (mkMainState (loadSettings file) file 0) false None [] 0.

(** At most one fallback timer is pending, the one [gpuFallbackTimer]
    holds. *)
Definition oneWatchdog (p : MainProcess) : Prop :=
  pendingTimers p = []
  \/ exists handle, gpuFallbackTimer p = Some handle
                    /\ pendingTimers p = [handle].

(** Nothing is pending, or the process has exited. *)
Definition quiet (p : MainProcess) : Prop :=
  pendingTimers p = [] \/ relaunches (mainState p) <> 0.

(** Events through which the user asks for a change or a relaunch. *)
Definition userRequest (e : MainEvent) : bool :=
  match e with
  | Relaunch | SetMessage _ => true
  | _ => false
  end.

(** Sample data. *)
Definition twoLandmarks : list (Landmark Q) :=
  [mkLandmark 0.25 0.5 None; mkLandmark 0.75 0.125 None]%Q.

(** * Properties *)

(** ** The face box *)

Section ScanComponents.
Context {num : Type} `{Number num}.
Local Open Scope js_scope.

(** The scan is four independent folds. *)
Lemma scan_components (l : list (Landmark num)) (e : Extents) :
  fold_left scanPoint l e
  = mkExtents (fold_left stepMin (map lm_x l) (minX e))
              (fold_left stepMin (map lm_y l) (minY e))
              (fold_left stepMax (map lm_x l) (maxX e))
              (fold_left stepMax (map lm_y l) (maxY e)).
Proof.
  revert e. induction l as [|p l IH]; intros e.
  - destruct e; reflexivity.
  - simpl. rewrite IH. reflexivity.
Qed.
End ScanComponents.

Section FaceBoxQ.
Local Open Scope Q_scope.

Lemma Qltb_lt (a b : Q) : Qltb a b = true <-> a < b.
Proof. unfold Qltb, Qlt. apply Z.ltb_lt. Qed.

Lemma Qltb_ge (a b : Q) : Qltb a b = false <-> b <= a.
Proof. unfold Qltb, Qle. apply Z.ltb_ge. Qed.

Lemma Qltb_mirror (x m : Q) : Qltb (1 - x) (1 - m) = Qltb m x.
Proof.
  destruct (Qltb m x) eqn:E.
  - apply Qltb_lt. apply Qltb_lt in E. lra.
  - apply Qltb_ge. apply Qltb_ge in E. lra.
Qed.

Lemma fold_stepMin_mirror (xs : list Q) (m : Q) :
  fold_left stepMin (map (fun x => 1 - x) xs) (1 - m)
  = 1 - fold_left stepMax xs m.
Proof.
  revert m. induction xs as [|x xs IH]; intros m; simpl; [reflexivity|].
  unfold stepMin at 2, stepMax at 2. cbn [ltb Q_Number].
  rewrite Qltb_mirror.
  destruct (Qltb m x); apply IH.
Qed.

Lemma fold_stepMax_mirror (xs : list Q) (m : Q) :
  fold_left stepMax (map (fun x => 1 - x) xs) (1 - m)
  = 1 - fold_left stepMin xs m.
Proof.
  revert m. induction xs as [|x xs IH]; intros m; simpl; [reflexivity|].
  unfold stepMin at 2, stepMax at 2. cbn [ltb Q_Number].
  rewrite Qltb_mirror.
  destruct (Qltb x m); apply IH.
Qed.

Lemma scan_mirror (lms : list (Landmark Q)) :
  scanLandmarks (map mirrorLandmark lms)
  = mkExtents (1 - maxX (scanLandmarks lms)) (minY (scanLandmarks lms))
              (1 - minX (scanLandmarks lms)) (maxY (scanLandmarks lms)).
Proof.
  unfold scanLandmarks. rewrite !scan_components.
  cbn [minX minY maxX maxY initExtents].
  assert (Hx : map lm_x (map mirrorLandmark lms)
               = map (fun x => 1 - x) (map lm_x lms))
    by (rewrite !map_map; reflexivity).
  assert (Hy : map lm_y (map mirrorLandmark lms) = map lm_y lms)
    by (rewrite map_map; reflexivity).
  rewrite Hx, Hy. f_equal.
  - exact (fold_stepMin_mirror (map lm_x lms) 0).
  - exact (fold_stepMax_mirror (map lm_x lms) 1).
Qed.

(** C3.  Mirror equivalence: the box of the mirrored landmarks with
    [mirrorX = false] is the box of the original landmarks with
    [mirrorX = true], for every landmark sequence and all frame sizes,
    paddings and shift. *)
Theorem computeFaceBox_mirror_equivalence
    (lms : list (Landmark Q)) (frameWidth frameHeight padX padY yShift : Q) :
  computeFaceBox (map mirrorLandmark lms)
                 frameWidth frameHeight padX padY yShift false
  = computeFaceBox lms frameWidth frameHeight padX padY yShift true.
Proof.
  unfold computeFaceBox, baseBox. rewrite scan_mirror. reflexivity.
Qed.
(** *** The scan computes the exact minimum and maximum *)

Lemma stepMin_Qmin (m x : Q) : stepMin m x == Qmin m x.
Proof.
  unfold stepMin. cbn [ltb Q_Number]. destruct (Qltb x m) eqn:E.
  - apply Qltb_lt in E. symmetry. apply Q.min_r. lra.
  - apply Qltb_ge in E. symmetry. apply Q.min_l. exact E.
Qed.

Lemma stepMax_Qmax (m x : Q) : stepMax m x == Qmax m x.
Proof.
  unfold stepMax. cbn [ltb Q_Number]. destruct (Qltb m x) eqn:E.
  - apply Qltb_lt in E. symmetry. apply Q.max_r. lra.
  - apply Qltb_ge in E. symmetry. apply Q.max_l. exact E.
Qed.

Lemma fold_stepMin_Qmin (xs : list Q) (a b : Q) :
  a == b -> fold_left stepMin xs a == fold_left Qmin xs b.
Proof.
  revert a b. induction xs as [|x xs IH]; intros a b Hab; simpl; [exact Hab|].
  apply IH. rewrite stepMin_Qmin, Hab. reflexivity.
Qed.

Lemma fold_stepMax_Qmax (xs : list Q) (a b : Q) :
  a == b -> fold_left stepMax xs a == fold_left Qmax xs b.
Proof.
  revert a b. induction xs as [|x xs IH]; intros a b Hab; simpl; [exact Hab|].
  apply IH. rewrite stepMax_Qmax, Hab. reflexivity.
Qed.

Lemma fold_Qmin_compat (xs : list Q) (a b : Q) :
  a == b -> fold_left Qmin xs a == fold_left Qmin xs b.
Proof.
  revert a b. induction xs as [|x xs IH]; intros a b Hab; simpl; [exact Hab|].
  apply IH. rewrite Hab. reflexivity.
Qed.

Lemma fold_Qmax_compat (xs : list Q) (a b : Q) :
  a == b -> fold_left Qmax xs a == fold_left Qmax xs b.
Proof.
  revert a b. induction xs as [|x xs IH]; intros a b Hab; simpl; [exact Hab|].
  apply IH. rewrite Hab. reflexivity.
Qed.

Lemma fold_Qmin_out (xs : list Q) (c a : Q) :
  fold_left Qmin xs (Qmin c a) == Qmin c (fold_left Qmin xs a).
Proof.
  revert a. induction xs as [|x xs IH]; intros a; simpl; [reflexivity|].
  rewrite <- IH. apply fold_Qmin_compat. symmetry. apply Q.min_assoc.
Qed.

Lemma fold_Qmax_out (xs : list Q) (c a : Q) :
  fold_left Qmax xs (Qmax c a) == Qmax c (fold_left Qmax xs a).
Proof.
  revert a. induction xs as [|x xs IH]; intros a; simpl; [reflexivity|].
  rewrite <- IH. apply fold_Qmax_compat. symmetry. apply Q.max_assoc.
Qed.

Lemma fold_Qmin_le_init (xs : list Q) (a : Q) : fold_left Qmin xs a <= a.
Proof.
  revert a. induction xs as [|y xs IH]; intros a; simpl; [lra|].
  eapply Qle_trans; [apply IH|]. apply Q.le_min_l.
Qed.

Lemma fold_Qmax_ge_init (xs : list Q) (a : Q) : a <= fold_left Qmax xs a.
Proof.
  revert a. induction xs as [|y xs IH]; intros a; simpl; [lra|].
  eapply Qle_trans; [|apply IH]. apply Q.le_max_l.
Qed.

Lemma fold_Qmin_lower (xs : list Q) (a x : Q) :
  In x xs -> fold_left Qmin xs a <= x.
Proof.
  revert a. induction xs as [|y xs IH]; intros a Hx; simpl; [destruct Hx|].
  destruct Hx as [->|Hx].
  - eapply Qle_trans; [apply fold_Qmin_le_init|]. apply Q.le_min_r.
  - apply IH. exact Hx.
Qed.

Lemma fold_Qmax_upper (xs : list Q) (a x : Q) :
  In x xs -> x <= fold_left Qmax xs a.
Proof.
  revert a. induction xs as [|y xs IH]; intros a Hx; simpl; [destruct Hx|].
  destruct Hx as [->|Hx].
  - eapply Qle_trans; [|apply fold_Qmax_ge_init]. apply Q.le_max_r.
  - apply IH. exact Hx.
Qed.

Lemma Qlist_min_lower (l : list Q) (x : Q) : In x l -> Qlist_min l <= x.
Proof.
  destruct l as [|x0 xs]; [intros []|]. intros [->|Hx]; simpl.
  - apply fold_Qmin_le_init.
  - apply fold_Qmin_lower. exact Hx.
Qed.

Lemma Qlist_max_upper (l : list Q) (x : Q) : In x l -> x <= Qlist_max l.
Proof.
  destruct l as [|x0 xs]; [intros []|]. intros [->|Hx]; simpl.
  - apply fold_Qmax_ge_init.
  - apply fold_Qmax_upper. exact Hx.
Qed.

Lemma scan_min_exact (l : list Q) (bound : Q) :
  (exists x, In x l /\ x <= bound) ->
  fold_left stepMin l bound == Qlist_min l.
Proof.
  intros (x & Hin & Hle). destruct l as [|x0 xs]; [destruct Hin|].
  simpl fold_left at 1.
  rewrite (fold_stepMin_Qmin xs (stepMin bound x0) (Qmin bound x0))
    by apply stepMin_Qmin.
  rewrite fold_Qmin_out. apply Q.min_r.
  eapply Qle_trans; [|exact Hle].
  exact (Qlist_min_lower (x0 :: xs) x Hin).
Qed.

Lemma scan_max_exact (l : list Q) (bound : Q) :
  (exists x, In x l /\ bound <= x) ->
  fold_left stepMax l bound == Qlist_max l.
Proof.
  intros (x & Hin & Hle). destruct l as [|x0 xs]; [destruct Hin|].
  simpl fold_left at 1.
  rewrite (fold_stepMax_Qmax xs (stepMax bound x0) (Qmax bound x0))
    by apply stepMax_Qmax.
  rewrite fold_Qmax_out. apply Q.max_r.
  eapply Qle_trans; [exact Hle|].
  exact (Qlist_max_upper (x0 :: xs) x Hin).
Qed.

(** C2.  With [mirrorX = false] and a landmark in the unit square, the
    box before padding has the exact minimum and maximum of the landmark
    coordinates, scaled to pixels, as its extents; [computeFaceBox] pads
    that box, whatever the paddings. *)
Theorem baseBox_exact_extents
    (lms : list (Landmark Q)) (frameWidth frameHeight : Q) :
  (exists p, In p lms /\ 0 <= lm_x p <= 1 /\ 0 <= lm_y p <= 1) ->
  let xs := map lm_x lms in
  let ys := map lm_y lms in
  let base := baseBox lms frameWidth frameHeight false in
  fb_x base == Qlist_min xs * frameWidth
  /\ fb_y base == Qlist_min ys * frameHeight
  /\ fb_width base == (Qlist_max xs - Qlist_min xs) * frameWidth
  /\ fb_height base == (Qlist_max ys - Qlist_min ys) * frameHeight
  /\ forall padX padY yShift,
       computeFaceBox lms frameWidth frameHeight padX padY yShift false
       = padBox base padX padY yShift.
Proof.
  intros (p & Hin & [Hx0 Hx1] & [Hy0 Hy1]) xs ys base.
  assert (HminX : minX (scanLandmarks lms) == Qlist_min xs).
  { unfold scanLandmarks. rewrite scan_components. cbn [minX initExtents].
    apply scan_min_exact. exists (lm_x p). split; [now apply in_map|exact Hx1]. }
  assert (HminY : minY (scanLandmarks lms) == Qlist_min ys).
  { unfold scanLandmarks. rewrite scan_components. cbn [minY initExtents].
    apply scan_min_exact. exists (lm_y p). split; [now apply in_map|exact Hy1]. }
  assert (HmaxX : maxX (scanLandmarks lms) == Qlist_max xs).
  { unfold scanLandmarks. rewrite scan_components. cbn [maxX initExtents].
    apply scan_max_exact. exists (lm_x p). split; [now apply in_map|exact Hx0]. }
  assert (HmaxY : maxY (scanLandmarks lms) == Qlist_max ys).
  { unfold scanLandmarks. rewrite scan_components. cbn [maxY initExtents].
    apply scan_max_exact. exists (lm_y p). split; [now apply in_map|exact Hy0]. }
  subst base. unfold baseBox.
  cbn [fb_x fb_y fb_width fb_height mul sub Q_Number].
  rewrite HminX, HminY, HmaxX, HmaxY.
  repeat split; reflexivity.
Qed.

Lemma baseBox_exact_extents_witness :
  fb_x (baseBox twoLandmarks 640 480 false) == 0.25 * 640
  /\ fb_width (baseBox twoLandmarks 640 480 false) == (0.75 - 0.25) * 640.
Proof.
  assert (Hp : exists p, In p twoLandmarks
                         /\ 0 <= lm_x p <= 1 /\ 0 <= lm_y p <= 1).
  { exists (mkLandmark 0.25 0.5 None). split; [left; reflexivity|].
    cbn. split; split; discriminate. }
  destruct (baseBox_exact_extents twoLandmarks 640 480 Hp)
    as (H1 & _ & H3 & _).
  split; [exact H1 | exact H3].
Defined.

(** The box of the empty landmark sequence. *)
Lemma computeFaceBox_nil (frameWidth frameHeight padX padY yShift : Q)
    (mirrorX : bool) :
  let b := computeFaceBox [] frameWidth frameHeight padX padY yShift mirrorX in
  fb_width b == - frameWidth * (1 + padX)
  /\ fb_height b == - frameHeight * (1 + padY).
Proof.
  destruct mirrorX; cbn; split; ring.
Qed.

End FaceBoxQ.

(** ** The hold policy of the render loop *)

Section LoopFacts.
Context {num : Type} `{Number num}.
Local Open Scope js_scope.

(** A processed frame applies the hold step. *)
Lemma renderLoop_processed (fl : Flags) (st : LoopState num) (t : Tick num) :
  ready t = true ->
  eqb (currentTime t) (lastVideoTimeRef st) = false ->
  let st' := fst (renderLoop fl st t) in
  let r := holdStep fl (now t) (frameSnapshot fl t)
                    (faceSnapshotRef st) (lastFaceResultTimeRef st) in
  faceSnapshotRef st' = fst r
  /\ lastFaceResultTimeRef st' = snd r
  /\ lastVideoTimeRef st' = currentTime t.
Proof.
  intros Hr Ht. unfold renderLoop. rewrite Hr, Ht. cbn [negb].
  destruct (holdStep fl (now t) (frameSnapshot fl t)
              (faceSnapshotRef st) (lastFaceResultTimeRef st)) as [cur lastTime].
  cbn. auto.
Qed.

(** Any other tick leaves the snapshot slot and its time alone. *)
Lemma renderLoop_skipped (fl : Flags) (st : LoopState num) (t : Tick num) :
  ready t && negb (eqb (currentTime t) (lastVideoTimeRef st)) = false ->
  let st' := fst (renderLoop fl st t) in
  faceSnapshotRef st' = faceSnapshotRef st
  /\ lastFaceResultTimeRef st' = lastFaceResultTimeRef st
  /\ lastVideoTimeRef st' = lastVideoTimeRef st.
Proof.
  intros Hs. unfold renderLoop. destruct (ready t); [|cbn; auto].
  cbn [andb] in Hs. rewrite Hs. cbn. auto.
Qed.

Lemma holdStep_avatar_mode (fl : Flags) (startTimeMs lastTime : num)
    (snapshot cur : option (FaceSnapshot num)) :
  enable3DAvatar fl = true ->
  is_Some cur ->
  is_Some (fst (holdStep fl startTimeMs snapshot cur lastTime))
  /\ (snapshot = None ->
      fst (holdStep fl startTimeMs snapshot cur lastTime) = cur).
Proof.
  intros H3d Hcur. unfold holdStep. destruct snapshot as [s|].
  - split; [eexists; reflexivity | discriminate].
  - rewrite H3d. cbn [negb]. rewrite andb_false_r. cbn. auto.
Qed.

Lemma renderLoop_avatar_mode (fl : Flags) (st : LoopState num) (t : Tick num) :
  enable3DAvatar fl = true ->
  is_Some (faceSnapshotRef st) ->
  is_Some (faceSnapshotRef (fst (renderLoop fl st t)))
  /\ (frameSnapshot fl t = None ->
      faceSnapshotRef (fst (renderLoop fl st t)) = faceSnapshotRef st).
Proof.
  intros H3d Hcur.
  destruct (ready t && negb (eqb (currentTime t) (lastVideoTimeRef st))) eqn:E.
  - apply andb_true_iff in E as [Hr Ht]. apply negb_true_iff in Ht.
    destruct (renderLoop_processed fl st t Hr Ht) as (-> & _ & _).
    apply holdStep_avatar_mode; assumption.
  - destruct (renderLoop_skipped fl st t E) as (-> & _ & _). auto.
Qed.

Lemma runLoop_avatar_mode (fl : Flags) (ts : list (Tick num)) (st : LoopState num) :
  enable3DAvatar fl = true ->
  is_Some (faceSnapshotRef st) ->
  is_Some (faceSnapshotRef (runLoop fl st ts)).
Proof.
  intros H3d. revert st. induction ts as [|t ts IH]; intros st Hcur; [exact Hcur|].
  cbn. apply IH. apply renderLoop_avatar_mode; assumption.
Qed.

Lemma runLoop_avatar_mode_quiet (fl : Flags) (ts : list (Tick num))
    (st : LoopState num) :
  enable3DAvatar fl = true ->
  is_Some (faceSnapshotRef st) ->
  Forall (fun t => frameSnapshot fl t = None) ts ->
  faceSnapshotRef (runLoop fl st ts) = faceSnapshotRef st.
Proof.
  intros H3d. revert st.
  induction ts as [|t ts IH]; intros st Hcur Hall; [reflexivity|].
  apply Forall_cons in Hall. destruct Hall as [Ht Hall].
  destruct (renderLoop_avatar_mode fl st t H3d Hcur) as [Hsome Hsame].
  change (runLoop fl st (t :: ts)) with (runLoop fl (fst (renderLoop fl st t)) ts).
  rewrite (IH _ Hsome Hall). apply Hsame. exact Ht.
Qed.
End LoopFacts.

Section AvatarHoldFacts.
Context {num : Type} `{Number num} `{Runtime num}.
Local Open Scope js_scope.

Lemma useFrame_visible_held (st : AvatarState num) (inp : AvatarInput num)
    (b : FaceBox num) (g : Group num) :
  enabled inp = true ->
  latestFaceBoxOf inp = None ->
  lastFaceBoxRef st = Some b ->
  groupRef st = Some g ->
  truthy (fs_width (frame inp)) && truthy (fs_height (frame inp)) = true ->
  (visible <$> groupRef (useFrame st inp))
  = Some (av_now inp - lastFaceBoxTimeRef st <? faceBoxHoldMs).
Proof.
  intros He Hl Hb Hg Hf. unfold useFrame. rewrite He, Hl, Hb, Hg, Hf.
  cbn [negb heldFaceBox].
  destruct (av_now inp - lastFaceBoxTimeRef st <? faceBoxHoldMs); reflexivity.
Qed.

Lemma latestFaceBoxOf_frame (inp : AvatarInput num) (b : FaceBox num) :
  latestFaceBoxOf inp = Some b ->
  truthy (fs_width (frame inp)) && truthy (fs_height (frame inp)) = true.
Proof.
  unfold latestFaceBoxOf. destruct (av_snapshot inp) as [s|]; [|discriminate].
  destruct (0 <? length (landmarks s))%nat; [|discriminate].
  cbn [andb]. destruct (_ && _); [reflexivity | discriminate].
Qed.

Lemma useFrame_fresh_box (st : AvatarState num) (inp : AvatarInput num)
    (b : FaceBox num) :
  enabled inp = true ->
  is_Some (groupRef st) ->
  latestFaceBoxOf inp = Some b ->
  (visible <$> groupRef (useFrame st inp)) = Some true
  /\ lastFaceBoxRef (useFrame st inp) = Some b
  /\ lastFaceBoxTimeRef (useFrame st inp) = av_now inp.
Proof.
  intros He [g Hg] Hl. unfold useFrame.
  rewrite He, Hg, Hl, (latestFaceBoxOf_frame inp b Hl). cbn. repeat split.
Qed.

(** C4, as the code has it.  In 3D-avatar mode the hold-expiry step
    never clears the effective snapshot: once non-null it stays non-null
    over any run of animation frames, and frames without a detection,
    however many, leave it exactly as it is.  The avatar reads that retained
    snapshot on every frame of its own: at a known frame size a retained
    snapshot with landmarks gives a box on each frame, which shows the avatar
    and renews the last known box and its time, whatever the time since the
    last detection, so that the hold of the avatar layer does not run down.
    That hold, [faceBoxHoldMs] = 1500 after the last known box was renewed,
    decides only on frames on which the avatar derives no box. *)
Theorem avatar_mode_never_clears (fl : Flags) (st : LoopState num) :
  enable3DAvatar fl = true ->
  is_Some (faceSnapshotRef st) ->
  (forall ts, is_Some (faceSnapshotRef (runLoop fl st ts)))
  /\ (forall t, frameSnapshot fl t = None ->
        faceSnapshotRef (fst (renderLoop fl st t)) = faceSnapshotRef st)
  /\ (forall ts, Forall (fun t => frameSnapshot fl t = None) ts ->
        faceSnapshotRef (runLoop fl st ts) = faceSnapshotRef st)
  /\ (forall ts (ast : AvatarState num) headScale mirrored size delta now,
        let st' := runLoop fl st ts in
        let ast' :=
          useFrame ast (avatarInputOf fl st' headScale mirrored size delta now) in
        is_Some (groupRef ast) ->
        (forall s, faceSnapshotRef st' = Some s -> landmarks s <> []) ->
        truthy (fs_width (frameSizeRef st')) && truthy (fs_height (frameSizeRef st'))
        = true ->
        (visible <$> groupRef ast') = Some true
        /\ lastFaceBoxTimeRef ast' = now
        /\ exists s,
             faceSnapshotRef st' = Some s
             /\ lastFaceBoxRef ast'
                = Some (computeFaceBox (landmarks s)
                          (fs_width (frameSizeRef st')) (fs_height (frameSizeRef st'))
                          (lit 0.28) (lit 0.55) (lit 0.45) mirrored))
  /\ (forall (ast : AvatarState num) (inp : AvatarInput num) b g,
        enabled inp = true ->
        latestFaceBoxOf inp = None ->
        lastFaceBoxRef ast = Some b ->
        groupRef ast = Some g ->
        truthy (fs_width (frame inp)) && truthy (fs_height (frame inp)) = true ->
        (visible <$> groupRef (useFrame ast inp))
        = Some (av_now inp - lastFaceBoxTimeRef ast <? lit 1500)).
Proof.
  intros H3d Hcur.
  split; [|split; [|split; [|split]]].
  - intros ts. apply runLoop_avatar_mode; assumption.
  - intros t. apply renderLoop_avatar_mode; assumption.
  - intros ts. apply runLoop_avatar_mode_quiet; assumption.
  - intros ts ast headScale mirrored size delta now st' ast' Hg Hlm Hframe.
    destruct (runLoop_avatar_mode fl ts st H3d Hcur) as [s Hs].
    fold st' in Hs.
    pose proof (Hlm s Hs) as Hne.
    set (box := computeFaceBox (landmarks s)
                  (fs_width (frameSizeRef st')) (fs_height (frameSizeRef st'))
                  (lit 0.28) (lit 0.55) (lit 0.45) mirrored).
    assert (Hbox : latestFaceBoxOf
                     (avatarInputOf fl st' headScale mirrored size delta now)
                   = Some box).
    { unfold latestFaceBoxOf, avatarInputOf.
      cbn [av_snapshot frame mirror]. rewrite Hs.
      destruct (landmarks s) as [|p lms] eqn:El; [contradiction|].
      cbn [length Nat.ltb Nat.leb andb].
      apply andb_prop in Hframe. destruct Hframe as [Hw Hh].
      rewrite Hw, Hh. subst box. rewrite ?El. reflexivity. }
    destruct (useFrame_fresh_box ast
                (avatarInputOf fl st' headScale mirrored size delta now)
                box H3d Hg Hbox) as (Hv & Hb & Ht).
    subst ast'. split; [exact Hv|]. split; [exact Ht|].
    exists s. split; [exact Hs | exact Hb].
  - intros. eapply useFrame_visible_held; eassumption.
Qed.
End AvatarHoldFacts.

Lemma avatar_mode_never_clears_witness :
  let st' := runLoop flags3D trackedState
               [frameAt 2 100000 None; frameAt 3 900000 None] in
  faceSnapshotRef st' = Some sampleSnapshot
  /\ (visible <$> groupRef
        (useFrame (H0 := sampleRuntime) sampleAvatarState
           (avatarInputOf flags3D st' 1.15%Q true (mkFrameSize 1280 720)%Q
                          0.016%Q 900000%Q)))
     = Some true.
Proof.
  pose proof (@avatar_mode_never_clears Q _ sampleRuntime flags3D trackedState
                eq_refl (ex_intro _ sampleSnapshot eq_refl)) as (_ & _ & Hq & Hav & _).
  split.
  - apply (Hq [frameAt 2 100000 None; frameAt 3 900000 None]).
    repeat constructor.
  - refine (proj1 (Hav [frameAt 2 100000 None; frameAt 3 900000 None]
                       sampleAvatarState 1.15%Q true (mkFrameSize 1280 720)%Q
                       0.016%Q 900000%Q _ _ _)).
    + eexists. reflexivity.
    + intros s Hs. vm_compute in Hs. apply (inj Some) in Hs. subst s.
      discriminate.
    + vm_compute. reflexivity.
Defined.

(** The avatar flag is on and the last detection is 899000 ms old, far
    more than the 1500 ms of the hold of the avatar layer; yet that hold has
    not expired: the avatar frame reads the retained snapshot, shows the
    avatar and renews the last known box at its own time. *)
Lemma avatar_mode_never_clears_counterexample :
  let st' := runLoop flags3D trackedState
               [frameAt 2 100000 None; frameAt 3 900000 None] in
  let ast' := useFrame (H0 := sampleRuntime) sampleAvatarState
                (avatarInputOf flags3D st' 1.15%Q true (mkFrameSize 1280 720)%Q
                               0.016%Q 900000%Q) in
  enable3DAvatar flags3D = true
  /\ (1500 < 900000 - lastFaceResultTimeRef st')%Q
  /\ (visible <$> groupRef ast') = Some true
  /\ (lastFaceBoxTimeRef ast' == 900000)%Q
  /\ is_Some (lastFaceBoxRef ast').
Proof.
  vm_compute. repeat split; try discriminate. eexists. reflexivity.
Qed.

Section HoldWindowQ.
Local Open Scope Q_scope.

Lemma holdStep_absent_2D (fl : Flags) (startTimeMs lastTime : Q)
    (cur : option (FaceSnapshot Q)) :
  enable3DAvatar fl = false ->
  holdStep fl startTimeMs None cur lastTime
  = (if Qle_bool (startTimeMs - lastTime) 600 then cur else None, lastTime).
Proof.
  intros H3d. unfold holdStep. rewrite H3d.
  cbn [negb ltb sub Q_Number faceHoldMs lit]. rewrite andb_true_r.
  destruct (Qle_bool (startTimeMs - lastTime) 600) eqn:E.
  - apply Qle_bool_iff in E.
    replace (Qltb 600 (startTimeMs - lastTime)) with false
      by (symmetry; apply Qltb_ge; exact E).
    rewrite andb_false_r. reflexivity.
  - assert (Hlt : Qltb 600 (startTimeMs - lastTime) = true).
    { destruct (Qltb 600 (startTimeMs - lastTime)) eqn:E'; [reflexivity|].
      apply Qltb_ge in E'. apply Qle_bool_iff in E'. congruence. }
    rewrite Hlt, andb_true_r. destruct cur; reflexivity.
Qed.

(** A run of processed frames without a detection keeps the arrival time
    and keeps the snapshot exactly while every gap is within the window. *)
Lemma runLoop_absent_2D (fl : Flags) (ts : list (Tick Q)) (st : LoopState Q) :
  enable3DAvatar fl = false ->
  allProcessed (lastVideoTimeRef st) ts = true ->
  Forall (fun u => frameSnapshot fl u = None) ts ->
  lastFaceResultTimeRef (runLoop fl st ts) = lastFaceResultTimeRef st
  /\ faceSnapshotRef (runLoop fl st ts)
     = if forallb (fun u => Qle_bool (now u - lastFaceResultTimeRef st) 600) ts
       then faceSnapshotRef st else None.
Proof.
  intros H3d. revert st. induction ts as [|t ts IH]; intros st Hp Ha.
  - cbn. auto.
  - cbn [allProcessed] in Hp.
    apply andb_true_iff in Hp as [Hp Hrest]. apply andb_true_iff in Hp as [Hr Ht].
    apply negb_true_iff in Ht.
    inversion Ha as [|? ? Hnone Ha']; subst.
    destruct (renderLoop_processed fl st t Hr Ht) as (Hs & Hl & Hv).
    rewrite Hnone, holdStep_absent_2D in Hs, Hl by exact H3d.
    cbn [fst snd] in Hs, Hl.
    cbn [runLoop fold_left forallb].
    change (fold_left (fun s u => fst (renderLoop fl s u)) ts
                      (fst (renderLoop fl st t)))
      with (runLoop fl (fst (renderLoop fl st t)) ts).
    destruct (IH (fst (renderLoop fl st t))) as [IH1 IH2];
      [rewrite Hv; exact Hrest | exact Ha' |].
    rewrite IH1, IH2, Hl, Hs. clear IH IH1 IH2. split; [reflexivity|].
    destruct (Qle_bool (now t - lastFaceResultTimeRef st) 600); cbn [andb].
    + reflexivity.
    + destruct (forallb _ ts); reflexivity.
Qed.

(** C1.  Hold window of the 2D path.  With the 3D avatar disabled, a
    processed frame that yields a snapshot makes it the effective snapshot
    and records its arrival time; over the later processed frames that
    yield none, the arrival time stays, and after each such frame (the
    clock not having run backwards) the effective snapshot is still that
    snapshot if the gap since the arrival is at most 600 ms and is null if
    the gap exceeds 600 ms. *)
Theorem hold_window_2D (fl : Flags) (st : LoopState Q)
    (t0 : Tick Q) (s : FaceSnapshot Q) (ts : list (Tick Q)) (t : Tick Q) :
  enable3DAvatar fl = false ->
  allProcessed (lastVideoTimeRef st) (t0 :: ts ++ [t]) = true ->
  frameSnapshot fl t0 = Some s ->
  Forall (fun u => frameSnapshot fl u = None) (ts ++ [t]) ->
  Forall (fun u => now u <= now t) ts ->
  let st0 := fst (renderLoop fl st t0) in
  let st' := runLoop fl st0 (ts ++ [t]) in
  faceSnapshotRef st0 = Some s
  /\ lastFaceResultTimeRef st0 = now t0
  /\ lastFaceResultTimeRef st' = now t0
  /\ faceSnapshotRef st'
     = if Qle_bool (now t - now t0) 600 then Some s else None.
Proof.
  intros H3d Hp Hs Ha Hmono st0 st'.
  cbn [allProcessed] in Hp.
  apply andb_true_iff in Hp as [Hp Hrest]. apply andb_true_iff in Hp as [Hr Ht].
  apply negb_true_iff in Ht.
  destruct (renderLoop_processed fl st t0 Hr Ht) as (Hs0 & Hl0 & Hv0).
  rewrite Hs in Hs0, Hl0. cbn in Hs0, Hl0.
  fold st0 in Hs0, Hl0, Hv0.
  destruct (runLoop_absent_2D fl (ts ++ [t]) st0 H3d) as [H1 H2];
    [rewrite Hv0; exact Hrest | exact Ha |].
  fold st' in H1, H2. rewrite Hl0 in H1, H2. rewrite Hs0 in H2.
  repeat split; try assumption.
  rewrite H2, forallb_app. cbn [forallb]. rewrite andb_true_r.
  destruct (Qle_bool (now t - now t0) 600) eqn:E.
  - rewrite andb_true_r.
    replace (forallb (fun u => Qle_bool (now u - now t0) 600) ts) with true;
      [reflexivity|].
    symmetry. apply forallb_forall. intros u Hu.
    rewrite Forall_forall in Hmono. specialize (Hmono u).
    apply Qle_bool_iff. apply Qle_bool_iff in E.
    assert (now u <= now t) by (apply Hmono; apply list_elem_of_In; exact Hu).
    lra.
  - rewrite andb_false_r. reflexivity.
Qed.
Lemma hold_window_2D_witness :
  faceSnapshotRef
    (runLoop flags2D
       (fst (renderLoop flags2D initialLoopState (frameAt 1 1000 (Some sampleResult))))
       ([frameAt 2 1300 None] ++ [frameAt 3 1600 None]))
  = Some sampleSnapshot.
Proof.
  refine (proj2 (proj2 (proj2
            (hold_window_2D flags2D initialLoopState
               (frameAt 1 1000 (Some sampleResult)) sampleSnapshot
               [frameAt 2 1300 None] (frameAt 3 1600 None) _ _ _ _ _)))).
  - reflexivity.
  - reflexivity.
  - reflexivity.
  - repeat constructor.
  - repeat constructor. discriminate.
Defined.

(** The boundary of the window: kept at a gap of exactly 600 ms, cleared
    at 601 ms. *)
Example hold_window_boundary :
  faceSnapshotRef
    (runLoop flags2D initialLoopState
       [frameAt 1 1000 (Some sampleResult); frameAt 2 1600 None])
  = Some sampleSnapshot
  /\ faceSnapshotRef
       (runLoop flags2D initialLoopState
          [frameAt 1 1000 (Some sampleResult); frameAt 2 1601 None])
     = None.
Proof. split; reflexivity. Qed.

End HoldWindowQ.

(** ** The pose snapshot builder *)

Section BuilderFacts.
Context {num : Type}.

(** C6.  [buildFaceSnapshot] returns no snapshot exactly when the
    result carries no face landmarks.  Otherwise the snapshot has a matrix
    if and only if the first element of [facialTransformationMatrixes] is a
    flat array, or a wrapper with a [data] buffer, of at least 16 elements,
    and the matrix is then the first 16 elements of that array or buffer:
    it has 16 elements and its [i]-th is the [i]-th of the array or buffer.
    The blendshapes are there exactly when the first element of
    [faceBlendshapes] has categories, and are then, one for one and in
    order, the categories with their names and their scores as they are. *)
Theorem buildFaceSnapshot_contract
    (result : FaceLandmarkerResult num) (stamp : num) :
  (buildFaceSnapshot result stamp = None
   <-> faceLandmarks result = None \/ faceLandmarks result = Some [])
  /\ forall snap, buildFaceSnapshot result stamp = Some snap ->
       (is_Some (matrix snap)
        <-> exists d rest,
              (facialTransformationMatrixes result = Some (RawArray d :: rest)
               \/ facialTransformationMatrixes result
                  = Some (RawWrapper (Some d) :: rest))
              /\ (16 <= length d)%nat)
       /\ (forall d rest,
             facialTransformationMatrixes result = Some (RawArray d :: rest)
             \/ facialTransformationMatrixes result
                = Some (RawWrapper (Some d) :: rest) ->
             (16 <= length d)%nat ->
             exists m,
               matrix snap = Some m
               /\ length m = 16%nat
               /\ forall i, (i < 16)%nat -> m !! i = d !! i)
       /\ (is_Some (blendshapes snap)
           <-> exists cats rest,
                 faceBlendshapes result
                 = Some (mkClassifications (Some cats) :: rest))
       /\ (forall cats rest,
             faceBlendshapes result = Some (mkClassifications (Some cats) :: rest) ->
             exists shapes,
               blendshapes snap = Some shapes
               /\ length shapes = length cats
               /\ forall i c,
                    cats !! i = Some c ->
                    exists shape,
                      shapes !! i = Some shape
                      /\ bs_name shape = categoryName c
                      /\ bs_score shape = cat_score c)
       /\ timestamp snap = stamp.
Proof.
  unfold buildFaceSnapshot.
  destruct (faceLandmarks result) as [[|face0 faces]|].
  - split; [split; auto|]. intros snap; discriminate.
  - split.
    { split; [discriminate|]. intros [Hn|Hn]; discriminate. }
    intros snap Hsnap. apply (inj Some) in Hsnap. subst snap.
    cbv beta iota delta [matrix blendshapes timestamp].
    unfold firstRawMatrix, firstCategories.
    split; [|split; [|split; [|split; [|reflexivity]]]].
    + split.
      * intros [m Hm].
        destruct (facialTransformationMatrixes result) as [[|[a|[d|]|] rest]|];
          cbv beta iota delta [rawDataOf head] in Hm; try discriminate Hm.
        -- destruct (16 <=? length a)%nat eqn:E; [|discriminate Hm].
           apply Nat.leb_le in E. exists a, rest. auto.
        -- destruct (16 <=? length d)%nat eqn:E; [|discriminate Hm].
           apply Nat.leb_le in E. exists d, rest. auto.
      * intros (d & rest & [Hr|Hr] & Hlen); rewrite Hr;
          cbv beta iota delta [rawDataOf head];
          apply Nat.leb_le in Hlen; rewrite Hlen; eexists; reflexivity.
    + intros d rest Hr Hlen. exists (take 16 d).
      split; [|split].
      * destruct Hr as [Hr|Hr]; rewrite Hr; cbv beta iota delta [rawDataOf head];
          apply Nat.leb_le in Hlen; rewrite Hlen; reflexivity.
      * rewrite length_take. lia.
      * intros i Hi. apply lookup_take_lt. exact Hi.
    + split.
      * intros [shapes Hs].
        destruct (faceBlendshapes result) as [[|[[cats|]] rest]|];
          try discriminate Hs.
        exists cats, rest. reflexivity.
      * intros (cats & rest & Hr). rewrite Hr. eexists. reflexivity.
    + intros cats rest Hr. rewrite Hr. cbn [categories option_map].
      eexists. split; [reflexivity|]. split; [apply length_map|].
      intros i c Hc.
      exists (mkBlendshape (categoryName c) (cat_score c)).
      split; [|split; reflexivity].
      change (map ?f cats) with (f <$> cats).
      rewrite list_lookup_fmap, Hc. reflexivity.
  - split; [split; auto|]. intros snap; discriminate.
Qed.
End BuilderFacts.

Lemma buildFaceSnapshot_contract_witness :
  (exists m, matrix sampleSnapshot = Some m
             /\ length m = 16%nat
             /\ forall i, (i < 16)%nat -> m !! i = sampleMatrix !! i)
  /\ timestamp sampleSnapshot = 1000%Q.
Proof.
  destruct (proj2 (buildFaceSnapshot_contract sampleResult 1000%Q)
                  sampleSnapshot eq_refl) as (_ & Hm & _ & _ & Ht).
  split; [|exact Ht].
  apply (Hm sampleMatrix []); [right; reflexivity|]. cbn. lia.
Defined.

(** ** The avatar frame: rotation *)

(** Case analysis on the early return of the frame. *)
Ltac case_frame st :=
  cbv zeta;
  destruct (groupRef st) as [?g|];
  try match goal with
      | |- context [heldFaceBox ?a ?b ?c ?d] => destruct (heldFaceBox a b c d)
      end;
  try match goal with
      | |- context [truthy ?w && truthy ?h] => destruct (truthy w && truthy h)
      end.

Section RotationFacts.
Context {num : Type} `{Number num} `{Runtime num}.
Local Open Scope js_scope.

Lemma hasValidMatrixOf_nonfinite (md : list num) (i : nat) (v : num) :
  (i < 16)%nat -> md !! i = Some v -> isFinite v = false ->
  hasValidMatrixOf (Some md) = false.
Proof.
  intros Hi Hv Hfin. unfold hasValidMatrixOf.
  apply andb_false_iff. right.
  destruct (forallb isFinite (take 16 md)) eqn:E; [|reflexivity].
  rewrite forallb_forall in E.
  rewrite <- (E v), Hfin; [reflexivity|].
  apply list_elem_of_In, list_elem_of_lookup. exists i.
  rewrite lookup_take_lt by exact Hi. exact Hv.
Qed.

Lemma smoothRotation_invalid (st : AvatarState num) (inp : AvatarInput num)
    (groupQuat : Quaternion num) :
  hasValidMatrixOf
    (match av_snapshot inp with Some s => matrix s | None => None end) = false ->
  smoothRotation st inp groupQuat
  = (targetQuatRef st, smoothQuatRef st, hasRotationRef st, groupQuat).
Proof.
  intros Hinv. unfold smoothRotation. rewrite Hinv. reflexivity.
Qed.

Lemma useFrame_rotation_skipped (st : AvatarState num) (inp : AvatarInput num) :
  hasValidMatrixOf
    (match av_snapshot inp with Some s => matrix s | None => None end) = false ->
  targetQuatRef (useFrame st inp) = targetQuatRef st
  /\ smoothQuatRef (useFrame st inp) = smoothQuatRef st
  /\ hasRotationRef (useFrame st inp) = hasRotationRef st
  /\ (quaternion <$> groupRef (useFrame st inp)) = (quaternion <$> groupRef st).
Proof.
  intros Hinv. unfold useFrame.
  destruct (enabled inp); cbn [negb].
  2: { destruct (groupRef st); cbn; auto. }
  case_frame st; try rewrite smoothRotation_invalid by exact Hinv; cbn; auto.
Qed.

Lemma latestFaceBoxOf_withMatrix (inp : AvatarInput num) (m : option (list num)) :
  latestFaceBoxOf (withMatrix inp m) = latestFaceBoxOf inp.
Proof.
  unfold latestFaceBoxOf, withMatrix. cbn [av_snapshot frame mirror].
  destruct (av_snapshot inp); reflexivity.
Qed.

(** Position and scale do not read the matrix. *)
Lemma useFrame_placement_withMatrix (st : AvatarState num)
    (inp : AvatarInput num) (m : option (list num)) :
  smoothPositionRef (useFrame st (withMatrix inp m))
  = smoothPositionRef (useFrame st inp)
  /\ smoothScaleRef (useFrame st (withMatrix inp m))
     = smoothScaleRef (useFrame st inp)
  /\ hasPositionRef (useFrame st (withMatrix inp m))
     = hasPositionRef (useFrame st inp)
  /\ (position <$> groupRef (useFrame st (withMatrix inp m)))
     = (position <$> groupRef (useFrame st inp))
  /\ (scale <$> groupRef (useFrame st (withMatrix inp m)))
     = (scale <$> groupRef (useFrame st inp))
  /\ (visible <$> groupRef (useFrame st (withMatrix inp m)))
     = (visible <$> groupRef (useFrame st inp)).
Proof.
  unfold useFrame. rewrite latestFaceBoxOf_withMatrix.
  change (enabled (withMatrix inp m)) with (enabled inp).
  change (frame (withMatrix inp m)) with (frame inp).
  change (av_now (withMatrix inp m)) with (av_now inp).
  destruct (enabled inp); cbn [negb]; [|repeat split].
  case_frame st; repeat split.
Qed.

(** C5.  A frame whose snapshot carries a matrix with a non-finite
    value among its first 16 components skips the rotation update: the
    smoothed quaternion, the target quaternion, the rotation flag and the
    quaternion of the group are after the frame what they were before; the
    smoothed position and scale of the frame are those the same frame
    gives with any other matrix. *)
Theorem nonfinite_matrix_skips_rotation
    (st : AvatarState num) (inp : AvatarInput num)
    (s : FaceSnapshot num) (md : list num) (i : nat) (v : num) :
  av_snapshot inp = Some s ->
  matrix s = Some md ->
  (i < 16)%nat -> md !! i = Some v -> isFinite v = false ->
  smoothQuatRef (useFrame st inp) = smoothQuatRef st
  /\ targetQuatRef (useFrame st inp) = targetQuatRef st
  /\ hasRotationRef (useFrame st inp) = hasRotationRef st
  /\ (quaternion <$> groupRef (useFrame st inp)) = (quaternion <$> groupRef st)
  /\ forall m,
       smoothPositionRef (useFrame st (withMatrix inp m))
       = smoothPositionRef (useFrame st inp)
       /\ smoothScaleRef (useFrame st (withMatrix inp m))
          = smoothScaleRef (useFrame st inp)
       /\ (position <$> groupRef (useFrame st (withMatrix inp m)))
          = (position <$> groupRef (useFrame st inp))
       /\ (scale <$> groupRef (useFrame st (withMatrix inp m)))
          = (scale <$> groupRef (useFrame st inp)).
Proof.
  intros Hs Hm Hi Hv Hfin.
  assert (Hinv : hasValidMatrixOf
            (match av_snapshot inp with Some s => matrix s | None => None end)
            = false).
  { rewrite Hs, Hm. eapply hasValidMatrixOf_nonfinite; eassumption. }
  destruct (useFrame_rotation_skipped st inp Hinv) as (Ht & Hq & Hr & Hg).
  repeat split; try assumption;
    destruct (useFrame_placement_withMatrix st inp m) as (? & ? & ? & ? & ? & ?);
    assumption.
Qed.
End RotationFacts.

Lemma nonfinite_matrix_skips_rotation_witness :
  smoothQuatRef (useFrame (H0 := sampleRuntime) sampleAvatarState nanAvatarInput)
  = smoothQuatRef sampleAvatarState.
Proof.
  refine (proj1 (@nonfinite_matrix_skips_rotation xnum _ sampleRuntime
                   sampleAvatarState nanAvatarInput nanSnapshot _ 1%nat XNaN
                   _ _ _ _ _)).
  - reflexivity.
  - reflexivity.
  - lia.
  - reflexivity.
  - reflexivity.
Defined.

(** ** The avatar frame: expression weights *)

Section BlendshapeFacts.
Context {num : Type} `{Number num}.
Local Open Scope js_scope.

Lemma applyShape_applied (dict : gmap string nat) (state : gmap string num)
    (infl : gmap nat num) (shape : Blendshape num) (index : nat) :
  dict !! bs_name shape = Some index ->
  applyShape (Some dict) (state, Some infl) shape
  = (<[bs_name shape := smoothedWeight (state !! bs_name shape) shape]> state,
     Some (<[index := clamp01 (smoothedWeight (state !! bs_name shape) shape)]> infl)).
Proof.
  intros Hd. unfold applyShape, smoothedWeight, clamp01, isGaze. rewrite Hd.
  destruct (String.prefix "eyeLook" (bs_name shape)); reflexivity.
Qed.

Lemma applyShape_unknown (dict : gmap string nat)
    (acc : gmap string num * option (gmap nat num)) (shape : Blendshape num) :
  dict !! bs_name shape = None ->
  applyShape (Some dict) acc shape = acc.
Proof.
  intros Hd. unfold applyShape. destruct acc as [state infl]. rewrite Hd.
  reflexivity.
Qed.

(** The loop keeps the influences array in place, leaves alone the state of
    names it does not visit and the influences no visited name maps to. *)
Lemma applyBlendshapes_frame (dict : gmap string nat)
    (shapes : list (Blendshape num)) (state : gmap string num)
    (infl : gmap nat num) :
  exists state' infl',
    applyBlendshapes (Some dict) shapes (state, Some infl) = (state', Some infl')
    /\ (forall name, ~ In name (map bs_name shapes) -> state' !! name = state !! name)
    /\ (forall index,
          (forall sh, In sh shapes -> dict !! bs_name sh <> Some index) ->
          infl' !! index = infl !! index).
Proof.
  revert state infl. induction shapes as [|sh shapes IH]; intros state infl.
  - exists state, infl. cbn. auto.
  - cbn [applyBlendshapes fold_left].
    destruct (dict !! bs_name sh) as [ix|] eqn:Hd.
    + rewrite (applyShape_applied _ _ _ _ _ Hd).
      destruct (IH (<[bs_name sh := smoothedWeight (state !! bs_name sh) sh]> state)
                   (<[ix := clamp01 (smoothedWeight (state !! bs_name sh) sh)]> infl))
        as (state' & infl' & Hrun & Hst & Hin).
      exists state', infl'. split; [exact Hrun|]. split.
      * intros name Hname. rewrite Hst.
        -- apply lookup_insert_ne. intros <-. apply Hname. left. reflexivity.
        -- intros Hn. apply Hname. right. exact Hn.
      * intros index Hindex. rewrite Hin.
        -- apply lookup_insert_ne. intros ->.
           apply (Hindex sh); [left; reflexivity | exact Hd].
        -- intros sh' Hsh'. apply Hindex. right. exact Hsh'.
    + rewrite (applyShape_unknown _ _ _ Hd).
      destruct (IH state infl) as (state' & infl' & Hrun & Hst & Hin).
      exists state', infl'. split; [exact Hrun|]. split.
      * intros name Hname. apply Hst. intros Hn. apply Hname. right. exact Hn.
      * intros index Hindex. apply Hin.
        intros sh' Hsh'. apply Hindex. right. exact Hsh'.
Qed.

(** With unique names, every shape the mesh knows gets its smoothed weight
    as state and, unless a later shape writes the same influence, the
    clamped weight as influence. *)
Lemma applyBlendshapes_weights (dict : gmap string nat)
    (shapes : list (Blendshape num)) (state : gmap string num)
    (infl : gmap nat num) :
  NoDup (map bs_name shapes) ->
  exists state' infl',
    applyBlendshapes (Some dict) shapes (state, Some infl) = (state', Some infl')
    /\ forall shape index,
         In shape shapes ->
         dict !! bs_name shape = Some index ->
         state' !! bs_name shape
         = Some (smoothedWeight (state !! bs_name shape) shape)
         /\ ((forall other, In other shapes ->
                dict !! bs_name other = Some index ->
                bs_name other = bs_name shape) ->
             infl' !! index
             = Some (clamp01 (smoothedWeight (state !! bs_name shape) shape))).
Proof.
  revert state infl. induction shapes as [|sh shapes IH]; intros state infl Hnd.
  - exists state, infl. split; [reflexivity|]. intros shape index [].
  - cbn [map] in Hnd. apply NoDup_cons in Hnd as [Hfresh Hnd].
    rewrite list_elem_of_In in Hfresh.
    cbn [applyBlendshapes fold_left].
    destruct (dict !! bs_name sh) as [ix|] eqn:Hd.
    + rewrite (applyShape_applied _ _ _ _ _ Hd).
      set (w := smoothedWeight (state !! bs_name sh) sh).
      destruct (IH (<[bs_name sh := w]> state) (<[ix := clamp01 w]> infl) Hnd)
        as (state' & infl' & Hrun & Hall).
      destruct (applyBlendshapes_frame dict shapes
                  (<[bs_name sh := w]> state) (<[ix := clamp01 w]> infl))
        as (state2 & infl2 & Hrun2 & Hst & Hin).
      change (fold_left (applyShape (Some dict)) shapes)
        with (applyBlendshapes (Some dict) shapes) in *.
      rewrite Hrun in Hrun2. injection Hrun2 as <- <-.
      exists state', infl'. split; [exact Hrun|].
      intros shape index [<-|Hshape] Hix.
      * rewrite Hd in Hix. injection Hix as <-. split.
        -- rewrite Hst by exact Hfresh. apply lookup_insert_eq.
        -- intros Hinj. rewrite Hin; [apply lookup_insert_eq|].
           intros sh' Hsh' Hdict. apply Hfresh.
           rewrite <- (Hinj sh' (or_intror Hsh') Hdict).
           apply in_map. exact Hsh'.
      * assert (Hne : bs_name sh <> bs_name shape).
        { intros Heq. apply Hfresh. rewrite Heq. apply in_map. exact Hshape. }
        destruct (Hall shape index Hshape Hix) as [Hs Hi].
        rewrite lookup_insert_ne in Hs, Hi by exact Hne.
        split; [exact Hs|].
        intros Hinj. apply Hi. intros other Ho. apply Hinj. right. exact Ho.
    + rewrite (applyShape_unknown _ _ _ Hd).
      destruct (IH state infl Hnd) as (state' & infl' & Hrun & Hall).
      exists state', infl'. split; [exact Hrun|].
      intros shape index [<-|Hshape] Hix; [congruence|].
      destruct (Hall shape index Hshape Hix) as [Hs Hi].
      split; [exact Hs|].
      intros Hinj. apply Hi. intros other Ho. apply Hinj. right. exact Ho.
Qed.
End BlendshapeFacts.

Section FrameFacts.
Context {num : Type} `{Number num} `{Runtime num}.

(** A frame that leaves the group visible ran to its end: its refs are the
    results of the three smoothing stages. *)
Lemma useFrame_visible (st : AvatarState num) (inp : AvatarInput num) :
  (visible <$> groupRef (useFrame st inp)) = Some true ->
  exists group faceBox,
    groupRef st = Some group
    /\ heldFaceBox (latestFaceBoxOf inp)
         (match latestFaceBoxOf inp with
          | Some b => Some b
          | None => lastFaceBoxRef st
          end)
         (match latestFaceBoxOf inp with
          | Some _ => av_now inp
          | None => lastFaceBoxTimeRef st
          end) (av_now inp) = Some faceBox
    /\ smoothPositionRef (useFrame st inp) = fst (smoothPlacement st inp faceBox)
    /\ smoothScaleRef (useFrame st inp) = snd (smoothPlacement st inp faceBox)
    /\ smoothQuatRef (useFrame st inp)
       = snd (fst (fst (smoothRotation st inp (quaternion group))))
    /\ blendshapeStateRef (useFrame st inp) = fst (smoothBlendshapes st inp)
    /\ morphTargetMeshRef (useFrame st inp) = snd (smoothBlendshapes st inp).
Proof.
  unfold useFrame. destruct (enabled inp); cbn [negb].
  2: { destruct (groupRef st); cbn; discriminate. }
  cbv zeta. destruct (groupRef st) as [g|]; [|cbn; discriminate].
  match goal with
  | |- context [heldFaceBox ?a ?b ?c ?d] => destruct (heldFaceBox a b c d) as [fb|]
  end; [|cbn; discriminate].
  destruct (truthy (fs_width (frame inp)) && truthy (fs_height (frame inp)));
    [|cbn; discriminate].
  intros _. exists g, fb. cbn. repeat split.
Qed.
End FrameFacts.

Section ExpressionWeightsQ.
Local Open Scope Q_scope.

Lemma clamp01_range (w : Q) :
  0 <= clamp01 w <= 1 /\ (0 <= w <= 1 -> clamp01 w == w).
Proof.
  unfold clamp01. cbn [Math_min Math_max Q_Number lit].
  destruct (Qltb 0 w) eqn:E0.
  - apply Qltb_lt in E0. destruct (Qltb w 1) eqn:E1.
    + apply Qltb_lt in E1. split; [lra | reflexivity].
    + apply Qltb_ge in E1. split; [lra | lra].
  - apply Qltb_ge in E0. replace (Qltb 0 1) with true by reflexivity.
    split; [lra | lra].
Qed.

(** C9.  On a frame that applies expression weights, with the names of
    the snapshot's blendshapes unique, every blendshape the mesh has a morph
    target for gets as its smoothed state the interpolation of its previous
    smoothed state (0 without one) towards its score with factor 0.25, or for
    a gaze name towards 0.4 times its score with factor 0.15, and the mesh
    influence of its morph target (no other name of the frame sharing that
    target) is that value held to [0, 1]. *)
Theorem expression_weights_smoothed `{Runtime Q}
    (st : AvatarState Q) (inp : AvatarInput Q) (s : FaceSnapshot Q)
    (shapes : list (Blendshape Q)) (mesh : Mesh Q)
    (dict : gmap string nat) (infl : gmap nat Q)
    (shape : Blendshape Q) (index : nat) :
  (visible <$> groupRef (useFrame st inp)) = Some true ->
  av_snapshot inp = Some s ->
  blendshapes s = Some shapes ->
  NoDup (map bs_name shapes) ->
  morphTargetMeshRef st = Some mesh ->
  morphTargetDictionary mesh = Some dict ->
  morphTargetInfluences mesh = Some infl ->
  In shape shapes ->
  dict !! bs_name shape = Some index ->
  (forall other, In other shapes -> dict !! bs_name other = Some index ->
     bs_name other = bs_name shape) ->
  let prev := blendshapeStateRef st !! bs_name shape in
  let next :=
    if isGaze (bs_name shape)
    then lerp (default 0 prev) (bs_score shape * 0.4) 0.15
    else lerp (default 0 prev) (bs_score shape) 0.25 in
  blendshapeStateRef (useFrame st inp) !! bs_name shape = Some next
  /\ exists infl' applied,
       (morphTargetInfluences <$> morphTargetMeshRef (useFrame st inp))
       = Some (Some infl')
       /\ infl' !! index = Some applied
       /\ applied = Math_min 1 (Math_max 0 next)
       /\ 0 <= applied <= 1
       /\ (0 <= next <= 1 -> applied == next).
Proof.
  intros Hvis Hs Hb Hnd Hmesh Hdict Hinfl Hin Hix Hinj prev next.
  destruct (useFrame_visible st inp Hvis)
    as (g & fb & _ & _ & _ & _ & _ & Hstate & Hm).
  rewrite Hstate, Hm. unfold smoothBlendshapes. rewrite Hs, Hb, Hmesh.
  destruct shapes as [|shape0 shapes']; [destruct Hin|].
  rewrite Hdict, Hinfl.
  destruct (applyBlendshapes_weights dict (shape0 :: shapes')
              (blendshapeStateRef st) infl Hnd)
    as (state' & infl' & Hrun & Hall).
  rewrite Hrun. cbn [fst snd].
  destruct (Hall shape index Hin Hix) as [Hst Hi].
  split; [exact Hst|].
  exists infl', (clamp01 next). split; [reflexivity|].
  split; [apply Hi; exact Hinj|].
  split; [reflexivity|].
  apply clamp01_range.
Qed.
Lemma expression_weights_smoothed_witness :
  blendshapeStateRef
    (useFrame (H0 := sampleRuntime) sampleAvatarState sampleAvatarInput)
  !! "eyeLookInLeft"
  = Some (lerp 0 (0.5 * 0.4) 0.15).
Proof.
  refine (proj1 (@expression_weights_smoothed sampleRuntime
                   sampleAvatarState sampleAvatarInput sampleSnapshot
                   [mkBlendshape "jawOpen" 0.5; mkBlendshape "eyeLookInLeft" 0.5]
                   (mkMesh (Some {["jawOpen" := 0%nat; "eyeLookInLeft" := 1%nat]})
                           (Some ∅))
                   {["jawOpen" := 0%nat; "eyeLookInLeft" := 1%nat]} ∅
                   (mkBlendshape "eyeLookInLeft" 0.5) 1%nat
                   _ _ _ _ _ _ _ _ _ _)).
  - vm_compute. reflexivity.
  - reflexivity.
  - reflexivity.
  - cbn [map bs_name]. apply NoDup_cons_2; [|apply NoDup_singleton].
    intros Hin. apply list_elem_of_In in Hin. destruct Hin as [E|[]].
    discriminate E.
  - reflexivity.
  - reflexivity.
  - reflexivity.
  - right. left. reflexivity.
  - vm_compute. reflexivity.
  - intros other [<-|[<-|[]]] Hd; [vm_compute in Hd; discriminate Hd | reflexivity].
Defined.

End ExpressionWeightsQ.

(** ** The compositor *)

Section CompositorFacts.
Context {num : Type} `{Number num}.

Lemma drawLandmarks_overlay (cw ch : num) (lms : list (Landmark num)) :
  forallb isOverlayOp (flat_map (drawLandmark cw ch) lms) = true.
Proof.
  induction lms as [|p lms IH]; [reflexivity|]. cbn. exact IH.
Qed.

(** C8, as the code has it.  With background replacement disabled, or
    no mask in the segmentation, the mask and person buffers are not
    touched and the background layer is one direct draw of the video frame
    inside the frame's bracket, followed only by what the face layer draws.
    When the face layer draws nothing (face swap off, or no face box), the
    calls of the frame are exactly those of a single direct draw.
    Otherwise, with face swap on and a snapshot with landmarks, the overlay
    is drawn on top of the video: the overlay image, when there is one, once
    and exactly over the face box computed from the landmarks on the canvas
    (paddings 0.2 and 0.4, shift 0.3, mirrored with the camera); without an
    image, the fill style and then one marker of radius 1.5 per landmark, at
    the landmark's position on the canvas, in the order of the landmarks. *)
Theorem compositor_passthrough (pr : CompositorProps) (st : CompositorState num)
    (canvas : FrameSize num) (segmentation : option (ImageSegmenterResult num))
    (snapshot : option (FaceSnapshot num)) :
  cp_enableBackgroundReplace pr = false \/ selectMask segmentation = None ->
  let st' := drawComposition pr st canvas segmentation snapshot in
  let video :=
    DrawImage SrcVideo (lit 0) (lit 0) (fs_width canvas) (fs_height canvas) in
  maskCanvasRef st' = maskCanvasRef st
  /\ personCanvasRef st' = personCanvasRef st
  /\ closedSegmentations st' = closedSegmentations st
  /\ (exists face,
        forallb isOverlayOp face = true
        /\ ctx_ops st'
           = ctx_ops st ++ framed (mirrorCamera pr) canvas (video :: face))
  /\ (cp_enableFaceSwap pr = false \/ faceBoxRef st' = None ->
      ctx_ops st' = ctx_ops st ++ directDraw (mirrorCamera pr) canvas)
  /\ (forall s img,
        cp_enableFaceSwap pr = true ->
        snapshot = Some s -> landmarks s <> [] ->
        faceOverlayImage pr = Some img ->
        let box := computeFaceBox (landmarks s) (fs_width canvas) (fs_height canvas)
                                  (lit 0.2) (lit 0.4) (lit 0.3) (mirrorCamera pr) in
        faceBoxRef st' = Some box
        /\ ctx_ops st'
           = ctx_ops st
             ++ framed (mirrorCamera pr) canvas
                  [video;
                   DrawImage (SrcImage img) (fb_x box) (fb_y box)
                             (fb_width box) (fb_height box)])
  /\ (forall s,
        cp_enableFaceSwap pr = true ->
        snapshot = Some s -> landmarks s <> [] ->
        faceOverlayImage pr = None ->
        ctx_ops st'
        = ctx_ops st
          ++ framed (mirrorCamera pr) canvas
               (video
                :: SetFillStyle "rgba(0, 255, 0, 0.5)"
                :: flat_map
                     (fun p =>
                        [BeginPath;
                         Arc (mul (lm_x p) (fs_width canvas))
                             (mul (lm_y p) (fs_height canvas))
                             (lit 1.5) (lit 0)
                             (mul (lit 2) (lit 3.141592653589793));
                         Fill])
                     (landmarks s))).
Proof.
  intros Hoff st' video. subst st' video. unfold drawComposition.
  assert (Hsel : (if cp_enableBackgroundReplace pr
                  then selectMask segmentation else None) = None).
  { destruct Hoff as [-> | ->]; [reflexivity|].
    destruct (cp_enableBackgroundReplace pr); reflexivity. }
  rewrite Hsel. cbv zeta.
  cbn [ctx_ops maskCanvasRef personCanvasRef closedSegmentations faceBoxRef].
  split; [reflexivity|]. split; [reflexivity|]. split; [reflexivity|].
  unfold directDraw, framed.
  assert (Hlen : forall s : FaceSnapshot num,
            landmarks s <> [] -> (0 <? length (landmarks s))%nat = true).
  { intros s Hne. destruct (landmarks s); [contradiction | reflexivity]. }
  destruct snapshot as [s|]; cbv beta iota.
  2: { split; [exists []; split; reflexivity|]. split; [intros _; reflexivity|].
       split; intros; discriminate. }
  destruct (0 <? length (landmarks s))%nat eqn:El.
  2: { split; [exists []; split; reflexivity|]. split; [intros _; reflexivity|].
       split.
       - intros s' img _ Hs Hne _. apply (inj Some) in Hs. subst s'.
         rewrite (Hlen s Hne) in El. discriminate.
       - intros s' _ Hs Hne _. apply (inj Some) in Hs. subst s'.
         rewrite (Hlen s Hne) in El. discriminate. }
  destruct (cp_enableFaceSwap pr).
  2: { split; [exists []; split; reflexivity|]. split; [intros _; reflexivity|].
       split; intros; discriminate. }
  split; [|split; [|split]].
  - destruct (faceOverlayImage pr) as [img|].
    + eexists. split; [|rewrite <- !app_assoc; reflexivity]. reflexivity.
    + eexists. split; [|rewrite <- !app_assoc; reflexivity].
      cbn [forallb isOverlayOp andb]. apply drawLandmarks_overlay.
  - intros [Hf|Hf]; discriminate Hf.
  - intros s' img _ Hs _ Himg. apply (inj Some) in Hs. subst s'.
    rewrite Himg. split; [reflexivity|].
    rewrite <- !app_assoc. reflexivity.
  - intros s' _ Hs _ Himg. apply (inj Some) in Hs. subst s'.
    rewrite Himg. rewrite <- !app_assoc. reflexivity.
Qed.

(** The face layer computes a box only from a non-empty landmark
    sequence. *)
Lemma drawComposition_box_guard (pr : CompositorProps) (st : CompositorState num)
    (canvas : FrameSize num) (segmentation : option (ImageSegmenterResult num))
    (snapshot : option (FaceSnapshot num)) (b : FaceBox num) :
  faceBoxRef (drawComposition pr st canvas segmentation snapshot) = Some b ->
  exists s,
    snapshot = Some s /\ landmarks s <> []
    /\ b = computeFaceBox (landmarks s) (fs_width canvas) (fs_height canvas)
                          (lit 0.2) (lit 0.4) (lit 0.3) (mirrorCamera pr).
Proof.
  unfold drawComposition. cbv zeta.
  destruct (if cp_enableBackgroundReplace pr then selectMask segmentation else None)
    as [[mask isConfidenceMask]|];
    [destruct (maskCtxAvailable pr && personCtxAvailable pr)|];
    cbn [faceBoxRef]; (destruct snapshot as [s|]; [|discriminate]);
    (destruct (landmarks s) as [|p lms] eqn:El; cbn [length Nat.ltb Nat.leb];
       [discriminate|]);
    intros Hb; apply (inj Some) in Hb; subst b; exists s; rewrite El;
    repeat split; discriminate.
Qed.
End CompositorFacts.

Lemma compositor_passthrough_witness :
  let canvas := mkFrameSize 640%Q 480%Q in
  let box := computeFaceBox (landmarks twoPointSnapshot) 640%Q 480%Q
                            (lit 0.2) (lit 0.4) (lit 0.3) false in
  ctx_ops (drawComposition overlayProps emptyCompositor canvas None None)
  = directDraw false canvas
  /\ ctx_ops (drawComposition overlayProps emptyCompositor canvas None
                (Some twoPointSnapshot))
     = framed false canvas
         [DrawImage SrcVideo 0%Q 0%Q 640%Q 480%Q;
          DrawImage (SrcImage 7%nat) (fb_x box) (fb_y box)
                    (fb_width box) (fb_height box)].
Proof.
  split.
  - refine (proj1 (proj2 (proj2 (proj2 (proj2
              (compositor_passthrough overlayProps emptyCompositor
                 (mkFrameSize 640 480)%Q None None _))))) _).
    + left. reflexivity.
    + right. reflexivity.
  - refine (proj2 (proj1 (proj2 (proj2 (proj2 (proj2 (proj2
              (compositor_passthrough overlayProps emptyCompositor
                 (mkFrameSize 640 480)%Q None (Some twoPointSnapshot) _))))))
              twoPointSnapshot 7%nat eq_refl eq_refl _ eq_refl)).
    + left. reflexivity.
    + discriminate.
Defined.

(** Background replacement is off, yet with face swap on and a face in
    view the frame is more than a direct draw of the video: the overlay
    image is drawn over it. *)
Lemma compositor_passthrough_counterexample :
  cp_enableBackgroundReplace overlayProps = false
  /\ ctx_ops (drawComposition overlayProps emptyCompositor
                (mkFrameSize 640 480)%Q None (Some twoPointSnapshot))
     <> ctx_ops emptyCompositor
        ++ directDraw (mirrorCamera overlayProps) (mkFrameSize 640 480)%Q.
Proof.
  split; [reflexivity|]. vm_compute. discriminate.
Qed.

Section AvatarBoxFacts.
Context {num : Type} `{Number num} `{Runtime num}.

Lemma latestFaceBoxOf_guard (inp : AvatarInput num) (b : FaceBox num) :
  latestFaceBoxOf inp = Some b ->
  exists s,
    av_snapshot inp = Some s /\ landmarks s <> []
    /\ b = computeFaceBox (landmarks s) (fs_width (frame inp)) (fs_height (frame inp))
                          avatarPadX avatarPadY avatarShiftY (mirror inp).
Proof.
  unfold latestFaceBoxOf. destruct (av_snapshot inp) as [s|]; [|discriminate].
  destruct (landmarks s) as [|p lms] eqn:El; [discriminate|].
  destruct (_ && _ && _); [|discriminate].
  intros Hb. apply (inj Some) in Hb. subst b. exists s. rewrite El.
  repeat split. discriminate.
Qed.

Lemma useFrame_lastFaceBox (st : AvatarState num) (inp : AvatarInput num) :
  lastFaceBoxRef (useFrame st inp) = lastFaceBoxRef st
  \/ lastFaceBoxRef (useFrame st inp) = latestFaceBoxOf inp.
Proof.
  unfold useFrame. destruct (enabled inp); cbn [negb]; [|left; reflexivity].
  destruct (latestFaceBoxOf inp) as [b|] eqn:El.
  - right. case_frame st; reflexivity.
  - left. case_frame st; reflexivity.
Qed.

Lemma runFrames_lastFaceBox (inps : list (AvatarInput num)) (st : AvatarState num) :
  (forall b, lastFaceBoxRef st = Some b -> avatarBoxOfLandmarks b) ->
  forall b, lastFaceBoxRef (runFrames st inps) = Some b -> avatarBoxOfLandmarks b.
Proof.
  revert st. induction inps as [|inp inps IH]; intros st Hinv; [exact Hinv|].
  cbn [runFrames fold_left]. apply IH. intros b Hb.
  destruct (useFrame_lastFaceBox st inp) as [E|E]; rewrite E in Hb.
  - apply Hinv. exact Hb.
  - destruct (latestFaceBoxOf_guard inp b Hb) as (s & _ & Hne & ->).
    exists (landmarks s), (fs_width (frame inp)), (fs_height (frame inp)), (mirror inp).
    split; [exact Hne | reflexivity].
Qed.
End AvatarBoxFacts.

(** C10.  For the empty landmark sequence [computeFaceBox] returns a box
    of negative extents, width [- frameWidth (1 + padX)] and height
    [- frameHeight (1 + padY)] with either mirror flag, the scan having left
    [minX = minY = 1] and [maxX = maxY = 0]; the compositor and the avatar
    compute a box only from a non-empty landmark sequence, and the last
    known box the avatar holds is always such a box. *)
Theorem empty_landmarks_box_guarded `{Runtime Q} :
  scanLandmarks (num := Q) [] = mkExtents 1%Q 1%Q 0%Q 0%Q
  /\ (forall frameWidth frameHeight padX padY yShift mirrorX,
        (fb_width (computeFaceBox [] frameWidth frameHeight padX padY yShift mirrorX)
         == - frameWidth * (1 + padX))%Q
        /\ (fb_height (computeFaceBox [] frameWidth frameHeight padX padY yShift mirrorX)
            == - frameHeight * (1 + padY))%Q)
  /\ (forall pr (st : CompositorState Q) canvas segmentation snapshot b,
        faceBoxRef (drawComposition pr st canvas segmentation snapshot) = Some b ->
        exists s,
          snapshot = Some s /\ landmarks s <> []
          /\ b = computeFaceBox (landmarks s) (fs_width canvas) (fs_height canvas)
                                0.2%Q 0.4%Q 0.3%Q (mirrorCamera pr))
  /\ (forall (inp : AvatarInput Q) b,
        latestFaceBoxOf inp = Some b ->
        exists s,
          av_snapshot inp = Some s /\ landmarks s <> []
          /\ b = computeFaceBox (landmarks s)
                                (fs_width (frame inp)) (fs_height (frame inp))
                                0.28%Q 0.55%Q 0.45%Q (mirror inp))
  /\ (forall (st : AvatarState Q) inps b,
        lastFaceBoxRef st = None ->
        lastFaceBoxRef (runFrames st inps) = Some b ->
        avatarBoxOfLandmarks b).
Proof.
  split; [reflexivity|]. split; [intros; apply computeFaceBox_nil|].
  split; [intros pr st canvas segmentation snapshot b Hb;
          exact (drawComposition_box_guard pr st canvas segmentation snapshot b Hb)|].
  split; [intros inp b Hb; exact (latestFaceBoxOf_guard inp b Hb)|].
  intros st inps b Hnone. apply runFrames_lastFaceBox.
  intros b' Hb'. congruence.
Qed.

Lemma empty_landmarks_box_guarded_witness :
  (fb_width (computeFaceBox [] 640 480 0.2 0.4 0.3 true) == - 640 * (1 + 0.2))%Q
  /\ landmarks twoPointSnapshot <> [].
Proof.
  destruct (@empty_landmarks_box_guarded sampleRuntime) as (_ & Hbox & Hdraw & _).
  split; [apply Hbox|].
  destruct (Hdraw overlayProps emptyCompositor (mkFrameSize 640 480)%Q None
                  (Some twoPointSnapshot) _ eq_refl) as (s & Hs & Hne & _).
  apply (inj Some) in Hs. subst s. exact Hne.
Defined.

(** ** The avatar frame: convergence of the smoothing *)

Section SmoothingR.
Local Open Scope R_scope.

Lemma lit_R_1 : lit (num := R) 1 = 1.
Proof. cbn. unfold Q2R. cbn. lra. Qed.

Lemma lit_R_0 : lit (num := R) 0 = 0.
Proof. cbn. unfold Q2R. cbn. lra. Qed.

Lemma lit_R_12 : lit (num := R) 12 = 12.
Proof. cbn. unfold Q2R. cbn. lra. Qed.

(** The smoothing factor of one frame and what it leaves of a distance. *)
Lemma alpha_R (dt : R) :
  0 < dt ->
  let keep := exp (- (12 * dt)) in
  0 < keep < 1 /\ 0 < 1 - keep < 1.
Proof.
  intros Hdt keep. subst keep.
  assert (H0 : 0 < exp (- (12 * dt))) by apply exp_pos.
  assert (H1 : exp (- (12 * dt)) < 1).
  { rewrite <- exp_0. apply exp_increasing. lra. }
  lra.
Qed.

Lemma lerp_R (x y t : R) : lerp x y t - y = (1 - t) * (x - y).
Proof. unfold lerp. cbn. ring. Qed.

Lemma exp_frames (dt : R) (n : nat) :
  exp (- (12 * dt)) ^ n = exp (- (12 * dt * INR n)).
Proof.
  induction n as [|n IH].
  - cbn. replace (- (12 * dt * 0)) with 0 by ring. symmetry. apply exp_0.
  - rewrite S_INR. cbn [pow]. rewrite IH, <- exp_plus. f_equal. ring.
Qed.

Lemma distance_scaled (a b t : Vector3 R) (k : R) :
  0 <= k ->
  v_x a - v_x t = k * (v_x b - v_x t) ->
  v_y a - v_y t = k * (v_y b - v_y t) ->
  v_z a - v_z t = k * (v_z b - v_z t) ->
  distance a t = k * distance b t.
Proof.
  intros Hk Hx Hy Hz. unfold distance. rewrite Hx, Hy, Hz.
  replace ((k * (v_x b - v_x t))² + (k * (v_y b - v_y t))² + (k * (v_z b - v_z t))²)
    with (k² * ((v_x b - v_x t)² + (v_y b - v_y t)² + (v_z b - v_z t)²))
    by (unfold Rsqr; ring).
  rewrite sqrt_mult.
  - rewrite sqrt_Rsqr by exact Hk. reflexivity.
  - apply Rle_0_sqr.
  - repeat apply Rplus_le_le_0_compat; apply Rle_0_sqr.
Qed.

Lemma between_scaled (x x0 t k : R) :
  0 <= k <= 1 -> x - t = k * (x0 - t) -> between x x0 t.
Proof.
  intros Hk Hx. unfold between, Rmin, Rmax.
  destruct (Rle_dec x0 t); split; nra.
Qed.
End SmoothingR.

Section SlerpR.
Local Open Scope R_scope.

Lemma qdot_neg_r (a b : Quaternion R) : qdot a (qneg b) = - qdot a b.
Proof. unfold qdot, qneg. cbn. ring. Qed.

Lemma qdot_neg_neg (a : Quaternion R) : qdot (qneg a) (qneg a) = qdot a a.
Proof. unfold qdot, qneg. cbn. ring. Qed.

Lemma qdot_combine_l (ka kb : R) (a b c : Quaternion R) :
  qdot (qcombine ka a kb b) c = ka * qdot a c + kb * qdot b c.
Proof. unfold qdot, qcombine. cbn. ring. Qed.

Lemma qdot_combine_self (ka kb : R) (a b : Quaternion R) :
  qdot (qcombine ka a kb b) (qcombine ka a kb b)
  = ka * ka * qdot a a + 2 * ka * kb * qdot a b + kb * kb * qdot b b.
Proof. unfold qdot, qcombine. cbn. ring. Qed.

(** Cauchy-Schwarz for unit quaternions, by Lagrange's identity. *)
Lemma qdot_unit_bound (a b : Quaternion R) :
  qunit a -> qunit b -> Rabs (qdot a b) <= 1.
Proof.
  unfold qunit. intros Ha Hb.
  assert (Hsq : qdot a b * qdot a b <= 1).
  { assert (E : qdot a a * qdot b b - qdot a b * qdot a b
                = (q_x a * q_y b - q_y a * q_x b)²
                  + (q_x a * q_z b - q_z a * q_x b)²
                  + (q_x a * q_w b - q_w a * q_x b)²
                  + (q_y a * q_z b - q_z a * q_y b)²
                  + (q_y a * q_w b - q_w a * q_y b)²
                  + (q_z a * q_w b - q_w a * q_z b)²).
    { unfold qdot, Rsqr. ring. }
    assert (0 <= qdot a a * qdot b b - qdot a b * qdot a b).
    { rewrite E. repeat apply Rplus_le_le_0_compat; apply Rle_0_sqr. }
    rewrite Ha, Hb in *. lra. }
  unfold Rabs. destruct (Rcase_abs (qdot a b)); nra.
Qed.

Lemma half_angle_range (c : R) :
  0 <= c < 1 ->
  0 < acos c <= PI / 2 /\ 0 < sin (acos c) /\ cos (acos c) = c.
Proof.
  intros Hc.
  assert (Hb : 0 < acos c < PI) by (apply acos_bound_lt; lra).
  assert (Hcos : cos (acos c) = c) by (apply cos_acos; lra).
  split; [|split; [apply sin_gt_0; lra | exact Hcos]].
  split; [lra|].
  destruct (Rle_dec (acos c) (PI / 2)) as [Hle|Hgt]; [exact Hle|].
  assert (cos (acos c) < 0) by (apply cos_lt_0; lra).
  lra.
Qed.

(** The arc formula: the point at fraction [t] of the arc of angle
    [acos c] from [a] to [b] is a unit quaternion at angle
    [(1 - t) acos c] from [b]. *)
Lemma arc_point (a b : Quaternion R) (t c : R) :
  qunit a -> qunit b -> qdot a b = c -> 0 <= c < 1 -> 0 <= t <= 1 ->
  let theta := acos c in
  let r := qcombine (sin ((1 - t) * theta) / sin theta) a
                    (sin (t * theta) / sin theta) b in
  qunit r /\ qdot r b = cos ((1 - t) * theta)
  /\ 0 <= (1 - t) * theta <= PI / 2.
Proof.
  intros Ha Hb Hab Hc Ht theta r.
  destruct (half_angle_range c Hc) as (Hth & Hsin & Hcos). fold theta in Hth, Hsin, Hcos.
  set (u := (1 - t) * theta). set (v := t * theta).
  assert (Huv : theta = u + v) by (unfold u, v; ring).
  assert (Es : sin theta = sin u * cos v + cos u * sin v)
    by (rewrite Huv; apply sin_plus).
  assert (Ec : c = cos u * cos v - sin u * sin v)
    by (rewrite <- Hcos, Huv; apply cos_plus).
  assert (Eu : sin u * sin u + cos u * cos u = 1)
    by (generalize (sin2_cos2 u); unfold Rsqr; lra).
  assert (Ev : sin v * sin v + cos v * cos v = 1)
    by (generalize (sin2_cos2 v); unfold Rsqr; lra).
  assert (Hne : sin theta <> 0) by lra.
  unfold qunit in *. subst r. fold u v. split; [|split].
  - rewrite qdot_combine_self, Ha, Hb, Hab.
    apply (Rmult_eq_reg_r (sin theta * sin theta)); [|nra].
    field_simplify; [|exact Hne].
    rewrite Es, Ec.
    assert (E : sin u ^ 2 + 2 * sin u * sin v * (cos u * cos v - sin u * sin v)
                + sin v ^ 2
                - (sin u * cos v + cos u * sin v) ^ 2
                = sin u * sin u * (1 - (sin v * sin v + cos v * cos v))
                  + sin v * sin v * (1 - (sin u * sin u + cos u * cos u)))
      by ring.
    rewrite Eu, Ev in E. lra.
  - rewrite qdot_combine_l, Hab, Hb.
    apply (Rmult_eq_reg_r (sin theta)); [|exact Hne].
    field_simplify; [|exact Hne].
    rewrite Es, Ec.
    assert (E : sin u * (cos u * cos v - sin u * sin v) + sin v
                - cos u * (sin u * cos v + cos u * sin v)
                = sin v * (1 - (sin u * sin u + cos u * cos u))) by ring.
    rewrite Eu in E. lra.
  - unfold u. nra.
Qed.

(** One step of spherical interpolation towards [b]: the result is a unit
    quaternion and the half angle to [b] has shrunk by the factor
    [1 - t]. *)
Lemma slerp_step (a b : Quaternion R) (t : R) :
  qunit a -> qunit b -> 0 <= t <= 1 ->
  qunit (slerp a b t)
  /\ acos (Rabs (qdot (slerp a b t) b)) = (1 - t) * acos (Rabs (qdot a b)).
Proof.
  intros Ha Hb Ht. unfold slerp.
  destruct (Rle_dec 1 (Rabs (qdot a b))) as [Hone|Hlt].
  - split; [exact Ha|].
    assert (Rabs (qdot a b) = 1) by (generalize (qdot_unit_bound a b Ha Hb); lra).
    replace (Rabs (qdot a b)) with 1. rewrite acos_1. ring.
  - assert (Hc : 0 <= Rabs (qdot a b) < 1) by (generalize (Rabs_pos (qdot a b)); lra).
    destruct (Rlt_dec (qdot a b) 0) as [Hneg|Hpos].
    + assert (Hb' : qunit (qneg b)) by (unfold qunit; rewrite qdot_neg_neg; exact Hb).
      assert (Hab : qdot a (qneg b) = Rabs (qdot a b))
        by (rewrite qdot_neg_r, Rabs_left by exact Hneg; reflexivity).
      destruct (arc_point a (qneg b) t _ Ha Hb' Hab Hc Ht) as (Hu & Hd & Hr).
      split; [exact Hu|].
      rewrite qdot_neg_r in Hd.
      replace (qdot _ b) with (- cos ((1 - t) * acos (Rabs (qdot a b)))) by lra.
      rewrite Rabs_Ropp, Rabs_pos_eq by (apply cos_ge_0; lra).
      apply acos_cos. generalize PI_RGT_0. lra.
    + assert (Hab : qdot a b = Rabs (qdot a b))
        by (rewrite Rabs_pos_eq by lra; reflexivity).
      destruct (arc_point a b t _ Ha Hb Hab Hc Ht) as (Hu & Hd & Hr).
      split; [exact Hu|].
      rewrite Hd, Rabs_pos_eq by (apply cos_ge_0; lra).
      apply acos_cos. generalize PI_RGT_0. lra.
Qed.
End SlerpR.

Section SteadyFrames.
Local Open Scope R_scope.
Context (rt : Runtime R).
Hypothesis Hexp : @Math_exp R rt = exp.
Hypothesis Hslerp : @Quaternion_slerp R rt = slerp.

Lemma latestFaceBoxOf_truthy (inp : AvatarInput R) (fb : FaceBox R) :
  latestFaceBoxOf inp = Some fb ->
  truthy (fs_width (frame inp)) && truthy (fs_height (frame inp)) = true.
Proof.
  unfold latestFaceBoxOf. destruct (av_snapshot inp); [|discriminate].
  destruct (0 <? length (landmarks f))%nat; [|discriminate].
  cbn [andb]. destruct (_ && _); [reflexivity | discriminate].
Qed.

Lemma smoothing_factor (dt : R) :
  sub (lit 1) (Math_exp (mul (neg (lit 12)) dt)) = 1 - exp (- (12 * dt)).
Proof.
  rewrite Hexp. cbn [sub mul neg R_Number]. rewrite lit_R_1, lit_R_12.
  f_equal. f_equal. ring.
Qed.

(** One frame of a steady run: the position, and with a valid matrix the
    orientation. *)
Lemma steady_frame (st : AvatarState R) (inp : AvatarInput R) (now : R)
    (g : Group R) (fb : FaceBox R) :
  enabled inp = true ->
  groupRef st = Some g ->
  latestFaceBoxOf inp = Some fb ->
  let st' := useFrame st (withNow inp now) in
  let alpha := 1 - exp (- (12 * delta inp)) in
  is_Some (groupRef st')
  /\ hasPositionRef st' = true
  /\ smoothPositionRef st'
     = (if hasPositionRef st
        then Vector3_lerp (smoothPositionRef st) (fst (targetPlacement inp fb)) alpha
        else fst (targetPlacement inp fb))
  /\ forall s md,
       av_snapshot inp = Some s ->
       matrix s = Some md ->
       hasValidMatrixOf (Some md) = true ->
       hasRotationRef st' = true
       /\ smoothQuatRef st'
          = (if hasRotationRef st
             then slerp (smoothQuatRef st) (targetQuatOf md (mirror inp)) alpha
             else targetQuatOf md (mirror inp)).
Proof.
  intros He Hg Hl st' alpha. subst st'.
  unfold useFrame.
  change (enabled (withNow inp now)) with (enabled inp).
  change (latestFaceBoxOf (withNow inp now)) with (latestFaceBoxOf inp).
  change (frame (withNow inp now)) with (frame inp).
  rewrite He, Hg, Hl, (latestFaceBoxOf_truthy inp fb Hl).
  cbn [negb heldFaceBox].
  cbn [groupRef hasPositionRef hasRotationRef smoothPositionRef smoothQuatRef].
  split; [eexists; reflexivity|]. split; [reflexivity|].
  unfold smoothRotation, smoothPlacement.
  change (av_snapshot (withNow inp now)) with (av_snapshot inp).
  change (targetPlacement (withNow inp now) fb) with (targetPlacement inp fb).
  change (delta (withNow inp now)) with (delta inp).
  change (mirror (withNow inp now)) with (mirror inp).
  destruct (targetPlacement inp fb) as [targetPos boxScale].
  unfold positionSmoothing, rotationSmoothing.
  rewrite smoothing_factor, Hslerp. fold alpha.
  cbn [fst snd]. split.
  - destruct (hasPositionRef st); reflexivity.
  - intros s md Hs Hm Hv. rewrite Hs, Hm, Hv. cbn [fst snd]. split; [reflexivity|].
    destruct (hasRotationRef st); reflexivity.
Qed.
End SteadyFrames.

Section SteadyRun.
Local Open Scope R_scope.
Context (rt : Runtime R).
Hypothesis Hexp : @Math_exp R rt = exp.
Hypothesis Hslerp : @Quaternion_slerp R rt = slerp.

Lemma qunit_self_angle (a : Quaternion R) : qunit a -> acos (Rabs (qdot a a)) = 0.
Proof.
  unfold qunit. intros ->. rewrite Rabs_pos_eq by lra. apply acos_1.
Qed.

(** A run of steady frames: what is left of the offset to the target
    position. *)
Lemma steady_run_position (inp : AvatarInput R) (fb : FaceBox R)
    (nows : list R) (st : AvatarState R) :
  enabled inp = true ->
  latestFaceBoxOf inp = Some fb ->
  0 < delta inp ->
  is_Some (groupRef st) ->
  let st' := runFrames st (steadyFrames inp nows) in
  let target := fst (targetPlacement inp fb) in
  let keep := exp (- (12 * delta inp)) ^ length nows in
  is_Some (groupRef st')
  /\ (nows <> [] -> hasPositionRef st' = true)
  /\ exists kp,
       0 <= kp <= keep /\ (hasPositionRef st = true -> kp = keep)
       /\ v_x (smoothPositionRef st') - v_x target
          = kp * (v_x (smoothPositionRef st) - v_x target)
       /\ v_y (smoothPositionRef st') - v_y target
          = kp * (v_y (smoothPositionRef st) - v_y target)
       /\ v_z (smoothPositionRef st') - v_z target
          = kp * (v_z (smoothPositionRef st) - v_z target).
Proof.
  intros He Hl Hdt. revert st.
  induction nows as [|now nows IH]; intros st Hg; cbv zeta in *.
  - cbn [steadyFrames map runFrames fold_left length pow].
    split; [exact Hg|]. split; [intros []; reflexivity|].
    exists 1. split; [lra|]. split; [reflexivity|]. repeat split; ring.
  - destruct Hg as [g Hg].
    destruct (steady_frame rt Hexp Hslerp st inp now g fb He Hg Hl)
      as (Hg1 & Hp1 & HP & _).
    destruct (alpha_R (delta inp) Hdt) as [Hkeep Halpha].
    set (st1 := useFrame st (withNow inp now)) in *.
    destruct (IH st1 Hg1) as (Hg' & _ & (kp & Hkp & Hkpeq & Hx & Hy & Hz)).
    specialize (Hkpeq Hp1). subst kp.
    destruct (IH st1 Hg1) as (_ & Hflag & _).
    change (runFrames st (steadyFrames inp (now :: nows)))
      with (runFrames st1 (steadyFrames inp nows)).
    cbn [length pow].
    set (kn := exp (- (12 * delta inp)) ^ length nows) in *.
    assert (Hkn : 0 < kn) by (apply pow_lt; lra).
    split; [exact Hg'|]. split.
    { intros _. destruct nows as [|now' nows'].
      - exact Hp1.
      - apply Hflag. discriminate. }
    destruct (hasPositionRef st).
    + exists (exp (- (12 * delta inp)) * kn). split; [nra|].
      split; [reflexivity|]. rewrite Hx, Hy, Hz, HP.
      unfold Vector3_lerp. cbn [v_x v_y v_z]. rewrite !lerp_R.
      repeat split; ring.
    + exists 0. split; [nra|]. split; [discriminate|].
      rewrite Hx, Hy, Hz, HP. repeat split; ring.
Qed.

(** A run of steady frames with a valid matrix: the smoothed orientation
    stays a unit quaternion, and what is left of the half angle to the target
    orientation. *)
Lemma steady_run_rotation (inp : AvatarInput R) (fb : FaceBox R)
    (s : FaceSnapshot R) (md : list R) (nows : list R) (st : AvatarState R) :
  enabled inp = true ->
  latestFaceBoxOf inp = Some fb ->
  0 < delta inp ->
  av_snapshot inp = Some s ->
  matrix s = Some md ->
  hasValidMatrixOf (Some md) = true ->
  qunit (targetQuatOf md (mirror inp)) ->
  is_Some (groupRef st) ->
  qunit (smoothQuatRef st) ->
  let st' := runFrames st (steadyFrames inp nows) in
  let targetQuat := targetQuatOf md (mirror inp) in
  let keep := exp (- (12 * delta inp)) ^ length nows in
  qunit (smoothQuatRef st')
  /\ (nows <> [] -> hasRotationRef st' = true)
  /\ exists kq,
       0 <= kq <= keep /\ (hasRotationRef st = true -> kq = keep)
       /\ acos (Rabs (qdot (smoothQuatRef st') targetQuat))
          = kq * acos (Rabs (qdot (smoothQuatRef st) targetQuat)).
Proof.
  intros He Hl Hdt Hs Hm Hv Htq. revert st.
  induction nows as [|now nows IH]; intros st Hg Hq; cbv zeta in *.
  - cbn [steadyFrames map runFrames fold_left length pow].
    split; [exact Hq|]. split; [intros []; reflexivity|].
    exists 1. split; [lra|]. split; [reflexivity|]. ring.
  - destruct Hg as [g Hg].
    destruct (steady_frame rt Hexp Hslerp st inp now g fb He Hg Hl)
      as (Hg1 & _ & _ & Hrot).
    destruct (Hrot s md Hs Hm Hv) as [Hr1 HQ]. clear Hrot.
    destruct (alpha_R (delta inp) Hdt) as [Hkeep Halpha].
    set (st1 := useFrame st (withNow inp now)) in *.
    assert (Hq1 : qunit (smoothQuatRef st1)
                  /\ exists k1, 0 <= k1 <= exp (- (12 * delta inp))
                       /\ (hasRotationRef st = true -> k1 = exp (- (12 * delta inp)))
                       /\ acos (Rabs (qdot (smoothQuatRef st1)
                                           (targetQuatOf md (mirror inp))))
                          = k1 * acos (Rabs (qdot (smoothQuatRef st)
                                                  (targetQuatOf md (mirror inp))))).
    { rewrite HQ. destruct (hasRotationRef st).
      - destruct (slerp_step (smoothQuatRef st) (targetQuatOf md (mirror inp))
                    (1 - exp (- (12 * delta inp))) Hq Htq) as [Hu Ha]; [lra|].
        split; [exact Hu|]. exists (exp (- (12 * delta inp))).
        split; [lra|]. split; [reflexivity|]. rewrite Ha. ring.
      - split; [exact Htq|]. exists 0. split; [lra|]. split; [discriminate|].
        rewrite qunit_self_angle by exact Htq. ring. }
    destruct Hq1 as [Hq1 (k1 & Hk1 & Hk1eq & Hang1)].
    destruct (IH st1 Hg1 Hq1) as (Hq' & _ & (kq & Hkq & Hkqeq & Hang)).
    specialize (Hkqeq Hr1). subst kq.
    destruct (IH st1 Hg1 Hq1) as (_ & Hflag & _).
    change (runFrames st (steadyFrames inp (now :: nows)))
      with (runFrames st1 (steadyFrames inp nows)).
    cbn [length pow].
    set (kn := exp (- (12 * delta inp)) ^ length nows) in *.
    assert (Hkn : 0 < kn) by (apply pow_lt; lra).
    split; [exact Hq'|]. split.
    { intros _. destruct nows as [|now' nows'].
      - exact Hr1.
      - apply Hflag. discriminate. }
    exists (kn * k1). split; [nra|]. split.
    + intros Hr. rewrite (Hk1eq Hr). ring.
    + rewrite Hang, Hang1. ring.
Qed.
End SteadyRun.

Section Converge.
Local Open Scope R_scope.

Lemma INR_to_nat_ge (z : Z) : IZR z <= INR (Z.to_nat z).
Proof.
  destruct (Z_lt_le_dec z 0) as [Hneg|Hpos].
  - replace (Z.to_nat z) with 0%nat by lia. cbn.
    apply IZR_lt in Hneg. lra.
  - rewrite INR_IZR_INZ, Z2Nat.id by exact Hpos. lra.
Qed.

(** After [framesToReach] frames what is left of [d0] is below [eps]. *)
Lemma frames_reach (dt d0 eps : R) (n : nat) :
  0 < dt -> 0 <= d0 -> 0 < eps ->
  (framesToReach 12 dt d0 eps <= n)%nat ->
  exp (- (12 * dt * INR n)) * d0 < eps.
Proof.
  intros Hdt Hd0 Heps Hn.
  assert (Hexp : 0 < exp (- (12 * dt * INR n))) by apply exp_pos.
  destruct (Req_dec d0 0) as [->|Hne]; [lra|].
  assert (Hd : 0 < d0) by lra.
  set (r := ln (d0 / eps) / (12 * dt)).
  assert (Hr : r < INR n).
  { destruct (archimed r) as [Hup _].
    apply le_INR in Hn. unfold framesToReach in Hn. fold r in Hn.
    generalize (INR_to_nat_ge (up r)). lra. }
  assert (Hln : ln (d0 / eps) < 12 * dt * INR n).
  { unfold r in Hr. apply (Rmult_lt_compat_r (12 * dt)) in Hr; [|lra].
    unfold Rdiv in Hr at 1. rewrite Rmult_assoc, Rinv_l in Hr by lra. lra. }
  assert (Hq : 0 < d0 / eps) by (apply Rdiv_lt_0_compat; lra).
  apply exp_increasing in Hln. rewrite exp_ln in Hln by exact Hq.
  rewrite exp_Ropp.
  assert (Hpos : 0 < exp (12 * dt * INR n)) by apply exp_pos.
  apply (Rmult_lt_reg_r (exp (12 * dt * INR n))); [exact Hpos|].
  replace (/ exp (12 * dt * INR n) * d0 * exp (12 * dt * INR n)) with d0
    by (field; lra).
  apply (Rmult_lt_compat_r eps) in Hln; [|exact Heps].
  replace (d0 / eps * eps) with d0 in Hln by (field; lra). lra.
Qed.

Lemma distance_nonneg (a b : Vector3 R) : 0 <= distance a b.
Proof. unfold distance. apply sqrt_pos. Qed.

Lemma rotationAngle_nonneg (a b : Quaternion R) : 0 <= rotationAngle a b.
Proof. unfold rotationAngle. generalize (acos_bound (Rabs (qdot a b))). lra. Qed.

(** C7.  Over a run of consecutive frames with the same target and a fixed
    positive step, the smoothed position and orientation approach their
    targets without overshoot.  What is left of the distance to the target
    position after [n] frames is at most [e^(-12 dt n)] times the initial
    distance (exactly that once a position has been smoothed before), each
    coordinate stays between where it started and the target, a further frame
    never increases the distance, and the distance is below any [eps] from
    [framesToReach] frames on.  With a valid matrix and unit quaternions the
    same holds for the angle to the target orientation. *)
Theorem smoothing_converges (rt : Runtime R)
    (st : AvatarState R) (inp : AvatarInput R) (fb : FaceBox R) (nows : list R) :
  @Math_exp R rt = exp ->
  @Quaternion_slerp R rt = slerp ->
  enabled inp = true ->
  latestFaceBoxOf inp = Some fb ->
  0 < delta inp ->
  is_Some (groupRef st) ->
  let n := length nows in
  let st' := runFrames st (steadyFrames inp nows) in
  let target := fst (targetPlacement inp fb) in
  let d0 := distance (smoothPositionRef st) target in
  let left := exp (- (12 * delta inp * INR n)) in
  (distance (smoothPositionRef st') target <= left * d0
   /\ (hasPositionRef st = true ->
       distance (smoothPositionRef st') target = left * d0)
   /\ between (v_x (smoothPositionRef st')) (v_x (smoothPositionRef st)) (v_x target)
   /\ between (v_y (smoothPositionRef st')) (v_y (smoothPositionRef st)) (v_y target)
   /\ between (v_z (smoothPositionRef st')) (v_z (smoothPositionRef st)) (v_z target)
   /\ (forall now,
         distance (smoothPositionRef (useFrame st' (withNow inp now))) target
         <= distance (smoothPositionRef st') target)
   /\ (forall eps, 0 < eps -> (framesToReach 12 (delta inp) d0 eps <= n)%nat ->
         distance (smoothPositionRef st') target < eps))
  /\ (forall s md,
        av_snapshot inp = Some s ->
        matrix s = Some md ->
        hasValidMatrixOf (Some md) = true ->
        qunit (targetQuatOf md (mirror inp)) ->
        qunit (smoothQuatRef st) ->
        let targetQuat := targetQuatOf md (mirror inp) in
        let a0 := rotationAngle (smoothQuatRef st) targetQuat in
        rotationAngle (smoothQuatRef st') targetQuat <= left * a0
        /\ (hasRotationRef st = true ->
            rotationAngle (smoothQuatRef st') targetQuat = left * a0)
        /\ (forall now,
              rotationAngle (smoothQuatRef (useFrame st' (withNow inp now))) targetQuat
              <= rotationAngle (smoothQuatRef st') targetQuat)
        /\ (forall eps, 0 < eps -> (framesToReach 12 (delta inp) a0 eps <= n)%nat ->
              rotationAngle (smoothQuatRef st') targetQuat < eps)).
Proof.
  intros Hexp Hslerp He Hl Hdt Hg n st' target d0 left.
  assert (Hleft : 0 < left <= 1).
  { split; [apply exp_pos|]. unfold left. rewrite <- exp_0.
    destruct (Req_dec (12 * delta inp * INR n) 0) as [->|Hne].
    - rewrite Ropp_0. lra.
    - left. apply exp_increasing. generalize (pos_INR n). nra. }
  destruct (alpha_R (delta inp) Hdt) as [Hkeep _].
  destruct (steady_run_position rt Hexp Hslerp inp fb nows st He Hl Hdt Hg)
    as (Hg' & _ & (kp & Hkp & Hkpeq & Hx & Hy & Hz)).
  fold st' target in Hg', Hx, Hy, Hz.
  rewrite exp_frames in Hkp, Hkpeq. fold n left in Hkp, Hkpeq.
  split.
  - assert (Hd0 : 0 <= d0) by apply distance_nonneg.
    assert (Hdist : distance (smoothPositionRef st') target = kp * d0).
    { apply distance_scaled; [lra | exact Hx | exact Hy | exact Hz]. }
    split; [rewrite Hdist; nra|].
    split; [intros Hp; rewrite Hdist, (Hkpeq Hp); reflexivity|].
    split; [apply (between_scaled _ _ _ kp); [lra | exact Hx]|].
    split; [apply (between_scaled _ _ _ kp); [lra | exact Hy]|].
    split; [apply (between_scaled _ _ _ kp); [lra | exact Hz]|].
    split.
    + intros now.
      destruct (steady_run_position rt Hexp Hslerp inp fb [now] st' He Hl Hdt Hg')
        as (_ & _ & (k1 & Hk1 & _ & Hx1 & Hy1 & Hz1)).
      change (runFrames st' (steadyFrames inp [now]))
        with (useFrame st' (withNow inp now)) in *.
      fold target in Hx1, Hy1, Hz1. cbn [length pow] in Hk1.
      rewrite (distance_scaled _ (smoothPositionRef st') target k1)
        by (try lra; assumption).
      generalize (distance_nonneg (smoothPositionRef st') target). nra.
    + intros eps Heps Hn.
      generalize (frames_reach (delta inp) d0 eps n Hdt Hd0 Heps Hn).
      fold left. rewrite Hdist. nra.
  - intros s md Hs Hm Hv Htq Hq targetQuat a0.
    destruct (steady_run_rotation rt Hexp Hslerp inp fb s md nows st
                He Hl Hdt Hs Hm Hv Htq Hg Hq)
      as (Hq' & _ & (kq & Hkq & Hkqeq & Hang)).
    fold st' targetQuat in Hq', Hang.
    rewrite exp_frames in Hkq, Hkqeq. fold n left in Hkq, Hkqeq.
    assert (Ha0 : 0 <= a0) by apply rotationAngle_nonneg.
    assert (Hangle : rotationAngle (smoothQuatRef st') targetQuat = kq * a0).
    { unfold rotationAngle, a0. unfold rotationAngle. rewrite Hang. ring. }
    split; [rewrite Hangle; nra|].
    split; [intros Hr; rewrite Hangle, (Hkqeq Hr); reflexivity|].
    split.
    + intros now.
      destruct (steady_run_rotation rt Hexp Hslerp inp fb s md [now] st'
                  He Hl Hdt Hs Hm Hv Htq Hg' Hq')
        as (_ & _ & (k2 & Hk2 & _ & Hang1)).
      change (runFrames st' (steadyFrames inp [now]))
        with (useFrame st' (withNow inp now)) in *.
      fold targetQuat in Hang1. cbn [length pow] in Hk2.
      unfold rotationAngle. rewrite Hang1.
      generalize (acos_bound (Rabs (qdot (smoothQuatRef st') targetQuat))). nra.
    + intros eps Heps Hn.
      generalize (frames_reach (delta inp) a0 eps n Hdt Ha0 Heps Hn).
      fold left. rewrite Hangle. nra.
Qed.

Lemma smoothing_converges_witness :
  distance
    (smoothPositionRef
       (runFrames (H0 := realRuntime) realAvatarState
          (steadyFrames realAvatarInput [1016; 1032])))
    (fst (targetPlacement realAvatarInput
            (computeFaceBox (landmarks realSnapshot) 640 480
                            avatarPadX avatarPadY avatarShiftY false)))
  = exp (- (12 * / 64 * INR 2))
    * distance (smoothPositionRef realAvatarState)
        (fst (targetPlacement realAvatarInput
                (computeFaceBox (landmarks realSnapshot) 640 480
                                avatarPadX avatarPadY avatarShiftY false)))
  /\ rotationAngle
       (smoothQuatRef
          (runFrames (H0 := realRuntime) realAvatarState
             (steadyFrames realAvatarInput [1016; 1032])))
       (targetQuatOf (H0 := realRuntime) (replicate 16 0) false)
     <= exp (- (12 * / 64 * INR 2))
        * rotationAngle (smoothQuatRef realAvatarState)
            (targetQuatOf (H0 := realRuntime) (replicate 16 0) false).
Proof.
  assert (Htruthy : forall x : R, x <> 0 -> truthy x = true).
  { intros x Hx. cbn. unfold Reqb. destruct (Req_dec_T x 0); [contradiction|].
    reflexivity. }
  assert (Hbox : latestFaceBoxOf realAvatarInput
                 = Some (computeFaceBox (landmarks realSnapshot) 640 480
                           avatarPadX avatarPadY avatarShiftY false)).
  { unfold latestFaceBoxOf. cbn [av_snapshot realAvatarInput frame fs_width fs_height].
    rewrite !Htruthy by lra. reflexivity. }
  assert (Hdt : 0 < delta realAvatarInput) by (cbn; lra).
  assert (Hgroup : is_Some (groupRef realAvatarState)) by (eexists; reflexivity).
  destruct (smoothing_converges realRuntime realAvatarState realAvatarInput
              _ [1016; 1032] eq_refl eq_refl eq_refl Hbox Hdt Hgroup)
    as [(_ & Hpos & _) Hrot].
  split.
  - apply Hpos. reflexivity.
  - refine (proj1 (Hrot realSnapshot (replicate 16 0) eq_refl eq_refl eq_refl _ _)).
    + unfold qunit, qdot. cbn. lra.
    + unfold qunit, qdot. cbn. lra.
Defined.
End Converge.

(** The regression fixture of the specification: 468 landmarks at the
    centre but four at the corners of the inner square, frame 640 x 480. *)
Example computeFaceBox_fixture :
  computeFaceBox
    (replicate 464 (mkLandmark 0.5 0.5 None)
     ++ [mkLandmark 0.1 0.1 None; mkLandmark 0.9 0.1 None;
         mkLandmark 0.1 0.9 None; mkLandmark 0.9 0.9 None])%Q
    640%Q 480%Q 0.2%Q 0.4%Q 0.3%Q false
  = mkFaceBox 12.80000%Q 1.92000%Q 614.40000%Q 537.60000%Q.
Proof. vm_compute. reflexivity. Qed.

(** * Further properties of the code *)

(** ** The face box: geometry *)

Section FaceBoxGeometry.
Local Open Scope Q_scope.

Lemma scan_minX_lower (lms : list (Landmark Q)) (p : Landmark Q) :
  In p lms -> minX (scanLandmarks lms) <= lm_x p.
Proof.
  intros Hp. unfold scanLandmarks. rewrite scan_components. cbn [minX initExtents].
  rewrite (fold_stepMin_Qmin _ _ (lit 1)) by reflexivity.
  apply fold_Qmin_lower. apply in_map. exact Hp.
Qed.

Lemma scan_minY_lower (lms : list (Landmark Q)) (p : Landmark Q) :
  In p lms -> minY (scanLandmarks lms) <= lm_y p.
Proof.
  intros Hp. unfold scanLandmarks. rewrite scan_components. cbn [minY initExtents].
  rewrite (fold_stepMin_Qmin _ _ (lit 1)) by reflexivity.
  apply fold_Qmin_lower. apply in_map. exact Hp.
Qed.

Lemma scan_maxX_upper (lms : list (Landmark Q)) (p : Landmark Q) :
  In p lms -> lm_x p <= maxX (scanLandmarks lms).
Proof.
  intros Hp. unfold scanLandmarks. rewrite scan_components. cbn [maxX initExtents].
  rewrite (fold_stepMax_Qmax _ _ (lit 0)) by reflexivity.
  apply fold_Qmax_upper. apply in_map. exact Hp.
Qed.

Lemma scan_maxY_upper (lms : list (Landmark Q)) (p : Landmark Q) :
  In p lms -> lm_y p <= maxY (scanLandmarks lms).
Proof.
  intros Hp. unfold scanLandmarks. rewrite scan_components. cbn [maxY initExtents].
  rewrite (fold_stepMax_Qmax _ _ (lit 0)) by reflexivity.
  apply fold_Qmax_upper. apply in_map. exact Hp.
Qed.

(** X1.  The box contains every landmark it was computed from: with frame
    sizes and paddings that are not negative and a shift within [0, 1], the
    pixel position of each landmark (its x reflected when [mirrorX] is set)
    lies within the box, whatever the coordinates of the landmarks. *)
Theorem computeFaceBox_contains_landmarks
    (lms : list (Landmark Q)) (frameWidth frameHeight padX padY yShift : Q)
    (mirrorX : bool) (p : Landmark Q) :
  In p lms ->
  0 <= frameWidth -> 0 <= frameHeight ->
  0 <= padX -> 0 <= padY -> 0 <= yShift <= 1 ->
  let b := computeFaceBox lms frameWidth frameHeight padX padY yShift mirrorX in
  let px := (if mirrorX then 1 - lm_x p else lm_x p) * frameWidth in
  let py := lm_y p * frameHeight in
  fb_x b <= px <= fb_x b + fb_width b
  /\ fb_y b <= py <= fb_y b + fb_height b.
Proof.
  intros Hp Hw Hh HpX HpY HyS b px py. subst b px py.
  pose proof (scan_minX_lower lms p Hp) as H1.
  pose proof (scan_maxX_upper lms p Hp) as H2.
  pose proof (scan_minY_lower lms p Hp) as H3.
  pose proof (scan_maxY_upper lms p Hp) as H4.
  unfold computeFaceBox, baseBox, padBox.
  set (e := scanLandmarks lms) in *.
  cbn [fb_x fb_y fb_width fb_height add sub mul lit Q_Number].
  assert (Hy1 : 0 <= (lm_y p - minY e) * frameHeight) by nra.
  assert (Hy2 : 0 <= (maxY e - lm_y p) * frameHeight) by nra.
  assert (Hy3 : 0 <= (maxY e - minY e) * frameHeight * padY).
  { apply Qmult_le_0_compat; [nra | exact HpY]. }
  assert (Hy4 : 0 <= (maxY e - minY e) * frameHeight * padY * yShift).
  { apply Qmult_le_0_compat; [exact Hy3 | lra]. }
  assert (Hy5 : 0 <= (maxY e - minY e) * frameHeight * padY * (1 - yShift)).
  { apply Qmult_le_0_compat; [exact Hy3 | lra]. }
  split; [|split; nra].
  destruct mirrorX.
  - assert (Hx1 : 0 <= (lm_x p - minX e) * frameWidth) by nra.
    assert (Hx2 : 0 <= (maxX e - lm_x p) * frameWidth) by nra.
    assert (Hx3 : 0 <= (1 - minX e - (1 - maxX e)) * frameWidth * padX).
    { apply Qmult_le_0_compat; [nra | exact HpX]. }
    split; nra.
  - assert (Hx1 : 0 <= (lm_x p - minX e) * frameWidth) by nra.
    assert (Hx2 : 0 <= (maxX e - lm_x p) * frameWidth) by nra.
    assert (Hx3 : 0 <= (maxX e - minX e) * frameWidth * padX).
    { apply Qmult_le_0_compat; [nra | exact HpX]. }
    split; nra.
Qed.

Lemma computeFaceBox_contains_landmarks_witness :
  fb_x (computeFaceBox twoLandmarks 640 480 0.2 0.4 0.3 true) <= (1 - 0.25) * 640
  /\ (1 - 0.25) * 640
     <= fb_x (computeFaceBox twoLandmarks 640 480 0.2 0.4 0.3 true)
        + fb_width (computeFaceBox twoLandmarks 640 480 0.2 0.4 0.3 true).
Proof.
  refine (proj1 (computeFaceBox_contains_landmarks twoLandmarks 640 480 0.2 0.4 0.3
                   true (mkLandmark 0.25 0.5 None) _ _ _ _ _ _)).
  - left. reflexivity.
  - discriminate.
  - discriminate.
  - discriminate.
  - discriminate.
  - split; discriminate.
Defined.

(** The mirror flag reflects the box about the vertical centre line
    of the frame: the mirrored box starts where the unmirrored one ends,
    counted from the other side, and has the same top, width and height. *)
Theorem computeFaceBox_mirror_reflects
    (lms : list (Landmark Q)) (frameWidth frameHeight padX padY yShift : Q) :
  let bt := computeFaceBox lms frameWidth frameHeight padX padY yShift true in
  let bf := computeFaceBox lms frameWidth frameHeight padX padY yShift false in
  fb_x bt == frameWidth - (fb_x bf + fb_width bf)
  /\ fb_y bt == fb_y bf
  /\ fb_width bt == fb_width bf
  /\ fb_height bt == fb_height bf.
Proof.
  unfold computeFaceBox, baseBox, padBox.
  cbn [fb_x fb_y fb_width fb_height add sub mul lit Q_Number].
  repeat split; ring.
Qed.

Lemma Qmin_swap (a x y : Q) : Qmin (Qmin a x) y == Qmin (Qmin a y) x.
Proof.
  rewrite <- !Q.min_assoc. rewrite (Q.min_comm x y). reflexivity.
Qed.

Lemma Qmax_swap (a x y : Q) : Qmax (Qmax a x) y == Qmax (Qmax a y) x.
Proof.
  rewrite <- !Q.max_assoc. rewrite (Q.max_comm x y). reflexivity.
Qed.

Lemma fold_Qmin_perm (xs ys : list Q) :
  Permutation xs ys -> forall a, fold_left Qmin xs a == fold_left Qmin ys a.
Proof.
  induction 1 as [|x l l' _ IH|x y l|l l' l'' _ IH1 _ IH2]; intros a; cbn.
  - reflexivity.
  - apply IH.
  - apply fold_Qmin_compat. apply Qmin_swap.
  - rewrite IH1. apply IH2.
Qed.

Lemma fold_Qmax_perm (xs ys : list Q) :
  Permutation xs ys -> forall a, fold_left Qmax xs a == fold_left Qmax ys a.
Proof.
  induction 1 as [|x l l' _ IH|x y l|l l' l'' _ IH1 _ IH2]; intros a; cbn.
  - reflexivity.
  - apply IH.
  - apply fold_Qmax_compat. apply Qmax_swap.
  - rewrite IH1. apply IH2.
Qed.

Lemma scan_perm (lms lms' : list (Landmark Q)) :
  Permutation lms lms' ->
  minX (scanLandmarks lms) == minX (scanLandmarks lms')
  /\ minY (scanLandmarks lms) == minY (scanLandmarks lms')
  /\ maxX (scanLandmarks lms) == maxX (scanLandmarks lms')
  /\ maxY (scanLandmarks lms) == maxY (scanLandmarks lms').
Proof.
  intros Hperm. unfold scanLandmarks. rewrite !scan_components.
  cbn [minX minY maxX maxY initExtents].
  rewrite !(fold_stepMin_Qmin _ _ (lit 1)) by reflexivity.
  rewrite !(fold_stepMax_Qmax _ _ (lit 0)) by reflexivity.
  repeat split.
  - apply fold_Qmin_perm, Permutation_map, Hperm.
  - apply fold_Qmin_perm, Permutation_map, Hperm.
  - apply fold_Qmax_perm, Permutation_map, Hperm.
  - apply fold_Qmax_perm, Permutation_map, Hperm.
Qed.

(** X2.  The box depends on the landmarks as a collection, not on their
    order: reordering the landmark sequence gives a box with the same
    (rationally equal) origin and extents. *)
Theorem computeFaceBox_order_independent
    (lms lms' : list (Landmark Q)) (frameWidth frameHeight padX padY yShift : Q)
    (mirrorX : bool) :
  Permutation lms lms' ->
  let b := computeFaceBox lms frameWidth frameHeight padX padY yShift mirrorX in
  let b' := computeFaceBox lms' frameWidth frameHeight padX padY yShift mirrorX in
  fb_x b == fb_x b' /\ fb_y b == fb_y b'
  /\ fb_width b == fb_width b' /\ fb_height b == fb_height b'.
Proof.
  intros Hperm b b'. subst b b'.
  destruct (scan_perm lms lms' Hperm) as (H1 & H2 & H3 & H4).
  unfold computeFaceBox, baseBox, padBox.
  cbn [fb_x fb_y fb_width fb_height add sub mul lit Q_Number].
  destruct mirrorX; rewrite ?H1, ?H2, ?H3, ?H4; repeat split; reflexivity.
Qed.

Lemma computeFaceBox_order_independent_witness :
  fb_x (computeFaceBox twoLandmarks 640 480 0.2 0.4 0.3 false)
  == fb_x (computeFaceBox (rev twoLandmarks) 640 480 0.2 0.4 0.3 false).
Proof.
  refine (proj1 (computeFaceBox_order_independent twoLandmarks (rev twoLandmarks)
                   640 480 0.2 0.4 0.3 false _)).
  apply Permutation_rev.
Defined.
End FaceBoxGeometry.

(** ** The snapshot builder: what it keeps *)

Section BuilderKeeps.
Context {num : Type} `{Number num}.

(** X3.  The snapshot has the landmarks of the first face, as many and in
    order, with their coordinates unchanged; the faces after the first do not
    influence it. *)
Theorem buildFaceSnapshot_first_face
    (result : FaceLandmarkerResult num) (stamp : num)
    (face0 : list (NormalizedLandmark num))
    (faces : list (list (NormalizedLandmark num))) :
  faceLandmarks result = Some (face0 :: faces) ->
  exists snap,
    buildFaceSnapshot result stamp = Some snap
    /\ length (landmarks snap) = length face0
    /\ map lm_x (landmarks snap) = map nl_x face0
    /\ map lm_y (landmarks snap) = map nl_y face0
    /\ map lm_z (landmarks snap) = map (fun l => Some (nl_z l)) face0
    /\ forall others,
         buildFaceSnapshot (withOtherFaces result others) stamp = Some snap.
Proof.
  intros Hf. unfold buildFaceSnapshot. rewrite Hf. eexists. split; [reflexivity|].
  cbv beta iota delta [landmarks].
  rewrite length_map, !map_map. repeat split.
  intros others. unfold withOtherFaces. rewrite Hf. reflexivity.
Qed.

(** A matrix in a built snapshot has exactly 16 elements, so that for
    such a snapshot the validity test of the avatar frame comes down to the
    finiteness of its elements. *)
Theorem buildFaceSnapshot_matrix_valid
    (result : FaceLandmarkerResult num) (stamp : num) (snap : FaceSnapshot num) :
  buildFaceSnapshot result stamp = Some snap ->
  (forall m, matrix snap = Some m -> length m = 16%nat)
  /\ hasValidMatrixOf (matrix snap)
     = match matrix snap with
       | Some m => forallb isFinite m
       | None => false
       end.
Proof.
  unfold buildFaceSnapshot.
  destruct (faceLandmarks result) as [[|face0 faces]|]; try discriminate.
  intros Hsnap. apply (inj Some) in Hsnap. subst snap.
  cbv beta iota delta [matrix].
  destruct (rawDataOf (firstRawMatrix result)) as [d|].
  2: { split; [discriminate | reflexivity]. }
  destruct (16 <=? length d)%nat eqn:E.
  2: { split; [discriminate | reflexivity]. }
  apply Nat.leb_le in E.
  assert (Hlen : length (take 16 d) = 16%nat) by (rewrite length_take; lia).
  split.
  - intros m Hm. apply (inj Some) in Hm. subst m. exact Hlen.
  - unfold hasValidMatrixOf. rewrite Hlen.
    rewrite take_ge by lia. reflexivity.
Qed.
End BuilderKeeps.

Lemma buildFaceSnapshot_first_face_witness :
  exists snap,
    buildFaceSnapshot sampleResult 1000%Q = Some snap
    /\ length (landmarks snap) = 2%nat.
Proof.
  destruct (buildFaceSnapshot_first_face sampleResult 1000%Q _ _ eq_refl)
    as (snap & Hs & Hl & _).
  exists snap. split; [exact Hs | exact Hl].
Defined.

Lemma buildFaceSnapshot_matrix_valid_witness :
  hasValidMatrixOf (matrix sampleSnapshot) = true.
Proof.
  rewrite (proj2 (buildFaceSnapshot_matrix_valid sampleResult 1000%Q
                    sampleSnapshot eq_refl)).
  reflexivity.
Defined.

(** ** The render loop: frames it skips, sizes it keeps *)

Section LoopSkips.
Local Open Scope Q_scope.

Lemma Qeq_bool_true (a b : Q) : a == b -> Qeq_bool a b = true.
Proof. intros E. apply Qeq_bool_iff. exact E. Qed.

Lemma renderLoop_same_time (fl : Flags) (st : LoopState Q) (u : Tick Q) :
  currentTime u == lastVideoTimeRef st ->
  snd (renderLoop fl st u) = None
  /\ faceSnapshotRef (fst (renderLoop fl st u)) = faceSnapshotRef st
  /\ lastFaceResultTimeRef (fst (renderLoop fl st u)) = lastFaceResultTimeRef st
  /\ lastVideoTimeRef (fst (renderLoop fl st u)) = lastVideoTimeRef st.
Proof.
  intros E. unfold renderLoop. destruct (ready u); [|cbn; auto].
  cbn [eqb Q_Number]. rewrite (Qeq_bool_true _ _ E). cbn. auto.
Qed.

Lemma runLoop_same_time (fl : Flags) (ts : list (Tick Q)) (st : LoopState Q) :
  Forall (fun u => currentTime u == lastVideoTimeRef st) ts ->
  faceSnapshotRef (runLoop fl st ts) = faceSnapshotRef st
  /\ lastFaceResultTimeRef (runLoop fl st ts) = lastFaceResultTimeRef st
  /\ lastVideoTimeRef (runLoop fl st ts) = lastVideoTimeRef st.
Proof.
  revert st. induction ts as [|u ts IH]; intros st Hall; [cbn; auto|].
  inversion Hall as [|? ? Hu Hrest]; subst.
  destruct (renderLoop_same_time fl st u Hu) as (_ & H1 & H2 & H3).
  cbn [runLoop fold_left].
  change (fold_left (fun s t => fst (renderLoop fl s t)) ts (fst (renderLoop fl st u)))
    with (runLoop fl (fst (renderLoop fl st u)) ts).
  destruct (IH (fst (renderLoop fl st u))) as (I1 & I2 & I3).
  { rewrite H3. exact Hrest. }
  rewrite I1, I2, I3. auto.
Qed.

(** X4.  A video time is processed at most once.  After a processed
    frame, animation frames that see the same video time, however many and
    however late, request no drawing, run no hold step and leave the
    effective snapshot and its arrival time untouched: while the video time
    stands still a held snapshot does not expire. *)
Theorem renderLoop_processes_a_video_time_once
    (fl : Flags) (st : LoopState Q) (t : Tick Q) (ts : list (Tick Q)) (u : Tick Q) :
  allProcessed (lastVideoTimeRef st) [t] = true ->
  Forall (fun v => currentTime v == currentTime t) (ts ++ [u]) ->
  let st1 := fst (renderLoop fl st t) in
  let st' := runLoop fl st1 ts in
  is_Some (snd (renderLoop fl st t))
  /\ snd (renderLoop fl st' u) = None
  /\ faceSnapshotRef (fst (renderLoop fl st' u)) = faceSnapshotRef st1
  /\ lastFaceResultTimeRef (fst (renderLoop fl st' u)) = lastFaceResultTimeRef st1.
Proof.
  intros Hp Hall st1 st'.
  cbn [allProcessed] in Hp. rewrite andb_true_r in Hp.
  apply andb_true_iff in Hp as [Hr Ht]. apply negb_true_iff in Ht.
  destruct (renderLoop_processed fl st t Hr Ht) as (_ & _ & Hv).
  fold st1 in Hv.
  apply Forall_app in Hall as [Hts Hu]. inversion Hu as [|? ? Hu' _]; subst.
  destruct (runLoop_same_time fl ts st1) as (I1 & I2 & I3).
  { rewrite Hv. exact Hts. }
  fold st' in I1, I2, I3.
  destruct (renderLoop_same_time fl st' u) as (D & H1 & H2 & _).
  { rewrite I3, Hv. exact Hu'. }
  split.
  - unfold renderLoop. rewrite Hr, Ht. cbn [negb].
    destruct (holdStep _ _ _ _ _). cbn. eexists. reflexivity.
  - rewrite H1, H2, I1, I2. auto.
Qed.

Lemma renderLoop_processes_a_video_time_once_witness :
  snd (renderLoop flags2D
         (runLoop flags2D
            (fst (renderLoop flags2D initialLoopState
                    (frameAt 1 1000 (Some sampleResult))))
            [frameAt 1 2000 None])
         (frameAt 1 9000 None))
  = None.
Proof.
  refine (proj1 (proj2 (renderLoop_processes_a_video_time_once flags2D
                          initialLoopState (frameAt 1 1000 (Some sampleResult))
                          [frameAt 1 2000 None] (frameAt 1 9000 None) _ _))).
  - reflexivity.
  - repeat constructor.
Defined.

(** The canvas follows the video: after an animation frame that
    passes the outer guard with a video of positive width and height, the
    canvas and the frame size shared with the avatar have the size of the
    video; a video without positive size leaves the canvas as it is. *)
Theorem renderLoop_canvas_follows_video
    (fl : Flags) (st : LoopState Q) (t : Tick Q) :
  ready t = true ->
  let st' := fst (renderLoop fl st t) in
  frameSizeRef st' = canvasSize st'
  /\ (0 < videoWidth t -> 0 < videoHeight t ->
      fs_width (canvasSize st') == videoWidth t
      /\ fs_height (canvasSize st') == videoHeight t)
  /\ (~ (0 < videoWidth t /\ 0 < videoHeight t) -> canvasSize st' = canvasSize st).
Proof.
  intros Hr st'. subst st'. unfold renderLoop. rewrite Hr.
  cbn [ltb eqb lit Q_Number].
  set (resize := Qltb 0 (videoWidth t) && Qltb 0 (videoHeight t)
                 && (negb (Qeq_bool (fs_width (canvasSize st)) (videoWidth t))
                     || negb (Qeq_bool (fs_height (canvasSize st)) (videoHeight t)))).
  assert (Hcanvas :
    forall c, c = (if resize then mkFrameSize (videoWidth t) (videoHeight t)
                   else canvasSize st) ->
      (0 < videoWidth t -> 0 < videoHeight t ->
       fs_width c == videoWidth t /\ fs_height c == videoHeight t)
      /\ (~ (0 < videoWidth t /\ 0 < videoHeight t) -> c = canvasSize st)).
  { intros c ->. subst resize. split.
    - intros Hw Hh. apply Qltb_lt in Hw, Hh. rewrite Hw, Hh. cbn [andb].
      destruct (Qeq_bool (fs_width (canvasSize st)) (videoWidth t)) eqn:Ew;
        destruct (Qeq_bool (fs_height (canvasSize st)) (videoHeight t)) eqn:Eh;
        cbn; try (split; reflexivity).
      apply Qeq_bool_iff in Ew, Eh. split; assumption.
    - intros Hn.
      destruct (Qltb 0 (videoWidth t)) eqn:Ew; [|reflexivity].
      destruct (Qltb 0 (videoHeight t)) eqn:Eh; [|reflexivity].
      exfalso. apply Hn. split; apply Qltb_lt; assumption. }
  destruct (negb (Qeq_bool (currentTime t) (lastVideoTimeRef st))).
  - destruct (holdStep _ _ _ _ _). cbn [fst frameSizeRef canvasSize].
    split; [reflexivity|]. apply Hcanvas. reflexivity.
  - cbn [fst frameSizeRef canvasSize].
    split; [reflexivity|]. apply Hcanvas. reflexivity.
Qed.

Lemma renderLoop_canvas_follows_video_witness :
  fs_width (canvasSize (fst (renderLoop flags2D initialLoopState
                               (frameAt 1 1000 None)))) == 640.
Proof.
  refine (proj1 (proj1 (proj2 (renderLoop_canvas_follows_video flags2D
                                 initialLoopState (frameAt 1 1000 None) _)) _ _)).
  - reflexivity.
  - reflexivity.
  - reflexivity.
Defined.

(** X5.  Coming back to a visible document forces the next frame: after
    [handleVisible] the next animation frame that passes the outer guard is
    processed and requests a drawing, even at the video time processed
    last. *)
Theorem handleVisible_forces_next_frame
    (fl : Flags) (st : LoopState Q) (t : Tick Q) :
  ready t = true ->
  0 <= currentTime t ->
  is_Some (snd (renderLoop fl (handleVisible true st) t))
  /\ lastVideoTimeRef (fst (renderLoop fl (handleVisible true st) t)) = currentTime t.
Proof.
  intros Hr Ht.
  assert (Hne : eqb (currentTime t) (lastVideoTimeRef (handleVisible true st)) = false).
  { cbn. destruct (Qeq_bool (currentTime t) (-1)) eqn:E; [|reflexivity].
    apply Qeq_bool_iff in E. lra. }
  split.
  - unfold renderLoop. rewrite Hr, Hne. cbn [negb].
    destruct (holdStep _ _ _ _ _). cbn. eexists. reflexivity.
  - apply (renderLoop_processed fl _ t Hr Hne).
Qed.

Lemma handleVisible_forces_next_frame_witness :
  is_Some (snd (renderLoop flags2D
                  (handleVisible true
                     (fst (renderLoop flags2D initialLoopState (frameAt 1 1000 None))))
                  (frameAt 1 1016 None))).
Proof.
  refine (proj1 (handleVisible_forces_next_frame flags2D _ (frameAt 1 1016 None) _ _)).
  - reflexivity.
  - discriminate.
Defined.
End LoopSkips.

Section LoopWithoutDetection.
Context {num : Type} `{Number num}.

Lemma frameSnapshot_features_off (fl : Flags) (t : Tick num) :
  enableFaceSwap fl = false -> enable3DAvatar fl = false ->
  frameSnapshot fl t = None.
Proof. intros Hf Ha. unfold frameSnapshot. rewrite Hf, Ha. reflexivity. Qed.

Lemma renderLoop_features_off (fl : Flags) (st : LoopState num) (t : Tick num) :
  enableFaceSwap fl = false -> enable3DAvatar fl = false ->
  faceSnapshotRef (fst (renderLoop fl st t)) = faceSnapshotRef st
  \/ faceSnapshotRef (fst (renderLoop fl st t)) = None.
Proof.
  intros Hf Ha.
  destruct (ready t && negb (eqb (currentTime t) (lastVideoTimeRef st))) eqn:E.
  - apply andb_true_iff in E as [Hr Ht]. apply negb_true_iff in Ht.
    destruct (renderLoop_processed fl st t Hr Ht) as (-> & _ & _).
    rewrite frameSnapshot_features_off by assumption.
    unfold holdStep. destruct (_ && _ && _); cbn; auto.
  - destruct (renderLoop_skipped fl st t E) as (-> & _ & _). auto.
Qed.

(** X6.  With face swap and the 3D avatar both off the detector's result
    is never used: over any run of animation frames, whatever the detector
    would return, the effective snapshot is the one the run started with or
    null, and a null snapshot stays null. *)
Theorem renderLoop_never_detects_when_off
    (fl : Flags) (st : LoopState num) (ts : list (Tick num)) :
  enableFaceSwap fl = false -> enable3DAvatar fl = false ->
  (faceSnapshotRef (runLoop fl st ts) = faceSnapshotRef st
   \/ faceSnapshotRef (runLoop fl st ts) = None)
  /\ (faceSnapshotRef st = None -> faceSnapshotRef (runLoop fl st ts) = None).
Proof.
  intros Hf Ha.
  assert (Hrun : forall ts st,
            faceSnapshotRef (runLoop fl st ts) = faceSnapshotRef st
            \/ faceSnapshotRef (runLoop fl st ts) = None).
  { clear st ts. induction ts as [|t ts IH]; intros st; [left; reflexivity|].
    cbn [runLoop fold_left].
    change (fold_left (fun s u => fst (renderLoop fl s u)) ts (fst (renderLoop fl st t)))
      with (runLoop fl (fst (renderLoop fl st t)) ts).
    destruct (IH (fst (renderLoop fl st t))) as [E|E]; [|right; exact E].
    rewrite E. apply renderLoop_features_off; assumption. }
  split; [apply Hrun|].
  intros Hnone. destruct (Hrun ts st) as [E|E]; congruence.
Qed.
End LoopWithoutDetection.

Lemma renderLoop_never_detects_when_off_witness :
  faceSnapshotRef
    (runLoop (mkFlags false false true) initialLoopState
       [frameAt 1 1000 (Some sampleResult); frameAt 2 1016 (Some sampleResult)])
  = None.
Proof.
  refine (proj2 (renderLoop_never_detects_when_off (mkFlags false false true)
                   initialLoopState _ _ _) _).
  - reflexivity.
  - reflexivity.
  - reflexivity.
Defined.

(** ** The compositor: bracket, fallback, buffers *)

Section CompositorBracket.
Context {num : Type} `{Number num}.

Lemma stackDepth_app (ops ops' : list (CtxOp num)) (d : nat) :
  stackDepth d (ops ++ ops')
  = match stackDepth d ops with
    | Some d' => stackDepth d' ops'
    | None => None
    end.
Proof.
  revert d. induction ops as [|op ops IH]; intros d; [reflexivity|].
  destruct op; cbn [app stackDepth]; try apply IH.
  destruct d; [reflexivity | apply IH].
Qed.

Lemma stackDepth_landmarks (cw ch : num) (lms : list (Landmark num)) (d : nat) :
  stackDepth d (flat_map (drawLandmark cw ch) lms) = Some d.
Proof.
  induction lms as [|p lms IH]; [reflexivity|]. cbn. exact IH.
Qed.

(** X7.  Every composition is bracketed: whatever the flags, the mask and
    the snapshot, the calls a frame adds to the canvas begin with a save and
    end with a restore, and every restore in between finds its save, so that
    the frame leaves the state stack of the context at the depth it found it
    and the mirror transform does not leak into what is drawn afterwards. *)
Theorem drawComposition_bracketed (pr : CompositorProps) (st : CompositorState num)
    (canvas : FrameSize num) (segmentation : option (ImageSegmenterResult num))
    (snapshot : option (FaceSnapshot num)) :
  exists frameOps,
    ctx_ops (drawComposition pr st canvas segmentation snapshot)
    = ctx_ops st ++ frameOps
    /\ head frameOps = Some Save
    /\ last frameOps = Some Restore
    /\ forall d, stackDepth d frameOps = Some d.
Proof.
  unfold drawComposition. cbv zeta.
  destruct (if cp_enableBackgroundReplace pr then selectMask segmentation else None)
    as [[mask isConfidenceMask]|];
    [destruct (maskCtxAvailable pr && personCtxAvailable pr);
       [destruct (backgroundImage pr)|]|];
    cbn [ctx_ops];
    (eexists; split; [reflexivity|]; split; [reflexivity|]; split;
     [rewrite !app_assoc; apply last_snoc|]);
    intros d; destruct (mirrorCamera pr);
    (destruct snapshot as [s|]; [|reflexivity]);
    (destruct (0 <? length (landmarks s))%nat; [|reflexivity]);
    (destruct (cp_enableFaceSwap pr); [|reflexivity]);
    (destruct (faceOverlayImage pr); [reflexivity|]);
    cbn [app stackDepth]; rewrite stackDepth_app, stackDepth_landmarks; reflexivity.
Qed.
End CompositorBracket.

Section CompositorFallback.
Context {num : Type} `{Number num}.

(** X8.  Without a 2D context for one of the offscreen buffers the frame
    falls back to the live video: with background replacement on and a mask
    at hand, the calls on the canvas are those of the same frame with
    background replacement off, although both buffers have been set up and
    the segmentation has been closed. *)
Theorem drawComposition_context_fallback
    (pr : CompositorProps) (st : CompositorState num)
    (canvas : FrameSize num) (segmentation : ImageSegmenterResult num)
    (snapshot : option (FaceSnapshot num)) :
  cp_enableBackgroundReplace pr = true ->
  is_Some (selectMask (Some segmentation)) ->
  maskCtxAvailable pr && personCtxAvailable pr = false ->
  let st' := drawComposition pr st canvas (Some segmentation) snapshot in
  ctx_ops st'
  = ctx_ops (drawComposition (withoutBackgroundReplace pr) st canvas
               (Some segmentation) snapshot)
  /\ faceBoxRef st'
     = faceBoxRef (drawComposition (withoutBackgroundReplace pr) st canvas
                     (Some segmentation) snapshot)
  /\ is_Some (maskCanvasRef st') /\ is_Some (personCanvasRef st')
  /\ closedSegmentations st' = S (closedSegmentations st).
Proof.
  intros Hon [[mask isConfidenceMask] Hsel] Hctx st'. subst st'.
  unfold drawComposition. rewrite Hon, Hsel, Hctx. cbv zeta.
  cbn [cp_enableBackgroundReplace withoutBackgroundReplace mirrorCamera
       cp_enableFaceSwap faceOverlayImage ctx_ops faceBoxRef maskCanvasRef
       personCanvasRef closedSegmentations].
  repeat split; eexists; reflexivity.
Qed.

(** The pixel loop leaves the length of the image data as it is. *)
Lemma fillMask_length (c : bool) (maskData : list num) (i : nat) (data : list num) :
  length (fillMask c maskData i data) = length data.
Proof.
  revert i data. induction maskData as [|v rest IH]; intros i data; [reflexivity|].
  cbn [fillMask]. rewrite IH, !length_insert. reflexivity.
Qed.

(** It writes from pixel [i] on. *)
Lemma fillMask_before (c : bool) (maskData : list num) (i : nat) (data : list num)
    (j : nat) :
  (j < i * 4)%nat -> fillMask c maskData i data !! j = data !! j.
Proof.
  revert i data. induction maskData as [|v rest IH]; intros i data Hj; [reflexivity|].
  cbn [fillMask]. rewrite IH by lia.
  rewrite !list_lookup_insert_ne by lia. reflexivity.
Qed.

(** X9.  The pixel loop writes, for the [k]-th mask value that has room
    in the image data, an opaque white pixel whose alpha is the converted
    mask value; it never resizes the image data, and leaves alone the pixels
    past the last mask value. *)
Theorem fillMask_pixels (c : bool) (maskData : list num) (data : list num) :
  length (fillMask c maskData 0 data) = length data
  /\ (forall k value,
        maskData !! k = Some value ->
        (k * 4 + 3 < length data)%nat ->
        fillMask c maskData 0 data !! (k * 4)%nat = Some (lit 255)
        /\ fillMask c maskData 0 data !! (k * 4 + 1)%nat = Some (lit 255)
        /\ fillMask c maskData 0 data !! (k * 4 + 2)%nat = Some (lit 255)
        /\ fillMask c maskData 0 data !! (k * 4 + 3)%nat = Some (maskAlpha c value))
  /\ (forall j, (length maskData * 4 <= j)%nat ->
        fillMask c maskData 0 data !! j = data !! j).
Proof.
  split; [apply fillMask_length|].
  assert (Hgen : forall maskData i data,
    (forall k value,
       maskData !! k = Some value ->
       ((i + k) * 4 + 3 < length data)%nat ->
       fillMask c maskData i data !! ((i + k) * 4)%nat = Some (lit 255)
       /\ fillMask c maskData i data !! ((i + k) * 4 + 1)%nat = Some (lit 255)
       /\ fillMask c maskData i data !! ((i + k) * 4 + 2)%nat = Some (lit 255)
       /\ fillMask c maskData i data !! ((i + k) * 4 + 3)%nat
          = Some (maskAlpha c value))
    /\ (forall j, ((i + length maskData) * 4 <= j)%nat ->
          fillMask c maskData i data !! j = data !! j)).
  { clear maskData data. induction maskData as [|v rest IH]; intros i data.
    - split; [intros k value Hk; discriminate Hk | reflexivity].
    - cbn [fillMask].
      set (data' := <[(i * 4 + 3)%nat := maskAlpha c v]>
                      (<[(i * 4 + 2)%nat := lit 255]>
                         (<[(i * 4 + 1)%nat := lit 255]>
                            (<[(i * 4)%nat := lit 255]> data)))).
      assert (Hlen : length data' = length data)
        by (unfold data'; rewrite !length_insert; reflexivity).
      destruct (IH (S i) data') as [IHk IHj]. split.
      + intros [|k] value Hk Hroom.
        * cbn in Hk. apply (inj Some) in Hk. subst value.
          replace (i + 0)%nat with i in * by lia.
          rewrite !fillMask_before by lia. unfold data'.
          repeat split.
          -- rewrite !list_lookup_insert_ne by lia.
             apply list_lookup_insert_eq. lia.
          -- rewrite !list_lookup_insert_ne by lia.
             apply list_lookup_insert_eq. rewrite !length_insert. lia.
          -- rewrite !list_lookup_insert_ne by lia.
             apply list_lookup_insert_eq. rewrite !length_insert. lia.
          -- apply list_lookup_insert_eq. rewrite !length_insert. lia.
        * cbn in Hk. replace (i + S k)%nat with (S i + k)%nat by lia.
          apply (IHk k value Hk). rewrite Hlen.
          replace (S i + k)%nat with (i + S k)%nat by lia. exact Hroom.
      + intros j Hj. cbn [length] in Hj. rewrite IHj by lia.
        unfold data'. rewrite !list_lookup_insert_ne by lia. reflexivity. }
  destruct (Hgen maskData 0%nat data) as [Hk Hj]. split.
  - intros k value Hv Hroom. exact (Hk k value Hv Hroom).
  - intros j Hlen. apply Hj. exact Hlen.
Qed.
End CompositorFallback.

Lemma drawComposition_context_fallback_witness :
  ctx_ops (drawComposition
             (mkCompositorProps true false false None None false true)
             emptyCompositor (mkFrameSize 640 480)%Q
             (Some (mkImageSegmenterResult
                      None (Some (mkMask 1 1 [1%Q] [1%Q]))))
             None)
  = directDraw false (mkFrameSize 640 480)%Q.
Proof.
  rewrite (proj1 (drawComposition_context_fallback
                    (mkCompositorProps true false false None None false true)
                    emptyCompositor (mkFrameSize 640 480)%Q
                    (mkImageSegmenterResult None (Some (mkMask 1 1 [1%Q] [1%Q])))
                    None eq_refl (ex_intro _ _ eq_refl) eq_refl)).
  reflexivity.
Defined.

Lemma fillMask_pixels_witness :
  fillMask true [1%Q] 0 (replicate 4 0%Q) !! 3%nat = Some (maskAlpha true 1%Q).
Proof.
  refine (proj2 (proj2 (proj2
            (proj1 (proj2 (fillMask_pixels true [1%Q] (replicate 4 0%Q)))
                   0%nat 1%Q _ _)))).
  - reflexivity.
  - cbn. lia.
Defined.

Section CompositorBuffersQ.
Local Open Scope Q_scope.

(** The alpha of a mask value is a whole number from 0 to 255: for a
    confidence mask the confidence, held to [0, 1], times 255 and rounded;
    for a category mask 255 for a positive category and 0 otherwise. *)
Theorem maskAlpha_range (isConfidenceMask : bool) (value : Q) :
  exists z : Z,
    maskAlpha isConfidenceMask value = inject_Z z
    /\ (0 <= z <= 255)%Z
    /\ (isConfidenceMask = false -> z = if Qltb 0 value then 255%Z else 0%Z)
    /\ (isConfidenceMask = true -> 1 <= value -> z = 255%Z)
    /\ (isConfidenceMask = true -> value <= 0 -> z = 0%Z).
Proof.
  unfold maskAlpha. destruct isConfidenceMask.
  - cbn [Math_round Math_min Math_max mul lit Q_Number].
    unfold Qround_half_up.
    set (c := if Qltb (if Qltb 0 value then value else 0) 1
              then (if Qltb 0 value then value else 0) else 1).
    assert (Hc : 0 <= c <= 1 /\ (1 <= value -> c == 1) /\ (value <= 0 -> c == 0)).
    { subst c. destruct (Qltb 0 value) eqn:E0.
      - apply Qltb_lt in E0. destruct (Qltb value 1) eqn:E1.
        + apply Qltb_lt in E1. split; [lra|]. split; intros; lra.
        + apply Qltb_ge in E1. split; [lra|]. split; intros; lra.
      - apply Qltb_ge in E0. replace (Qltb 0 1) with true by reflexivity.
        split; [lra|]. split; intros; lra. }
    destruct Hc as ([Hc0 Hc1] & Hone & Hzero).
    exists (Qfloor (c * 255 + (1 # 2))). split; [reflexivity|].
    clearbody c.
    assert (Hlo : (0 <= Qfloor (c * 255 + (1 # 2)))%Z).
    { apply Z.le_trans with (Qfloor 0); [discriminate|].
      apply Qfloor_resp_le. lra. }
    assert (Hhi : (Qfloor (c * 255 + (1 # 2)) <= 255)%Z).
    { apply Z.le_trans with (Qfloor (255 + (1 # 2))); [|discriminate].
      apply Qfloor_resp_le. lra. }
    split; [lia|]. split; [discriminate|]. split.
    + intros _ Hv. specialize (Hone Hv).
      assert (E : c * 255 + (1 # 2) == 255 + (1 # 2)) by (rewrite Hone; ring).
      rewrite E. reflexivity.
    + intros _ Hv. specialize (Hzero Hv).
      assert (E : c * 255 + (1 # 2) == 1 # 2) by (rewrite Hzero; ring).
      rewrite E. reflexivity.
  - cbn [ltb lit Q_Number]. destruct (Qltb 0 value).
    + exists 255%Z. repeat split; try lia; discriminate.
    + exists 0%Z. repeat split; try lia; discriminate.
Qed.

(** An offscreen buffer is set up once and kept: [ensureCanvas]
    returns a buffer of the size asked for; a buffer that already has that
    size is returned as it is, with what was drawn on it; and asking again
    for the same size changes nothing. *)
Theorem ensureCanvas_reuses (ref : option (Offscreen Q)) (width height : Q) :
  (oc_width (ensureCanvas ref width height) == width
   /\ oc_height (ensureCanvas ref width height) == height)
  /\ (forall c, ref = Some c -> oc_width c == width -> oc_height c == height ->
        ensureCanvas ref width height = c)
  /\ ensureCanvas (Some (ensureCanvas ref width height)) width height
     = ensureCanvas ref width height.
Proof.
  assert (Hsize : forall r,
            oc_width (ensureCanvas r width height) == width
            /\ oc_height (ensureCanvas r width height) == height).
  { intros r. unfold ensureCanvas. cbn [eqb Q_Number].
    destruct (Qeq_bool (oc_width _) width) eqn:Ew;
      destruct (Qeq_bool (oc_height _) height) eqn:Eh; cbn;
      try (split; reflexivity).
    apply Qeq_bool_iff in Ew, Eh. split; assumption. }
  assert (Hkeep : forall c, oc_width c == width -> oc_height c == height ->
            ensureCanvas (Some c) width height = c).
  { intros c Hw Hh. unfold ensureCanvas. cbn [eqb Q_Number].
    rewrite (Qeq_bool_true _ _ Hw), (Qeq_bool_true _ _ Hh). reflexivity. }
  split; [apply Hsize|]. split.
  - intros c -> Hw Hh. apply Hkeep; assumption.
  - apply Hkeep; apply Hsize.
Qed.

Lemma ensureCanvas_reuses_witness :
  ensureCanvas (Some (mkOffscreen 640 480 [Fill])) 640 480
  = mkOffscreen 640 480 [Fill].
Proof.
  refine (proj1 (proj2 (ensureCanvas_reuses (Some (mkOffscreen 640 480 [Fill]))
                          640 480)) _ eq_refl _ _); reflexivity.
Defined.
End CompositorBuffersQ.

(** ** The avatar frame: first frame, visibility, expression state *)

Section AvatarFirstFrame.
Context {num : Type} `{Number num} `{Runtime num}.

(** X10.  First-frame snap.  A frame that shows the avatar while no
    position has been smoothed yet puts it at the target position and scale
    of the box in use, without interpolation.  The box in use is the box of
    this frame's landmarks in the frame (paddings 0.28 and 0.55, shift 0.45,
    mirrored as the avatar is) when the snapshot has landmarks, and otherwise
    the last known box, less than 1500 ms old.  A frame with a valid matrix
    while no rotation has been smoothed yet takes the target orientation as
    it is, whether or not a position had been smoothed before. *)
Theorem useFrame_first_frame_snaps (st : AvatarState num) (inp : AvatarInput num) :
  (visible <$> groupRef (useFrame st inp)) = Some true ->
  hasPositionRef (useFrame st inp) = true
  /\ (hasPositionRef st = false ->
      exists faceBox,
        ((exists s,
            av_snapshot inp = Some s /\ landmarks s <> []
            /\ faceBox
               = computeFaceBox (landmarks s)
                   (fs_width (frame inp)) (fs_height (frame inp))
                   (lit 0.28) (lit 0.55) (lit 0.45) (mirror inp))
         \/ ((av_snapshot inp = None
              \/ exists s, av_snapshot inp = Some s /\ landmarks s = [])
             /\ lastFaceBoxRef st = Some faceBox
             /\ ltb (sub (av_now inp) (lastFaceBoxTimeRef st)) (lit 1500) = true))
        /\ smoothPositionRef (useFrame st inp) = fst (targetPlacement inp faceBox)
        /\ smoothScaleRef (useFrame st inp) = snd (targetPlacement inp faceBox)
        /\ (position <$> groupRef (useFrame st inp))
           = Some (fst (targetPlacement inp faceBox))
        /\ (scale <$> groupRef (useFrame st inp))
           = Some (snd (targetPlacement inp faceBox)))
  /\ (hasRotationRef st = false ->
      forall s md,
        av_snapshot inp = Some s -> matrix s = Some md ->
        hasValidMatrixOf (Some md) = true ->
        smoothQuatRef (useFrame st inp) = targetQuatOf md (mirror inp)
        /\ (quaternion <$> groupRef (useFrame st inp))
           = Some (targetQuatOf md (mirror inp))
        /\ hasRotationRef (useFrame st inp) = true).
Proof.
  unfold useFrame. destruct (enabled inp); cbn [negb].
  2: { destruct (groupRef st); cbn; discriminate. }
  cbv zeta. destruct (groupRef st) as [g|]; [|cbn; discriminate].
  match goal with
  | |- context [heldFaceBox ?a ?b ?c ?d] =>
      destruct (heldFaceBox a b c d) as [fb|] eqn:Eheld
  end; [|cbn; discriminate].
  destruct (truthy (fs_width (frame inp)) && truthy (fs_height (frame inp)))
    eqn:Eframe; [|cbn; discriminate].
  intros _.
  cbn [groupRef hasPositionRef hasRotationRef smoothPositionRef smoothScaleRef
       smoothQuatRef option_fmap option_map fmap position scale quaternion].
  split; [reflexivity|]. split.
  - intros Hp. exists fb. split.
    + destruct (latestFaceBoxOf inp) as [b|] eqn:El.
      * left. cbn [heldFaceBox] in Eheld. apply (inj Some) in Eheld. subst b.
        destruct (latestFaceBoxOf_guard inp fb El) as (s & Hs & Hne & Hb).
        exists s. repeat split; assumption.
      * right. cbn [heldFaceBox] in Eheld.
        destruct (lastFaceBoxRef st) as [b|]; [|discriminate Eheld].
        destruct (ltb (sub (av_now inp) (lastFaceBoxTimeRef st)) faceBoxHoldMs)
          eqn:Et; [|discriminate Eheld].
        apply (inj Some) in Eheld. subst b.
        split; [|split; [reflexivity | exact Et]].
        unfold latestFaceBoxOf in El.
        destruct (av_snapshot inp) as [s|]; [|left; reflexivity].
        right. exists s. split; [reflexivity|].
        destruct (landmarks s); [reflexivity|].
        cbn [length Nat.ltb Nat.leb andb] in El.
        apply andb_prop in Eframe. destruct Eframe as [Ew Eh].
        rewrite Ew, Eh in El. discriminate El.
    + unfold smoothPlacement. rewrite Hp.
      destruct (targetPlacement inp fb). cbn. repeat split.
  - intros Hr s md Hs Hm Hv. unfold smoothRotation. rewrite Hs, Hm, Hv, Hr.
    cbn. repeat split.
Qed.

Lemma useFrame_group_stays (st : AvatarState num) (inp : AvatarInput num) :
  is_Some (groupRef st) -> is_Some (groupRef (useFrame st inp)).
Proof.
  intros [g Hg]. unfold useFrame. rewrite Hg.
  destruct (enabled inp); cbn [negb]; [|cbn; eexists; reflexivity].
  cbv zeta.
  match goal with
  | |- context [heldFaceBox ?a ?b ?c ?d] => destruct (heldFaceBox a b c d)
  end; [|cbn; eexists; reflexivity].
  destruct (truthy (fs_width (frame inp)) && truthy (fs_height (frame inp)));
    cbn; eexists; reflexivity.
Qed.

(** X11.  A snapshot that gives a box keeps the avatar on screen and the
    hold fresh: over any run of enabled frames with a mounted group, if the
    last frame reads a snapshot with landmarks at a known frame size, the
    avatar is visible after it and the last known box is that frame's, timed
    at that frame, however old the snapshot itself is. *)
Theorem useFrame_stale_snapshot_stays_visible
    (st : AvatarState num) (inps : list (AvatarInput num)) (inp : AvatarInput num)
    (b : FaceBox num) :
  is_Some (groupRef st) ->
  enabled inp = true ->
  latestFaceBoxOf inp = Some b ->
  let st' := runFrames st (inps ++ [inp]) in
  (visible <$> groupRef st') = Some true
  /\ lastFaceBoxRef st' = Some b
  /\ lastFaceBoxTimeRef st' = av_now inp.
Proof.
  intros Hg He Hl st'. subst st'. unfold runFrames. rewrite fold_left_app.
  cbn [fold_left]. apply useFrame_fresh_box; [exact He | | exact Hl].
  clear He Hl. revert st Hg.
  induction inps as [|i inps IH]; intros st Hg; [exact Hg|].
  cbn [fold_left]. apply IH. apply useFrame_group_stays. exact Hg.
Qed.
End AvatarFirstFrame.

Lemma useFrame_first_frame_snaps_witness :
  hasPositionRef (useFrame (H0 := sampleRuntime) sampleAvatarState sampleAvatarInput)
  = true.
Proof.
  refine (proj1 (@useFrame_first_frame_snaps Q _ sampleRuntime
                   sampleAvatarState sampleAvatarInput _)).
  vm_compute. reflexivity.
Defined.

Lemma useFrame_stale_snapshot_stays_visible_witness :
  (visible <$> groupRef
     (runFrames (H0 := sampleRuntime) sampleAvatarState
        ([withNow sampleAvatarInput 5000%Q] ++ [withNow sampleAvatarInput 900000%Q])))
  = Some true.
Proof.
  refine (proj1 (@useFrame_stale_snapshot_stays_visible Q _ sampleRuntime
                   sampleAvatarState [withNow sampleAvatarInput 5000%Q]
                   (withNow sampleAvatarInput 900000%Q)
                   (computeFaceBox (landmarks sampleSnapshot) 640%Q 480%Q
                                   avatarPadX avatarPadY avatarShiftY true)
                   _ _ _)).
  - eexists. reflexivity.
  - reflexivity.
  - reflexivity.
Defined.

Section BlendshapeEdges.
Context {num : Type} `{Number num}.

(** Expression weights need a mesh that knows them: when the mesh
    has no morph target dictionary, or no influences array, or knows none of
    the frame's blendshape names, the loop over the blendshapes changes
    neither the smoothed state nor the influences. *)
Theorem applyBlendshapes_without_targets
    (dict : option (gmap string nat)) (shapes : list (Blendshape num))
    (state : gmap string num) (influences : option (gmap nat num)) :
  dict = None \/ influences = None
  \/ (exists d, dict = Some d /\ forall sh, In sh shapes -> d !! bs_name sh = None) ->
  applyBlendshapes dict shapes (state, influences) = (state, influences).
Proof.
  intros Hcase. induction shapes as [|sh shapes IH]; [reflexivity|].
  cbn [applyBlendshapes fold_left].
  assert (Hstep : applyShape dict (state, influences) sh = (state, influences)).
  { destruct Hcase as [->|[->|(d & -> & Hd)]].
    - reflexivity.
    - unfold applyShape. destruct dict as [d|]; [|reflexivity].
      destruct (d !! bs_name sh); reflexivity.
    - apply applyShape_unknown. apply Hd. left. reflexivity. }
  rewrite Hstep. apply IH.
  destruct Hcase as [?|[?|(d & ? & Hd)]]; auto.
  right. right. exists d. split; [assumption|].
  intros sh' Hsh'. apply Hd. right. exact Hsh'.
Qed.
End BlendshapeEdges.

Lemma applyBlendshapes_without_targets_witness :
  applyBlendshapes (num := Q) None [mkBlendshape "jawOpen" 0.5%Q] (∅, Some ∅)
  = (∅, Some ∅).
Proof.
  refine (applyBlendshapes_without_targets None _ ∅ (Some ∅) _).
  left. reflexivity.
Defined.

Section BlendshapeRangeQ.
Local Open Scope Q_scope.

Lemma lerp_between (p t f : Q) :
  0 <= p <= 1 -> 0 <= t <= 1 -> 0 <= f <= 1 -> 0 <= lerp p t f <= 1.
Proof.
  intros Hp Ht Hf. unfold lerp. cbn [add sub mul Q_Number].
  assert (E : p + (t - p) * f == p * (1 - f) + t * f) by ring.
  rewrite E. split; nra.
Qed.

Lemma smoothedWeight_range (prev : option Q) (shape : Blendshape Q) :
  (forall p, prev = Some p -> 0 <= p <= 1) ->
  0 <= bs_score shape <= 1 ->
  0 <= smoothedWeight prev shape <= 1.
Proof.
  intros Hprev Hs. unfold smoothedWeight.
  assert (Hp : 0 <= default (lit 0) prev <= 1).
  { destruct prev as [p|]; [apply Hprev; reflexivity | cbn; lra]. }
  destruct (isGaze (bs_name shape)).
  - apply lerp_between; [exact Hp | cbn; nra | cbn; lra].
  - apply lerp_between; [exact Hp | exact Hs | cbn; lra].
Qed.

(** X12.  Scores within [0, 1] keep the smoothed expression state within
    [0, 1]: if every smoothed weight and every influence is within [0, 1]
    before the loop over the blendshapes and every score is, then every
    smoothed weight and every influence is within [0, 1] after it. *)
Theorem applyBlendshapes_keeps_unit_range
    (dict : option (gmap string nat)) (shapes : list (Blendshape Q))
    (state : gmap string Q) (influences : gmap nat Q) :
  map_Forall (fun _ w => 0 <= w <= 1) state ->
  map_Forall (fun _ w => 0 <= w <= 1) influences ->
  Forall (fun sh => 0 <= bs_score sh <= 1) shapes ->
  exists state' influences',
    applyBlendshapes dict shapes (state, Some influences)
    = (state', Some influences')
    /\ map_Forall (fun _ w => 0 <= w <= 1) state'
    /\ map_Forall (fun _ w => 0 <= w <= 1) influences'.
Proof.
  destruct dict as [d|].
  2: { intros Hst Hin _.
       rewrite applyBlendshapes_without_targets by (left; reflexivity).
       exists state, influences. auto. }
  revert state influences.
  induction shapes as [|sh shapes IH]; intros state influences Hst Hin Hsc.
  - exists state, influences. cbn. auto.
  - inversion Hsc as [|? ? Hsh Hrest]; subst.
    cbn [applyBlendshapes fold_left].
    destruct (d !! bs_name sh) as [ix|] eqn:Hd.
    + rewrite (applyShape_applied _ _ _ _ _ Hd).
      assert (Hw : 0 <= smoothedWeight (state !! bs_name sh) sh <= 1).
      { apply smoothedWeight_range; [|exact Hsh].
        intros p Hp. exact (Hst _ _ Hp). }
      apply IH; [| |exact Hrest].
      * apply map_Forall_insert_2; assumption.
      * apply map_Forall_insert_2; [|exact Hin].
        apply (proj1 (clamp01_range _)).
    + rewrite (applyShape_unknown _ _ _ Hd). apply IH; assumption.
Qed.

Lemma applyBlendshapes_keeps_unit_range_witness :
  exists state' influences',
    applyBlendshapes (Some {["jawOpen" := 0%nat]}) [mkBlendshape "jawOpen" 0.5]
                     (∅, Some ∅)
    = (state', Some influences')
    /\ map_Forall (fun _ w => 0 <= w <= 1) state'.
Proof.
  destruct (applyBlendshapes_keeps_unit_range (Some {["jawOpen" := 0%nat]})
              [mkBlendshape "jawOpen" 0.5] ∅ ∅)
    as (state' & influences' & Hrun & Hs & _).
  - apply map_Forall_empty.
  - apply map_Forall_empty.
  - repeat constructor; cbn; discriminate.
  - exists state', influences'. split; assumption.
Defined.

(** The device pixel ratio of the avatar canvas is the render
    quality held to [0.8, 1.5]: never below 0.8, never above 1.5, and the
    render quality itself when that is within the two. *)
Theorem dpr_range (renderQuality : Q) :
  0.8 <= dpr renderQuality <= 1.5
  /\ (0.8 <= renderQuality <= 1.5 -> dpr renderQuality == renderQuality)
  /\ (renderQuality <= 0.8 -> dpr renderQuality == 0.8)
  /\ (1.5 <= renderQuality -> dpr renderQuality == 1.5).
Proof.
  unfold dpr. cbn [Math_min Math_max lit Q_Number].
  destruct (Qltb 0.8 renderQuality) eqn:E0.
  - apply Qltb_lt in E0. destruct (Qltb renderQuality 1.5) eqn:E1.
    + apply Qltb_lt in E1. repeat split; intros; lra.
    + apply Qltb_ge in E1. repeat split; intros; lra.
  - apply Qltb_ge in E0. replace (Qltb 0.8 1.5) with true by reflexivity.
    repeat split; intros; lra.
Qed.
End BlendshapeRangeQ.

(** ** The avatar frame: convergence of scale and expression weights *)

Section ScaleConverges.
Local Open Scope R_scope.
Context (rt : Runtime R).
Hypothesis Hexp : @Math_exp R rt = exp.

Lemma lit_R_10 : lit (num := R) 10 = 10.
Proof. cbn. unfold Q2R. cbn. lra. Qed.

Lemma damp_R (x y dt : R) :
  damp x y (lit 10) dt - y = exp (- (10 * dt)) * (x - y).
Proof.
  unfold damp. rewrite lerp_R. rewrite Hexp.
  cbn [sub mul neg R_Number]. rewrite lit_R_1, lit_R_10.
  replace (- (10) * dt) with (- (10 * dt)) by ring. ring.
Qed.

Lemma steady_frame_scale (st : AvatarState R) (inp : AvatarInput R) (now : R)
    (fb : FaceBox R) :
  enabled inp = true ->
  is_Some (groupRef st) ->
  latestFaceBoxOf inp = Some fb ->
  let st' := useFrame st (withNow inp now) in
  is_Some (groupRef st')
  /\ hasPositionRef st' = true
  /\ (scale <$> groupRef st') = Some (smoothScaleRef st')
  /\ smoothScaleRef st'
     = (if hasPositionRef st
        then damp (smoothScaleRef st) (snd (targetPlacement inp fb))
                  (lit 10) (delta inp)
        else snd (targetPlacement inp fb)).
Proof.
  intros He [g Hg] Hl st'. subst st'. unfold useFrame.
  change (enabled (withNow inp now)) with (enabled inp).
  change (latestFaceBoxOf (withNow inp now)) with (latestFaceBoxOf inp).
  change (frame (withNow inp now)) with (frame inp).
  rewrite He, Hg, Hl, (latestFaceBoxOf_frame inp fb Hl).
  cbn [negb heldFaceBox].
  cbn [groupRef hasPositionRef smoothScaleRef option_fmap option_map fmap scale].
  split; [eexists; reflexivity|]. split; [reflexivity|]. split; [reflexivity|].
  unfold smoothPlacement.
  change (targetPlacement (withNow inp now) fb) with (targetPlacement inp fb).
  change (delta (withNow inp now)) with (delta inp).
  destruct (targetPlacement inp fb) as [targetPos boxScale].
  destruct (hasPositionRef st); reflexivity.
Qed.

(** X13.  The scale approaches its target like the position, at rate 10:
    over [n] consecutive frames with the same target and a fixed positive
    step, what is left of the offset of the smoothed scale to the target
    scale is [e^(-10 dt n)] times the initial offset once a scale has been
    smoothed before, and nothing after a first-frame snap; the scale of the
    group is the smoothed scale. *)
Theorem scale_converges (st : AvatarState R) (inp : AvatarInput R)
    (fb : FaceBox R) (nows : list R) :
  enabled inp = true ->
  latestFaceBoxOf inp = Some fb ->
  0 < delta inp ->
  is_Some (groupRef st) ->
  let n := length nows in
  let st' := runFrames st (steadyFrames inp nows) in
  let target := snd (targetPlacement inp fb) in
  is_Some (groupRef st')
  /\ (hasPositionRef st = true ->
      smoothScaleRef st' - target
      = exp (- (10 * delta inp * INR n)) * (smoothScaleRef st - target))
  /\ (hasPositionRef st = false -> nows <> [] -> smoothScaleRef st' = target)
  /\ Rabs (smoothScaleRef st' - target) <= Rabs (smoothScaleRef st - target)
  /\ (nows <> [] -> (scale <$> groupRef st') = Some (smoothScaleRef st')).
Proof.
  intros He Hl Hdt. revert st.
  induction nows as [|now nows IH]; intros st Hg; cbv zeta in *.
  - cbn [steadyFrames map runFrames fold_left length INR].
    split; [exact Hg|]. split.
    { intros _. replace (- (10 * delta inp * 0)) with 0 by ring.
      rewrite exp_0. ring. }
    split; [intros _ Hne; contradiction|]. split; [lra|].
    intros Hne. contradiction.
  - destruct (steady_frame_scale st inp now fb He Hg Hl) as (Hg1 & Hp1 & Hgs & Hsc).
    set (st1 := useFrame st (withNow inp now)) in *.
    destruct (IH st1 Hg1) as (Hg' & Heq & _ & Hle & Hgroup).
    specialize (Heq Hp1).
    change (runFrames st (steadyFrames inp (now :: nows)))
      with (runFrames st1 (steadyFrames inp nows)).
    assert (Hk : 0 < exp (- (10 * delta inp)) < 1).
    { split; [apply exp_pos|]. rewrite <- exp_0. apply exp_increasing. lra. }
    assert (Hkn : 0 < exp (- (10 * delta inp * INR (length nows))))
      by apply exp_pos.
    split; [exact Hg'|]. split; [|split; [|split]].
    + intros Hp. rewrite Hp in Hsc. rewrite Heq, Hsc, damp_R.
      cbn [length]. rewrite S_INR.
      replace (- (10 * delta inp * (INR (length nows) + 1)))
        with (- (10 * delta inp * INR (length nows)) + - (10 * delta inp)) by ring.
      rewrite exp_plus. ring.
    + intros Hp _. rewrite Hp in Hsc.
      assert (E : smoothScaleRef (runFrames st1 (steadyFrames inp nows))
                  - snd (targetPlacement inp fb) = 0).
      { rewrite Heq, Hsc. ring. }
      lra.
    + eapply Rle_trans; [exact Hle|]. rewrite Hsc.
      destruct (hasPositionRef st).
      * rewrite damp_R, Rabs_mult, (Rabs_pos_eq (exp _)) by lra.
        generalize (Rabs_pos (smoothScaleRef st - snd (targetPlacement inp fb))). nra.
      * replace (snd (targetPlacement inp fb) - snd (targetPlacement inp fb))
          with 0 by ring.
        rewrite Rabs_R0. apply Rabs_pos.
    + intros _. destruct nows as [|now' nows'].
      * exact Hgs.
      * apply Hgroup. discriminate.
Qed.
End ScaleConverges.

Lemma scale_converges_witness :
  (smoothScaleRef
     (runFrames (H0 := realRuntime) realAvatarState
        (steadyFrames realAvatarInput [1016; 1032]))
   - snd (targetPlacement realAvatarInput
            (computeFaceBox (landmarks realSnapshot) 640 480
                            avatarPadX avatarPadY avatarShiftY false))
   = exp (- (10 * / 64 * INR 2))
     * (smoothScaleRef realAvatarState
        - snd (targetPlacement realAvatarInput
                 (computeFaceBox (landmarks realSnapshot) 640 480
                                 avatarPadX avatarPadY avatarShiftY false))))%R.
Proof.
  assert (Htruthy : forall x : R, x <> 0%R -> truthy x = true).
  { intros x Hx. cbn. unfold Reqb. destruct (Req_dec_T x 0); [contradiction|].
    reflexivity. }
  assert (Hbox : latestFaceBoxOf realAvatarInput
                 = Some (computeFaceBox (landmarks realSnapshot) 640%R 480%R
                           avatarPadX avatarPadY avatarShiftY false)).
  { unfold latestFaceBoxOf. cbn [av_snapshot realAvatarInput frame fs_width fs_height].
    rewrite !Htruthy by lra. reflexivity. }
  refine (proj1 (proj2 (scale_converges realRuntime eq_refl realAvatarState
                          realAvatarInput _ [1016; 1032]%R eq_refl Hbox _ _)) _).
  - cbn. lra.
  - eexists. reflexivity.
  - reflexivity.
Defined.

Section ExpressionConvergesQ.
Local Open Scope Q_scope.
Context (rt : Runtime Q).

Lemma smoothedWeight_offset (prev : option Q) (shape : Blendshape Q) :
  let target := if isGaze (bs_name shape)
                then bs_score shape * 0.4 else bs_score shape in
  let keep := if isGaze (bs_name shape) then 0.85 else 0.75 in
  smoothedWeight prev shape - target == keep * (default 0 prev - target).
Proof.
  unfold smoothedWeight, lerp. cbn [add sub mul lit Q_Number].
  destruct (isGaze (bs_name shape)); cbv zeta; ring.
Qed.

(** One steady frame: the expression state and the mesh are those of the
    loop over the blendshapes. *)
Lemma steady_frame_blendshapes (st : AvatarState Q) (inp : AvatarInput Q)
    (now : Q) (fb : FaceBox Q) :
  enabled inp = true ->
  is_Some (groupRef st) ->
  latestFaceBoxOf inp = Some fb ->
  let st' := useFrame st (withNow inp now) in
  is_Some (groupRef st')
  /\ blendshapeStateRef st' = fst (smoothBlendshapes st inp)
  /\ morphTargetMeshRef st' = snd (smoothBlendshapes st inp).
Proof.
  intros He Hg Hl st'. subst st'.
  destruct (useFrame_fresh_box st (withNow inp now) fb He Hg Hl) as (Hvis & _ & _).
  destruct (useFrame_visible st (withNow inp now) Hvis)
    as (g & b & _ & _ & _ & _ & _ & Hs & Hm).
  split; [apply useFrame_group_stays; exact Hg|]. split; assumption.
Qed.

(** X14.  Expression weights approach their targets geometrically: over
    [n] consecutive frames that show the avatar with the same blendshapes
    (names unique), the offset of the smoothed weight of a blendshape the
    mesh knows to its target is [0.75^n] times the initial offset, and for a
    gaze blendshape, whose target is 0.4 times its score, [0.85^n] times. *)
Theorem expression_weights_converge
    (st : AvatarState Q) (inp : AvatarInput Q) (fb : FaceBox Q)
    (s : FaceSnapshot Q) (shapes : list (Blendshape Q))
    (dict : gmap string nat) (infl : gmap nat Q)
    (shape : Blendshape Q) (index : nat) (nows : list Q) :
  enabled inp = true ->
  latestFaceBoxOf inp = Some fb ->
  is_Some (groupRef st) ->
  av_snapshot inp = Some s ->
  blendshapes s = Some shapes ->
  NoDup (map bs_name shapes) ->
  morphTargetMeshRef st = Some (mkMesh (Some dict) (Some infl)) ->
  In shape shapes ->
  dict !! bs_name shape = Some index ->
  let st' := runFrames st (steadyFrames inp nows) in
  let target := if isGaze (bs_name shape)
                then bs_score shape * 0.4 else bs_score shape in
  let keep := if isGaze (bs_name shape) then 0.85 else 0.75 in
  default 0 (blendshapeStateRef st' !! bs_name shape) - target
  == Qpow keep (length nows)
     * (default 0 (blendshapeStateRef st !! bs_name shape) - target).
Proof.
  intros He Hl Hg Hs Hb Hnd Hmesh Hin Hix. cbv zeta.
  revert st infl Hg Hmesh.
  induction nows as [|now nows IH]; intros st infl Hg Hmesh.
  - cbn [steadyFrames map runFrames fold_left length Qpow]. ring.
  - change (runFrames st (steadyFrames inp (now :: nows)))
      with (runFrames (useFrame st (withNow inp now)) (steadyFrames inp nows)).
    destruct (steady_frame_blendshapes st inp now fb He Hg Hl) as (Hg1 & Hst & Hm).
    set (st1 := useFrame st (withNow inp now)) in *.
    unfold smoothBlendshapes in Hst, Hm. rewrite Hs, Hb, Hmesh in Hst, Hm.
    destruct shapes as [|shape0 shapes']; [destruct Hin|].
    cbn [morphTargetDictionary morphTargetInfluences] in Hst, Hm.
    destruct (applyBlendshapes_weights dict (shape0 :: shapes')
                (blendshapeStateRef st) infl Hnd)
      as (state' & infl' & Hrun & Hall).
    rewrite Hrun in Hst, Hm. cbn [fst snd] in Hst, Hm.
    destruct (Hall shape index Hin Hix) as [Hw _].
    rewrite (IH st1 infl' Hg1 Hm).
    rewrite Hst, Hw. cbn [default length Qpow].
    pose proof (smoothedWeight_offset (blendshapeStateRef st !! bs_name shape) shape)
      as E.
    cbv zeta in E. rewrite E. ring.
Qed.

Lemma Qpow_pos (q : Q) (n : nat) : 0 <= q -> 0 <= Qpow q n.
Proof.
  intros Hq. induction n as [|n IH]; cbn [Qpow]; [discriminate|].
  apply Qmult_le_0_compat; assumption.
Qed.
End ExpressionConvergesQ.

Section ExpressionConvergesSample.
Local Open Scope Q_scope.

Lemma expression_weights_converge_witness :
  (default 0
     (blendshapeStateRef
        (runFrames (H0 := sampleRuntime) sampleAvatarState
           (steadyFrames sampleAvatarInput [1016; 1032]))
      !! "jawOpen")
   - 0.5
   == Qpow 0.75 2
      * (default 0 (blendshapeStateRef (num := Q) sampleAvatarState !! "jawOpen")
         - 0.5))%Q.
Proof.
  refine (@expression_weights_converge sampleRuntime
            sampleAvatarState sampleAvatarInput _ sampleSnapshot
            [mkBlendshape "jawOpen" 0.5; mkBlendshape "eyeLookInLeft" 0.5]
            {["jawOpen" := 0%nat; "eyeLookInLeft" := 1%nat]} ∅
            (mkBlendshape "jawOpen" 0.5) 0%nat [1016%Q; 1032%Q]
            _ _ _ _ _ _ _ _ _).
  - reflexivity.
  - reflexivity.
  - eexists. reflexivity.
  - reflexivity.
  - reflexivity.
  - cbn [map bs_name]. apply NoDup_cons_2; [|apply NoDup_singleton].
    intros Hin. apply list_elem_of_In in Hin. destruct Hin as [E|[]].
    discriminate E.
  - reflexivity.
  - left. reflexivity.
  - vm_compute. reflexivity.
Defined.
End ExpressionConvergesSample.

(** ** The MediaPipe service: delegates and initialisation *)

Section DelegateOrder.

(** The two orders, and when each is returned. *)
Lemma getDelegateOrder_cases (window : option WindowEnv) :
  (getDelegateOrder window = [CPU]
   /\ inElectron window = true /\ storedRenderMode window <> Some "gpu")
  \/ (getDelegateOrder window = [GPU; CPU]
      /\ (inElectron window = false \/ storedRenderMode window = Some "gpu")).
Proof.
  unfold getDelegateOrder, inElectron, storedRenderMode.
  destruct window as [[[version|] read]|]; cbn [electronVersion localStorage];
    auto.
  destruct (String.eqb version "") eqn:Ev; cbn [negb]; auto.
  destruct read as [|[stored|]].
  - left. repeat split; auto; intros Hs; discriminate.
  - destruct (String.eqb stored "gpu") eqn:Egpu.
    + apply String.eqb_eq in Egpu. subst stored. cbn. auto.
    + assert (Hne : Some stored <> Some "gpu").
      { intros Hs. apply (inj Some) in Hs. subst stored. discriminate. }
      destruct (String.eqb stored "cpu" || false); [rewrite Egpu|]; auto.
  - left. repeat split; auto; intros Hs; discriminate.
Qed.

(** X15. Whatever the window, [getDelegateOrder] returns a list without
    repetition that ends with the CPU delegate; it contains the GPU delegate
    exactly when the page does not run in Electron or the stored render mode
    is "gpu". *)
Theorem getDelegateOrder_cpu_last (window : option WindowEnv) :
  last (getDelegateOrder window) = Some CPU
  /\ NoDup (getDelegateOrder window)
  /\ (In GPU (getDelegateOrder window)
      <-> inElectron window = false \/ storedRenderMode window = Some "gpu").
Proof.
  assert (Hgc : NoDup [GPU; CPU]).
  { apply NoDup_cons_2; [|apply NoDup_singleton].
    intros Hin. apply list_elem_of_In in Hin. simpl in Hin.
    destruct Hin as [Hin | []]. discriminate. }
  assert (Hc : NoDup [CPU]) by apply NoDup_singleton.
  destruct (getDelegateOrder_cases window) as [(-> & Hel & Hmode) | (-> & Hor)].
  - repeat split; auto.
    + intros [Hin | []]. discriminate.
    + intros [Hd | Hs]; [congruence | contradiction].
  - repeat split; auto. intros _. simpl. auto.
Qed.
End DelegateOrder.

Section CreateWithDelegates.
Context {T E : Type}.
Implicit Types (createFn : Delegate -> T + E) (delegates : list Delegate).

Lemma tryDelegates_success createFn delegates lastError created warned :
  tryDelegates createFn delegates lastError = (inl created, warned)
  <-> exists d rest,
        delegates = warned ++ d :: rest
        /\ Forall (fun d' => is_Some (thrownBy createFn d')) warned
        /\ createFn d = inl created.
Proof.
  revert lastError warned.
  induction delegates as [|d0 ds IH]; intros lastError warned; cbn [tryDelegates].
  - split.
    + intros Hr. discriminate.
    + intros (d & rest & Heq & _). destruct warned; discriminate.
  - destruct (createFn d0) as [v|e] eqn:Ec.
    + split.
      * intros Hr. inversion Hr; subst. exists d0, ds. repeat split; auto.
      * intros (d & rest & Heq & Hall & Hd).
        destruct warned as [|w ws].
        -- cbn in Heq. inversion Heq; subst. rewrite Ec in Hd.
           inversion Hd; subst. reflexivity.
        -- cbn in Heq. inversion Heq; subst.
           apply Forall_cons in Hall. destruct Hall as [[x Hx] _].
           unfold thrownBy in Hx. rewrite Ec in Hx. discriminate.
    + destruct (tryDelegates createFn ds (Some e)) as [r ws] eqn:Et.
      split.
      * intros Hr. inversion Hr; subst.
        destruct (proj1 (IH (Some e) ws) Et) as (d & rest & Heq & Hall & Hd).
        exists d, rest. repeat split; auto.
        -- cbn. rewrite Heq. reflexivity.
        -- apply Forall_cons. split; auto.
           unfold thrownBy. rewrite Ec. eauto.
      * intros (d & rest & Heq & Hall & Hd).
        destruct warned as [|w ws'].
        -- cbn in Heq. inversion Heq; subst. rewrite Ec in Hd. discriminate.
        -- cbn in Heq. inversion Heq; subst.
           apply Forall_cons in Hall. destruct Hall as [_ Hall].
           assert (Hi : tryDelegates createFn (ws' ++ d :: rest) (Some e)
                        = (inl created, ws')).
           { apply IH. exists d, rest. auto. }
           rewrite Hi in Et. inversion Et; subst. reflexivity.
Qed.

Lemma tryDelegates_failure createFn delegates lastError :
  Forall (fun d => is_Some (thrownBy createFn d)) delegates ->
  tryDelegates createFn delegates lastError
  = (inr (match last delegates with
          | Some d => thrownBy createFn d
          | None => lastError
          end), delegates).
Proof.
  revert lastError.
  induction delegates as [|d0 ds IH]; intros lastError Hall; cbn [tryDelegates].
  - reflexivity.
  - apply Forall_cons in Hall. destruct Hall as [[e He] Hall].
    unfold thrownBy in He. destruct (createFn d0) as [v|e'] eqn:Ec; [discriminate|].
    rewrite (IH (Some e') Hall).
    destruct ds as [|d1 ds'].
    + cbn. unfold thrownBy. rewrite Ec. reflexivity.
    + rewrite last_cons_cons.
      destruct (last (d1 :: ds')) eqn:El; [reflexivity|].
      apply last_None in El. discriminate.
Qed.

(** X16. [createWithDelegates] returns a created value, having warned
    about the delegates [warned], exactly when the list of delegates starts
    with [warned], creation throws for each of those, and it succeeds with
    that value for the delegate after them: the first delegate that works
    wins and the later ones are never tried. *)
Theorem createWithDelegates_first_success createFn delegates created warned :
  createWithDelegates createFn delegates = (inl created, warned)
  <-> exists d rest,
        delegates = warned ++ d :: rest
        /\ Forall (fun d' => is_Some (thrownBy createFn d')) warned
        /\ createFn d = inl created.
Proof. apply tryDelegates_success. Qed.

(** X17. When creation throws for every delegate, [createWithDelegates]
    throws the error of the last delegate, after a warning for each one; with
    no delegate at all it throws [undefined]. *)
Theorem createWithDelegates_all_fail createFn delegates :
  Forall (fun d => is_Some (thrownBy createFn d)) delegates ->
  createWithDelegates createFn delegates
  = (inr (last delegates ≫= thrownBy createFn), delegates).
Proof.
  intros Hall. unfold createWithDelegates.
  rewrite (tryDelegates_failure _ _ None Hall).
  destruct (last delegates); reflexivity.
Qed.

(** With the CPU delegate creating a value, any order [getDelegateOrder]
    can give ends in a created value. *)
Lemma createWithDelegates_cpu_suffices createFn window (created : T) :
  createFn CPU = inl created ->
  exists created', fst (createWithDelegates createFn (getDelegateOrder window))
                   = inl created'.
Proof.
  intros Hcpu.
  assert (Hcases : getDelegateOrder window = [CPU]
                   \/ getDelegateOrder window = [GPU; CPU]).
  { destruct (getDelegateOrder_cases window) as [(-> & _) | (-> & _)]; auto. }
  destruct Hcases as [-> | ->]; unfold createWithDelegates; cbn [tryDelegates].
  - rewrite Hcpu. eauto.
  - destruct (createFn GPU); [eauto|]. rewrite Hcpu. eauto.
Qed.
End CreateWithDelegates.

Lemma createWithDelegates_first_success_witness :
  createWithDelegates (T := nat) (E := string)
    (fun d => match d with GPU => inr "no WebGL" | CPU => inl 7 end) [GPU; CPU]
  = (inl 7, [GPU])
  <-> exists d rest,
        [GPU; CPU] = [GPU] ++ d :: rest
        /\ Forall (fun d' => is_Some (thrownBy (T := nat) (E := string)
              (fun d => match d with GPU => inr "no WebGL" | CPU => inl 7 end) d'))
             [GPU]
        /\ match d with GPU => inr "no WebGL" | CPU => inl 7 end = inl 7.
Proof. apply createWithDelegates_first_success. Defined.

Lemma createWithDelegates_all_fail_witness :
  createWithDelegates (T := nat) (E := string)
    (fun d => match d with GPU => inr "no WebGL" | CPU => inr "no wasm" end)
    [GPU; CPU]
  = (inr (Some "no wasm"), [GPU; CPU]).
Proof.
  apply (createWithDelegates_all_fail (T := nat) (E := string)
           (fun d => match d with GPU => inr "no WebGL" | CPU => inr "no wasm" end)
           [GPU; CPU]).
  repeat constructor; cbn; eauto.
Defined.

Section Initialize.
Context {Vision FaceLandmarker ImageSegmenter E : Type}.
Implicit Types (this : MediaPipeService FaceLandmarker ImageSegmenter)
  (forVisionTasks : Vision + E)
  (createFaceLandmarker : Vision -> Delegate -> FaceLandmarker + E)
  (createImageSegmenter : Vision -> Delegate -> ImageSegmenter + E).

(** X18. A call of [initialize] that finds no other call under way leaves
    the initialising flag down however it ends; if it resolves, both tasks
    exist afterwards; if it rejects, the image segmenter is the one from
    before the call. *)
Theorem initialize_outcomes window forVisionTasks createFaceLandmarker
    createImageSegmenter this :
  isInitializing this = false ->
  let '(this', outcome) :=
    initialize window forVisionTasks createFaceLandmarker createImageSegmenter this in
  isInitializing this' = false
  /\ (outcome = None ->
      is_Some (faceLandmarker this') /\ is_Some (imageSegmenter this'))
  /\ (outcome <> None -> imageSegmenter this' = imageSegmenter this).
Proof.
  intros Hidle. unfold initialize.
  destruct (faceLandmarker this) as [fl|] eqn:Efl;
    destruct (imageSegmenter this) as [sg|] eqn:Esg.
  1: { repeat split; eauto; intros Hn; congruence. }
  all: rewrite Hidle.
  all: destruct forVisionTasks as [vision|error];
    [| cbn; repeat split; auto; discriminate ].
  all: destruct (fst (createWithDelegates (createFaceLandmarker vision)
                        (getDelegateOrder window))) as [landmarker|err];
    [| cbn; repeat split; auto; discriminate ].
  all: destruct (fst (createWithDelegates (createImageSegmenter vision)
                        (getDelegateOrder window))) as [segmenter|err];
    cbn; repeat split; eauto; try discriminate; intros Hn; congruence.
Qed.

(** X19. Where creating both tasks with the CPU delegate succeeds,
    [initialize] resolves, in every window and whatever creation with the
    GPU delegate does.  A call that finds no other call under way leaves
    both tasks in place; a call made while another is under way resolves at
    once and changes nothing, so that it can resolve with no task in
    place. *)
Theorem initialize_cpu_suffices window vision createFaceLandmarker
    createImageSegmenter this landmarker segmenter :
  createFaceLandmarker vision CPU = inl landmarker ->
  createImageSegmenter vision CPU = inl segmenter ->
  let '(this', outcome) :=
    initialize window (inl vision) createFaceLandmarker createImageSegmenter this in
  outcome = None
  /\ (isInitializing this = false ->
      is_Some (faceLandmarker this') /\ is_Some (imageSegmenter this')
      /\ isInitializing this' = false)
  /\ (isInitializing this = true -> this' = this).
Proof.
  intros Hfl Hsg. unfold initialize.
  destruct (createWithDelegates_cpu_suffices _ window _ Hfl) as [fl' Efl'].
  destruct (createWithDelegates_cpu_suffices _ window _ Hsg) as [sg' Esg'].
  destruct (faceLandmarker this) as [fl|] eqn:Efl;
    destruct (imageSegmenter this) as [sg|] eqn:Esg.
  1: { repeat split; eauto. }
  all: destruct (isInitializing this) eqn:Ebusy;
    [ repeat split; auto; discriminate
    | rewrite Efl', Esg'; cbn; repeat split; eauto; discriminate ].
Qed.

(** X20. Inside Electron, unless the stored render mode is "gpu",
    [initialize] never creates a task with the GPU delegate: its result is
    the same for any two pairs of creation functions that agree on the CPU
    delegate. *)
Theorem initialize_electron_cpu_only window forVisionTasks
    createFaceLandmarker createImageSegmenter
    createFaceLandmarker' createImageSegmenter' this :
  inElectron window = true ->
  storedRenderMode window <> Some "gpu" ->
  (forall vision, createFaceLandmarker vision CPU = createFaceLandmarker' vision CPU) ->
  (forall vision, createImageSegmenter vision CPU = createImageSegmenter' vision CPU) ->
  initialize window forVisionTasks createFaceLandmarker createImageSegmenter this
  = initialize window forVisionTasks createFaceLandmarker' createImageSegmenter' this.
Proof.
  intros Hel Hmode Hfl Hsg.
  assert (Horder : getDelegateOrder window = [CPU]).
  { destruct (getDelegateOrder_cases window) as [(-> & _) | (_ & [Hd | Hs])];
      [reflexivity | congruence | contradiction]. }
  unfold initialize. rewrite Horder.
  destruct forVisionTasks as [vision|error]; [|reflexivity].
  unfold createWithDelegates. cbn [tryDelegates].
  rewrite <- (Hfl vision), <- (Hsg vision). reflexivity.
Qed.
End Initialize.

Lemma initialize_outcomes_witness :
  let '(this', outcome) :=
    initialize (Vision := unit) (FaceLandmarker := nat) (ImageSegmenter := nat)
      (E := string) None (inl tt)
      (fun _ d => match d with GPU => inr "no WebGL" | CPU => inl 1 end)
      (fun _ _ => inr "no segmenter")
      (mkMediaPipeService None None false) in
  isInitializing this' = false
  /\ (outcome = None ->
      is_Some (faceLandmarker this') /\ is_Some (imageSegmenter this'))
  /\ (outcome <> None -> imageSegmenter this' = None).
Proof.
  apply (initialize_outcomes (Vision := unit) (FaceLandmarker := nat)
           (ImageSegmenter := nat) (E := string) None (inl tt)
           (fun _ d => match d with GPU => inr "no WebGL" | CPU => inl 1 end)
           (fun _ _ => inr "no segmenter")
           (mkMediaPipeService None None false)).
  reflexivity.
Defined.

Lemma initialize_cpu_suffices_witness :
  let '(this', outcome) :=
    initialize (Vision := unit) (FaceLandmarker := nat) (ImageSegmenter := nat)
      (E := string) None (inl tt)
      (fun _ d => match d with GPU => inr "no WebGL" | CPU => inl 1 end)
      (fun _ d => match d with GPU => inr "no WebGL" | CPU => inl 2 end)
      (mkMediaPipeService None None false) in
  outcome = None
  /\ (false = false ->
      is_Some (faceLandmarker this') /\ is_Some (imageSegmenter this')
      /\ isInitializing this' = false)
  /\ (false = true -> this' = mkMediaPipeService None None false).
Proof.
  apply (initialize_cpu_suffices (Vision := unit) (FaceLandmarker := nat)
           (ImageSegmenter := nat) (E := string) None tt
           (fun _ d => match d with GPU => inr "no WebGL" | CPU => inl 1 end)
           (fun _ d => match d with GPU => inr "no WebGL" | CPU => inl 2 end)
           (mkMediaPipeService None None false) 1 2); reflexivity.
Defined.

Lemma initialize_electron_cpu_only_witness :
  initialize (Vision := unit) (FaceLandmarker := nat) (ImageSegmenter := nat)
    (E := string)
    (Some (mkWindowEnv (Some "30.0.1") (ReadValue (Some "cpu")))) (inl tt)
    (fun _ d => match d with GPU => inr "no WebGL" | CPU => inl 1 end)
    (fun _ d => match d with GPU => inr "no WebGL" | CPU => inl 2 end)
    (mkMediaPipeService None None false)
  = initialize
      (Some (mkWindowEnv (Some "30.0.1") (ReadValue (Some "cpu")))) (inl tt)
      (fun _ d => match d with GPU => inl 5 | CPU => inl 1 end)
      (fun _ d => match d with GPU => inl 6 | CPU => inl 2 end)
      (mkMediaPipeService None None false).
Proof.
  apply (initialize_electron_cpu_only (Vision := unit) (FaceLandmarker := nat)
           (ImageSegmenter := nat) (E := string)
           (Some (mkWindowEnv (Some "30.0.1") (ReadValue (Some "cpu")))) (inl tt)
           (fun _ d => match d with GPU => inr "no WebGL" | CPU => inl 1 end)
           (fun _ d => match d with GPU => inr "no WebGL" | CPU => inl 2 end)
           (fun _ d => match d with GPU => inl 5 | CPU => inl 1 end)
           (fun _ d => match d with GPU => inl 6 | CPU => inl 2 end)
           (mkMediaPipeService None None false)).
  - reflexivity.
  - intros Hs. discriminate Hs.
  - intros vision. reflexivity.
  - intros vision. reflexivity.
Defined.

(** ** The main process: settings, fallback, start-up switches *)

Section MainSettingsFile.

Lemma parseRenderMode_name (m : RenderMode) :
  parseRenderMode (JsString (renderModeName m)) = Some m.
Proof. destruct m; reflexivity. Qed.

Lemma parseGpuBackend_name (b : GpuBackend) :
  parseGpuBackend (JsString (gpuBackendName b)) = Some b.
Proof. destruct b; reflexivity. Qed.

Lemma loadSettings_persisted (s : MainSettings) (file : option SettingsFile) :
  loadSettings (persistRenderMode s true file) = s.
Proof.
  destruct s as [m f b i d].
  cbn [persistRenderMode loadSettings renderMode allowGpuFallback gpuBackend
       ignoreGpuBlocklist disableGpuSandbox file_renderMode file_allowGpuFallback
       file_gpuBackend file_ignoreGpuBlocklist file_disableGpuSandbox].
  rewrite parseRenderMode_name, parseGpuBackend_name. reflexivity.
Qed.

(** X21. The settings written by [persistRenderMode] are the settings the
    start-up block reads back: whatever the five settings are and whatever
    the file held before, loading the file after a successful write gives
    the same five settings. *)
Theorem settings_round_trip (s : MainSettings) (file : option SettingsFile) :
  loadSettings (persistRenderMode s true file) = s.
Proof.
  unfold persistRenderMode, loadSettings.
  cbn [file_renderMode file_allowGpuFallback file_gpuBackend
       file_ignoreGpuBlocklist file_disableGpuSandbox].
  rewrite parseRenderMode_name, parseGpuBackend_name.
  destruct s; reflexivity.
Qed.

(** X22. Each of the five [app:set-*] handlers either rejects the value,
    returning false and leaving settings and file as they were, or returns
    true; in that case, when the write succeeds, the file reads back as the
    settings now in force, and when it fails the file is the one from
    before.  A handler never relaunches. *)
Theorem handleSet_validates (r : SetRequest) (writeSucceeds : bool)
    (st : MainState) :
  let '(st', accepted) := handleSet r writeSucceeds st in
  relaunches st' = relaunches st
  /\ (accepted = false -> st' = st)
  /\ (accepted = true ->
      if writeSucceeds then loadSettings (settingsFile st') = settings st'
      else settingsFile st' = settingsFile st).
Proof.
  destruct r as [v|v|v|v|v]; cbn [handleSet];
    unfold setRenderMode, setGpuFallback, setGpuBackend, setIgnoreGpuBlocklist,
      setDisableGpuSandbox.
  1: destruct (parseRenderMode v).
  3: destruct (parseBoolean v).
  5: destruct (parseGpuBackend v).
  7: destruct (parseBoolean v).
  9: destruct (parseBoolean v).
  all: repeat split; auto; try discriminate.
  all: intros _; unfold withSettings; cbn [settingsFile settings];
    destruct writeSucceeds; [apply loadSettings_persisted | reflexivity].
Qed.

(** X23. [fallbackToCpu] relaunches at most once and only out of GPU mode
    with fallback allowed; it changes no setting but the render mode; a
    second call changes nothing more; and when it relaunches after a
    successful write, the relaunched process reads CPU mode from the file
    and starts with hardware acceleration disabled. *)
Theorem fallbackToCpu_effects (writeSucceeds : bool) (st : MainState)
    (diskCacheDir gpuCacheDir : string) :
  let st' := fallbackToCpu writeSucceeds st in
  (relaunches st' = S (relaunches st)
   /\ renderMode (settings st) = gpu /\ allowGpuFallback (settings st) = true
   /\ renderMode (settings st') = cpu
   /\ (writeSucceeds = true ->
       renderMode (loadSettings (settingsFile st')) = cpu
       /\ snd (startupSwitches (loadSettings (settingsFile st'))
                               diskCacheDir gpuCacheDir) = true)
   \/ st' = st
      /\ (renderMode (settings st) = cpu \/ allowGpuFallback (settings st) = false))
  /\ allowGpuFallback (settings st') = allowGpuFallback (settings st)
  /\ gpuBackend (settings st') = gpuBackend (settings st)
  /\ ignoreGpuBlocklist (settings st') = ignoreGpuBlocklist (settings st)
  /\ disableGpuSandbox (settings st') = disableGpuSandbox (settings st)
  /\ fallbackToCpu writeSucceeds st' = st'.
Proof.
  destruct st as [[m f b i d] file n]. unfold fallbackToCpu.
  cbn [settings allowGpuFallback renderMode gpuBackend ignoreGpuBlocklist
       disableGpuSandbox settingsFile relaunches].
  destruct f; cbn [negb].
  - destruct m.
    + cbn. repeat split; auto.
    + cbn [settings allowGpuFallback renderMode gpuBackend ignoreGpuBlocklist
           disableGpuSandbox settingsFile relaunches negb].
      split; [left|repeat split; auto].
      repeat split; auto; subst writeSucceeds;
        rewrite loadSettings_persisted; reflexivity.
  - cbn. repeat split; auto.
Qed.
End MainSettingsFile.

Section StartupSwitches.

(** X24. No switch is appended twice at start-up, whatever the settings;
    hardware acceleration is disabled exactly in CPU mode, and then the
    switches select SwiftShader and name no GL implementation, whatever the
    GPU backend setting is. *)
Theorem startupSwitches_software (s : MainSettings)
    (diskCacheDir gpuCacheDir : string) :
  let '(switches, hardwareAccelerationDisabled) :=
    startupSwitches s diskCacheDir gpuCacheDir in
  NoDup (map sw_name switches)
  /\ (hardwareAccelerationDisabled = true <-> renderMode s = cpu)
  /\ (renderMode s = cpu ->
      In (mkSwitch "use-angle" (Some "swiftshader")) switches
      /\ ~ In "use-gl" (map sw_name switches)
      /\ ~ In "enable-features" (map sw_name switches)).
Proof.
  destruct s as [m f b i d]. unfold startupSwitches.
  cbn [renderMode gpuBackend ignoreGpuBlocklist disableGpuSandbox].
  split; [|split].
  - destruct m, b, i, d; cbn; apply (NoDup_ListNoDup _);
      repeat (constructor; [cbn; intuition discriminate|]); constructor.
  - destruct m; split; intros; congruence.
  - intros ->. destruct b, i, d; cbn; intuition discriminate.
Qed.

(** X25. The start-up switches never both enable and disable Vulkan: the
    feature is enabled exactly in GPU mode with the Vulkan backend, and it
    is on the list of disabled features exactly when the backend is not
    Vulkan. *)
Theorem startupSwitches_vulkan (s : MainSettings)
    (diskCacheDir gpuCacheDir : string) :
  let switches := fst (startupSwitches s diskCacheDir gpuCacheDir) in
  (In (mkSwitch "enable-features" (Some "Vulkan")) switches
   <-> renderMode s = gpu /\ gpuBackend s = vulkan)
  /\ (In (mkSwitch "disable-features"
                   (Some "CalculateNativeWinOcclusion,WebGPU,Vulkan")) switches
      <-> gpuBackend s <> vulkan)
  /\ (In (mkSwitch "disable-features" (Some "CalculateNativeWinOcclusion,WebGPU"))
         switches
      <-> gpuBackend s = vulkan).
Proof.
  destruct s as [m f b i d]. unfold startupSwitches.
  cbn [renderMode gpuBackend ignoreGpuBlocklist disableGpuSandbox fst].
  destruct m, b, i, d; cbn; intuition (try discriminate; try congruence).
Qed.
End StartupSwitches.

(** ** The camera hook: restarts are throttled *)

Section CameraRestarts.

Lemma restartStream_time (now : Z) (getUserMedia : nat + string)
    (st : CameraState) :
  let '(st', restarted) := restartStream now getUserMedia st in
  if restarted
  then (1500 <= now - lastRestartAtRef st)%Z /\ lastRestartAtRef st' = now
  else st' = st.
Proof.
  unfold restartStream.
  destruct (now - lastRestartAtRef st <? 1500)%Z eqn:El.
  - reflexivity.
  - apply Z.ltb_ge in El. split; [exact El|].
    unfold stopStream, startStream. cbn [streamRef].
    destruct (streamRef st); destruct getUserMedia; reflexivity.
Qed.

Lemma restartRequests_spaced (requests : list (Z * (nat + string)))
    (st : CameraState) (start : Z) (restarts : list Z) :
  spaced 1500 start restarts ->
  lastRestartAtRef st = hd start restarts ->
  let '(st', restarts') := restartRequests requests st restarts in
  spaced 1500 start restarts'
  /\ lastRestartAtRef st' = hd start restarts'
  /\ exists newer, restarts' = newer ++ restarts.
Proof.
  revert st restarts.
  induction requests as [|[now out] rest IH]; intros st restarts Hsp Hlast;
    cbn [restartRequests].
  - repeat split; auto. exists []. reflexivity.
  - pose proof (restartStream_time now out st) as Hstep.
    destruct (restartStream now out st) as [st1 restarted].
    destruct restarted.
    + destruct Hstep as [Hgap Hnow].
      specialize (IH st1 (now :: restarts)).
      destruct (restartRequests rest st1 (now :: restarts)) as [st' rs'].
      destruct IH as (H1 & H2 & newer & H3).
      * cbn [spaced]. split; [rewrite <- Hlast; exact Hgap | exact Hsp].
      * exact Hnow.
      * repeat split; auto. exists (newer ++ [now]).
        rewrite <- app_assoc. exact H3.
    + subst st1. apply IH; assumption.
Qed.

(** X26. Restarts of the camera stream are throttled: over any run of
    restart requests, at any times and in any order of times, each restart
    performed comes at least 1500 ms after the one before it, the first at
    least 1500 ms after the last restart recorded before the run, and the
    hook records the time of the latest one. *)
Theorem restartStream_throttled (requests : list (Z * (nat + string)))
    (st : CameraState) :
  let '(st', restarts) := restartRequests requests st [] in
  spaced 1500 (lastRestartAtRef st) restarts
  /\ lastRestartAtRef st' = hd (lastRestartAtRef st) restarts.
Proof.
  pose proof (restartRequests_spaced requests st (lastRestartAtRef st) [] I eq_refl)
    as Hrun.
  destruct (restartRequests requests st []) as [st' restarts].
  destruct Hrun as (H1 & H2 & _). split; assumption.
Qed.

(** A restart request that passes the throttle stops the stream held
    before it and holds the new stream, or none if the camera cannot be
    opened, in which case the error is set; a request inside the throttle
    window changes nothing. *)
Theorem restartStream_replaces_stream (now : Z) (getUserMedia : nat + string)
    (st : CameraState) :
  let '(st', restarted) := restartStream now getUserMedia st in
  if restarted then
    stoppedStreams st'
    = stoppedStreams st ++ match streamRef st with Some old => [old] | None => [] end
    /\ match getUserMedia with
       | inl ms => streamRef st' = Some ms /\ cameraError st' = cameraError st
       | inr message => streamRef st' = None /\ cameraError st' = Some message
       end
  else st' = st /\ (now - lastRestartAtRef st < 1500)%Z.
Proof.
  unfold restartStream.
  destruct (now - lastRestartAtRef st <? 1500)%Z eqn:El.
  - apply Z.ltb_lt in El. split; [reflexivity | exact El].
  - unfold stopStream, startStream. cbn [streamRef].
    destruct (streamRef st); destruct getUserMedia; cbn;
      rewrite ?app_nil_r; repeat split; reflexivity.
Qed.
End CameraRestarts.

(** ** The main process: the fallback timer *)

Section FallbackTimer.

Lemma clearTimeout_same (handle : nat) : clearTimeout handle [handle] = [].
Proof. unfold clearTimeout. cbn. rewrite Nat.eqb_refl. reflexivity. Qed.

Lemma oneWatchdog_withApp (p : MainProcess) (a : MainState) :
  oneWatchdog p -> oneWatchdog (withApp p a).
Proof. intros Hp. exact Hp. Qed.

Lemma handleEvent_oneWatchdog (writeSucceeds : bool) (p : MainProcess)
    (e : MainEvent) :
  oneWatchdog p -> oneWatchdog (handleEvent writeSucceeds p e).
Proof.
  intros Hp. unfold handleEvent.
  destruct (relaunches (mainState p)); [|exact Hp].
  destruct e.
  - unfold createWindow. destruct (renderMode (settings (mainState p))).
    + exact Hp.
    + right. exists (timersCreated p). split; [reflexivity|].
      cbn [pendingTimers].
      destruct Hp as [Hnil | (h & Ht & Hp)].
      * rewrite Hnil. destruct (gpuFallbackTimer p); reflexivity.
      * rewrite Ht, Hp, clearTimeout_same. reflexivity.
  - unfold onDidFinishLoad. destruct (renderMode (settings (mainState p)));
      [exact Hp|].
    left. unfold markRendererReady.
    destruct Hp as [Hnil | (h & Ht & Hp)].
    + destruct (gpuFallbackTimer p); cbn [pendingTimers]; rewrite Hnil;
        reflexivity.
    + rewrite Ht. cbn [pendingTimers]. rewrite Hp. apply clearTimeout_same.
  - left. unfold onRendererReady, markRendererReady.
    destruct Hp as [Hnil | (h & Ht & Hp)].
    + destruct (gpuFallbackTimer p); cbn [pendingTimers]; rewrite Hnil;
        reflexivity.
    + rewrite Ht. cbn [pendingTimers]. rewrite Hp. apply clearTimeout_same.
  - unfold onFallbackTimer.
    destruct Hp as [Hnil | (h & Ht & Hp)].
    + rewrite Hnil. cbn [existsb]. left. exact Hnil.
    + rewrite Hp. cbn [existsb]. rewrite orb_false_r.
      destruct (Nat.eqb handle h) eqn:Eh.
      * apply Nat.eqb_eq in Eh. subst h. left.
        cbn [rendererReady pendingTimers].
        destruct (negb (rendererReady p)); cbn [withApp pendingTimers];
          apply clearTimeout_same.
      * right. exists h. split; assumption.
  - unfold onRendererFailure. destruct (renderMode (settings (mainState p)));
      [exact Hp | apply oneWatchdog_withApp; exact Hp].
  - unfold onRendererFailure. destruct (renderMode (settings (mainState p)));
      [exact Hp | apply oneWatchdog_withApp; exact Hp].
  - unfold onChildProcessGone. destruct (renderMode (settings (mainState p)));
      [exact Hp|]. destruct isGpuProcess;
      [apply oneWatchdog_withApp; exact Hp | exact Hp].
  - apply oneWatchdog_withApp. exact Hp.
  - apply oneWatchdog_withApp. exact Hp.
Qed.

Lemma handleEvents_oneWatchdog (events : list (MainEvent * bool))
    (p : MainProcess) :
  oneWatchdog p -> oneWatchdog (handleEvents p events).
Proof.
  revert p. induction events as [|[e w] rest IH]; intros p Hp.
  - exact Hp.
  - cbn. apply IH. apply handleEvent_oneWatchdog. exact Hp.
Qed.

Lemma handleEvents_app (p : MainProcess) (l1 l2 : list (MainEvent * bool)) :
  handleEvents p (l1 ++ l2) = handleEvents (handleEvents p l1) l2.
Proof. unfold handleEvents. apply fold_left_app. Qed.

Lemma handleEvents_cons (p : MainProcess) (e : MainEvent) (w : bool)
    (rest : list (MainEvent * bool)) :
  handleEvents p ((e, w) :: rest) = handleEvents (handleEvent w p e) rest.
Proof. reflexivity. Qed.

Lemma handleEvent_quiet (writeSucceeds : bool) (p : MainProcess) (e : MainEvent) :
  e <> WindowCreated -> quiet p -> quiet (handleEvent writeSucceeds p e).
Proof.
  intros Hne Hq. unfold handleEvent.
  destruct (relaunches (mainState p)) eqn:Er; [|exact Hq].
  destruct Hq as [Hnil | Hr]; [|contradiction].
  left. destruct e; try contradiction.
  - unfold onDidFinishLoad. destruct (renderMode (settings (mainState p)));
      [exact Hnil|]. unfold markRendererReady.
    destruct (gpuFallbackTimer p); cbn [pendingTimers]; rewrite Hnil; reflexivity.
  - unfold onRendererReady, markRendererReady.
    destruct (gpuFallbackTimer p); cbn [pendingTimers]; rewrite Hnil; reflexivity.
  - unfold onFallbackTimer. rewrite Hnil. exact Hnil.
  - unfold onRendererFailure. destruct (renderMode (settings (mainState p)));
      exact Hnil.
  - unfold onRendererFailure. destruct (renderMode (settings (mainState p)));
      exact Hnil.
  - unfold onChildProcessGone. destruct (renderMode (settings (mainState p)));
      [exact Hnil|]. destruct isGpuProcess; exact Hnil.
  - exact Hnil.
  - exact Hnil.
Qed.

Lemma handleEvents_quiet (events : list (MainEvent * bool)) (p : MainProcess) :
  Forall (fun ev => fst ev <> WindowCreated) events ->
  quiet p -> quiet (handleEvents p events).
Proof.
  revert p. induction events as [|[e w] rest IH]; intros p Hall Hq.
  - exact Hq.
  - apply Forall_cons in Hall. destruct Hall as [He Hall].
    cbn. apply IH; [exact Hall|]. apply handleEvent_quiet; assumption.
Qed.

Lemma quiet_timer_ignored (writeSucceeds : bool) (handle : nat) (p : MainProcess) :
  quiet p -> handleEvent writeSucceeds p (FallbackTimer handle) = p.
Proof.
  intros Hq. unfold handleEvent.
  destruct (relaunches (mainState p)) eqn:Er; [|reflexivity].
  destruct Hq as [Hnil | Hr]; [|contradiction].
  unfold onFallbackTimer. rewrite Hnil. reflexivity.
Qed.

(** X27. From start-up on and whatever the events, at most one fallback
    timer is pending, and it is the one whose handle [gpuFallbackTimer]
    holds: creating a window again never leaves an earlier timer running
    beside the new one. *)
Theorem fallback_timer_single (file : option SettingsFile)
    (events : list (MainEvent * bool)) :
  oneWatchdog (handleEvents (startMainProcess file) events).
Proof.
  apply handleEvents_oneWatchdog. left. reflexivity.
Qed.

(** X28. Once the renderer has reported ready, no fallback timer fires
    until a window is created again: after any events, a renderer-ready
    message and any later events that create no window, a timer event with
    whatever handle leaves the main process as it is. *)
Theorem renderer_ready_cancels_fallback (file : option SettingsFile)
    (before later : list (MainEvent * bool)) (w w' : bool) (handle : nat) :
  Forall (fun ev => fst ev <> WindowCreated) later ->
  let p := handleEvents (startMainProcess file)
                        (before ++ (RendererReady, w) :: later) in
  handleEvent w' p (FallbackTimer handle) = p.
Proof.
  intros Hlater p. apply quiet_timer_ignored. subst p.
  rewrite handleEvents_app, handleEvents_cons.
  apply handleEvents_quiet; [exact Hlater|].
  set (q := handleEvents _ before).
  assert (Hq : oneWatchdog q).
  { apply (handleEvents_oneWatchdog before). left. reflexivity. }
  unfold quiet, handleEvent.
  destruct (relaunches (mainState q)) eqn:Er.
  - left. unfold onRendererReady, markRendererReady.
    destruct Hq as [Hnil | (h & Ht & Hp)].
    + destruct (gpuFallbackTimer q); cbn [pendingTimers]; rewrite Hnil;
        reflexivity.
    + rewrite Ht. cbn [pendingTimers]. rewrite Hp. apply clearTimeout_same.
  - right. rewrite Er. discriminate.
Qed.

Lemma fallbackToCpu_noop (writeSucceeds : bool) (st : MainState) :
  renderMode (settings st) = cpu \/ allowGpuFallback (settings st) = false ->
  fallbackToCpu writeSucceeds st = st.
Proof.
  unfold fallbackToCpu. intros [Hm | Hf].
  - rewrite Hm. destruct (negb (allowGpuFallback (settings st))); reflexivity.
  - rewrite Hf. reflexivity.
Qed.

Lemma handleEvent_no_fallback (writeSucceeds : bool) (p : MainProcess)
    (e : MainEvent) :
  userRequest e = false ->
  renderMode (settings (mainState p)) = cpu
  \/ allowGpuFallback (settings (mainState p)) = false ->
  mainState (handleEvent writeSucceeds p e) = mainState p.
Proof.
  intros He Hoff. unfold handleEvent.
  pose proof (fallbackToCpu_noop writeSucceeds (mainState p) Hoff) as Hnoop.
  destruct (relaunches (mainState p)); [|reflexivity].
  destruct e; try discriminate.
  - unfold createWindow. destruct (renderMode (settings (mainState p)));
      reflexivity.
  - unfold onDidFinishLoad, markRendererReady.
    destruct (renderMode (settings (mainState p))); [reflexivity|].
    destruct (gpuFallbackTimer p); reflexivity.
  - unfold onRendererReady, markRendererReady.
    destruct (gpuFallbackTimer p); reflexivity.
  - unfold onFallbackTimer.
    destruct (existsb (Nat.eqb handle) (pendingTimers p)); [|reflexivity].
    cbn [rendererReady mainState].
    destruct (negb (rendererReady p)); [|reflexivity].
    cbn [withApp mainState]. exact Hnoop.
  - unfold onRendererFailure. destruct (renderMode (settings (mainState p)));
      [reflexivity|]. cbn [withApp mainState]. exact Hnoop.
  - unfold onRendererFailure. destruct (renderMode (settings (mainState p)));
      [reflexivity|]. cbn [withApp mainState]. exact Hnoop.
  - unfold onChildProcessGone. destruct (renderMode (settings (mainState p)));
      [reflexivity|]. destruct isGpuProcess; [|reflexivity].
    cbn [withApp mainState]. exact Hnoop.
Qed.

(** X29. In CPU mode, or with automatic fallback switched off, nothing but
    a request from the user changes the settings, writes the settings file
    or relaunches the application: over any events that are neither
    [app:set-*] nor [app:relaunch] messages (load failures, lost renderer or
    GPU processes, timers), settings, file and relaunch count stay as they
    are. *)
Theorem no_fallback_unless_gpu (events : list (MainEvent * bool))
    (p : MainProcess) :
  Forall (fun ev => userRequest (fst ev) = false) events ->
  renderMode (settings (mainState p)) = cpu
  \/ allowGpuFallback (settings (mainState p)) = false ->
  mainState (handleEvents p events) = mainState p.
Proof.
  revert p. induction events as [|[e w] rest IH]; intros p Hall Hoff.
  - reflexivity.
  - apply Forall_cons in Hall. destruct Hall as [He Hall]. cbn in He.
    rewrite handleEvents_cons.
    pose proof (handleEvent_no_fallback w p e He Hoff) as Hstep.
    rewrite <- Hstep. apply IH; [exact Hall|]. rewrite Hstep. exact Hoff.
Qed.
End FallbackTimer.

Lemma renderer_ready_cancels_fallback_witness :
  let p := handleEvents (startMainProcess None)
             ([(WindowCreated, true)] ++ (RendererReady, true) :: [(DidFinishLoad, true)]) in
  handleEvent true p (FallbackTimer 0) = p.
Proof.
  apply (renderer_ready_cancels_fallback None [(WindowCreated, true)]
           [(DidFinishLoad, true)] true true 0).
  repeat constructor; cbn; discriminate.
Defined.

Lemma no_fallback_unless_gpu_witness :
  mainState (handleEvents
    (mkMainProcess (mkMainState (mkMainSettings cpu true d3d11 false false) None 0)
                   false None [] 0)
    [(WindowCreated, true); (DidFailLoad, true); (ChildProcessGone true, false)])
  = mkMainState (mkMainSettings cpu true d3d11 false false) None 0.
Proof.
  apply (no_fallback_unless_gpu
           [(WindowCreated, true); (DidFailLoad, true); (ChildProcessGone true, false)]
           (mkMainProcess
              (mkMainState (mkMainSettings cpu true d3d11 false false) None 0)
              false None [] 0)).
  - repeat constructor.
  - left. reflexivity.
Defined.

(** ** The avatar inside the camera's view *)

Section AvatarInView.
Local Open Scope Q_scope.

Lemma fold_Qmin_ge (xs : list Q) (a c : Q) :
  c <= a -> Forall (fun x => c <= x) xs -> c <= fold_left Qmin xs a.
Proof.
  revert a. induction xs as [|x xs IH]; intros a Ha Hall; cbn [fold_left].
  - exact Ha.
  - apply Forall_cons in Hall. destruct Hall as [Hx Hall].
    apply IH; [|exact Hall]. apply Q.min_glb; assumption.
Qed.

Lemma fold_Qmax_le (xs : list Q) (a c : Q) :
  a <= c -> Forall (fun x => x <= c) xs -> fold_left Qmax xs a <= c.
Proof.
  revert a. induction xs as [|x xs IH]; intros a Ha Hall; cbn [fold_left].
  - exact Ha.
  - apply Forall_cons in Hall. destruct Hall as [Hx Hall].
    apply IH; [|exact Hall]. apply Q.max_lub; assumption.
Qed.

Lemma scan_x_unit (lms : list (Landmark Q)) :
  Forall (fun p => 0 <= lm_x p <= 1) lms ->
  0 <= minX (scanLandmarks lms) <= 1 /\ 0 <= maxX (scanLandmarks lms) <= 1.
Proof.
  intros Hall. unfold scanLandmarks. rewrite scan_components.
  cbn [minX maxX initExtents].
  rewrite (fold_stepMin_Qmin _ _ (lit 1)) by reflexivity.
  rewrite (fold_stepMax_Qmax _ _ (lit 0)) by reflexivity.
  cbn [lit Q_Number].
  repeat split.
  - apply fold_Qmin_ge; [lra|]. apply Forall_map.
    eapply Forall_impl; [exact Hall|]. cbn. intros p Hp. apply Hp.
  - apply fold_Qmin_le_init.
  - apply fold_Qmax_ge_init.
  - apply fold_Qmax_le; [lra|]. apply Forall_map.
    eapply Forall_impl; [exact Hall|]. cbn. intros p Hp. apply Hp.
Qed.

(** X30. The avatar is aimed inside the view: when the landmarks of the
    snapshot have their x within [0, 1] and a face box is computed in the
    frame, the horizontal target position [useFrame] derives from it lies
    between the left and right planes that [CameraSync] gives the camera for
    the same canvas size, mirrored or not and whatever the head scale. *)
Theorem avatar_target_in_view (inp : AvatarInput Q) (snapshot : FaceSnapshot Q)
    (box : FaceBox Q) :
  av_snapshot inp = Some snapshot ->
  Forall (fun p => 0 <= lm_x p <= 1) (landmarks snapshot) ->
  latestFaceBoxOf inp = Some box ->
  0 <= fs_width (size inp) ->
  let pos := fst (targetPlacement inp box) in
  let camera := CameraSync (size inp) in
  cam_left camera <= v_x pos <= cam_right camera.
Proof.
  intros Hsnap Hunit Hbox Hsize pos camera. subst pos camera.
  unfold latestFaceBoxOf in Hbox. rewrite Hsnap in Hbox.
  destruct ((0 <? length (landmarks snapshot))%nat
            && truthy (fs_width (frame inp)) && truthy (fs_height (frame inp)))
    eqn:Eguard; [|discriminate].
  apply (inj Some) in Hbox. subst box.
  apply andb_prop in Eguard. destruct Eguard as [Eguard _].
  apply andb_prop in Eguard. destruct Eguard as [_ Ew].
  cbn [truthy Q_Number] in Ew. apply negb_true_iff in Ew.
  assert (Hfw : ~ fs_width (frame inp) == 0).
  { intros Hz. apply Qeq_bool_iff in Hz. congruence. }
  destruct (scan_x_unit _ Hunit) as [Hmin Hmax].
  unfold targetPlacement, computeFaceBox, baseBox, padBox, CameraSync.
  set (e := scanLandmarks (landmarks snapshot)) in *.
  set (fw := fs_width (frame inp)) in *.
  set (sw := fs_width (size inp)) in *.
  cbn [fst v_x cam_left cam_right fb_x fb_y fb_width fb_height
       add sub mul div neg lit Q_Number].
  set (bmin := if mirror inp then 1 - maxX e else minX e).
  set (bmax := if mirror inp then 1 - minX e else maxX e).
  assert (Hb : 0 <= bmin <= 1 /\ 0 <= bmax <= 1).
  { subst bmin bmax. destruct (mirror inp); split; lra. }
  clearbody bmin bmax.
  assert (E : (bmin * fw - (bmax - bmin) * fw * avatarPadX * 0.5
               + ((bmax - bmin) * fw + (bmax - bmin) * fw * avatarPadX) * 0.5)
              * (sw / fw) - sw * 0.5
              == (bmin + bmax) * 0.5 * sw - sw * 0.5).
  { field. exact Hfw. }
  rewrite E.
  assert (El : - sw / 2 == - (sw * 0.5)) by field.
  assert (Er : sw / 2 == sw * 0.5) by field.
  rewrite El, Er.
  assert (H1 : 0 <= (bmin + bmax) * sw) by nra.
  assert (H2 : 0 <= (2 - (bmin + bmax)) * sw) by nra.
  split; nra.
Qed.
End AvatarInView.

Section AvatarInViewSample.
Local Open Scope Q_scope.

Lemma avatar_target_in_view_witness :
  let box := computeFaceBox (landmarks sampleSnapshot) 640 480
               avatarPadX avatarPadY avatarShiftY true in
  cam_left (CameraSync (size sampleAvatarInput))
  <= v_x (fst (targetPlacement sampleAvatarInput box))
  <= cam_right (CameraSync (size sampleAvatarInput)).
Proof.
  refine (avatar_target_in_view sampleAvatarInput sampleSnapshot _
            eq_refl _ eq_refl _).
  - repeat constructor; cbn; discriminate.
  - cbn. discriminate.
Defined.
End AvatarInViewSample.
